(** * Order analysis: a shallow embedding of [analyzer/types.py] and
    [analyzer/analyzer.py]

    Number model.  The program computes on IEEE binary64 values.  Every finite
    binary64 value is a rational, so a finite float is a [Q] here and the
    arithmetic on finite values is exact (no rounding error, no overflow).
    The non-finite values a division by zero produces are cells of their own
    ([NaN], [Inf]); an aggregate (mean, variance, percentile, correlation)
    over a column that holds one of them ends in the outcome [NonFinite] and
    is not followed further.  The exponential of the risk curve is the one of
    the real numbers, so the raw risk score is an [R].  What is proved on
    this model holds of the program where the rounding of the machine plays
    no part.  The rule on a tie is not of this kind: for it the two scores
    are read a second time in [Binary64], on a machine of which nothing is
    assumed. *)

From Stdlib Require Import String List ZArith QArith Qround Qabs Qminmax.
From Stdlib Require Import Reals Qreals Psatz Lia Bool Permutation Sorted.
Import ListNotations.

Local Open Scope string_scope.
Local Open Scope list_scope.
Local Open Scope Z_scope.

(** ** Outcomes of a call *)

Inductive exn : Type :=
| KeyError (key : string)
| TypeError
| ValueError (msg : string).

Inductive outcome (A : Type) : Type :=
| Ok (a : A)
| Raise (e : exn)
| NonFinite.

Arguments Ok {A} a.
Arguments Raise {A} e.
Arguments NonFinite {A}.

Definition bind {A B : Type} (m : outcome A) (k : A -> outcome B) : outcome B :=
  match m with
  | Ok a => k a
  | Raise e => Raise e
  | NonFinite => NonFinite
  end.

Notation "x <- m ;; k" := (bind m (fun x => k))
  (at level 61, m at next level, right associativity).

(** ** analyzer/types.py *)

Module RISK.
Record t : Type := mk { value : Z }.

Definition msg : string := "RISK must be between 1 and 10".

(** [RISK(v)]: the dataclass stores the field, then [__post_init__]
    checks [1 <= self.value <= 10]. *)
Definition __post_init__ (self : t) : outcome unit :=
  if negb ((1 <=? value self) && (value self <=? 10))
  then Raise (ValueError msg) else Ok tt.

Definition new (v : Z) : outcome t :=
  let self := mk v in
  _ <- __post_init__ self ;; Ok self.
End RISK.

Module GAIN.
Record t : Type := mk { value : Z }.

Definition msg : string := "GAIN must be between 1 and 10".

Definition __post_init__ (self : t) : outcome unit :=
  if negb ((1 <=? value self) && (value self <=? 10))
  then Raise (ValueError msg) else Ok tt.

Definition new (v : Z) : outcome t :=
  let self := mk v in
  _ <- __post_init__ self ;; Ok self.
End GAIN.

(** ** Rounding, clipping and conversion to [int] *)

(** Python's [round(x)] on a float, no [ndigits]: the nearest integer, a tie
    going to the even neighbour.  The raw risk score is a real number. *)
Definition py_round (x : R) : Z :=
  let f := Int_part x in
  let d := (x - IZR f)%R in
  if Rlt_dec d (1 / 2) then f
  else if Rlt_dec (1 / 2) d then f + 1
  else if Z.even f then f else f + 1.

(** [np.round(x)] on a float: the same rule, the result is again a float. *)
Definition rint (x : Q) : Z :=
  let f := Qfloor x in
  match Qcompare (x - inject_Z f) (1 # 2) with
  | Lt => f
  | Gt => f + 1
  | Eq => if Z.even f then f else f + 1
  end.

Definition np_round (x : Q) : Q := inject_Z (rint x).

(** [np.clip(x, lo, hi)] is [minimum(maximum(x, lo), hi)]. *)
Definition np_clip_int (x lo hi : Z) : Z := Z.min (Z.max x lo) hi.

Definition np_clip (x lo hi : Q) : Q := Qmin (Qmax x lo) hi.

(** [int(x)] on a float truncates toward zero. *)
Definition int (x : Q) : Z :=
  if Qle_bool 0 x then Qfloor x else Qceiling x.

(** Line 136: [int(np.clip(round(score), 1, 10))]. *)
Definition risk_score_of (score : R) : Z :=
  np_clip_int (py_round score) 1 10.

(** Line 154: [int(np.clip(np.round(scaled * 9 + 1), 1, 10))]. *)
Definition gain_score_of (scaled : Q) : Z :=
  int (np_clip (np_round (scaled * 9 + 1)) 1 10).

(** ** Client classification (print_client_risk_and_gain, lines 193-202) *)

Definition Qge_bool (x y : Q) : bool := Qle_bool y x.

Definition classify (gain risk : Z) (variance : Q) : string :=
  if (gain >=? 6) && ((risk >=? 6) || Qge_bool variance 60)
  then "Profitable but risky"
  else if (gain <=? 4) && (risk <=? 4) && Qle_bool variance 40
  then "Unprofitable but stable"
  else if gain >=? 6
  then "Strong client"
  else if (risk >=? 6) || Qge_bool variance 60
  then "Risk exposure"
  else "Neutral".

(** ** Tables

    A [DataFrame] is the ordered sequence of its named columns; a column is
    the sequence of its cells, one per row.  Tables read from a spreadsheet
    have distinct column names and columns of one length ([wf]). *)

Inductive cell : Type :=
| Num (q : Q)
| NaN
| Inf (negative : bool)
| Str (s : string).

Definition Series : Type := list cell.
Definition DataFrame : Type := list (string * Series).

Definition columns (df : DataFrame) : list string := map fst df.

Definition nrows (df : DataFrame) : nat :=
  match df with
  | [] => O
  | (_, s) :: _ => length s
  end.

Definition wf (df : DataFrame) : Prop :=
  NoDup (columns df) /\ Forall (fun c => length (snd c) = nrows df) df.

(** [name in df.columns] *)
Definition has_column (name : string) (df : DataFrame) : bool :=
  existsb (String.eqb name) (columns df).

(** [df[name]] *)
Fixpoint getitem (df : DataFrame) (name : string) : outcome Series :=
  match df with
  | [] => Raise (KeyError name)
  | (c, s) :: rest => if String.eqb c name then Ok s else getitem rest name
  end.

(** [df[name] = s]: an existing column is replaced where it stands, a new
    one is appended after the last column. *)
Fixpoint setitem (df : DataFrame) (name : string) (s : Series) : DataFrame :=
  match df with
  | [] => [(name, s)]
  | (c, old) :: rest =>
      if String.eqb c name then (c, s) :: rest
      else (c, old) :: setitem rest name s
  end.

(** Positional selection ([take]): the rows at [idxs], in that order. *)
Definition select {A : Type} (idxs : list nat) (l : list A) : list A :=
  flat_map (fun i => match nth_error l i with Some x => [x] | None => [] end) idxs.

Definition take (idxs : list nat) (df : DataFrame) : DataFrame :=
  map (fun c => (fst c, select idxs (snd c))) df.

(** The row at position [i], one cell per column. *)
Definition row (df : DataFrame) (i : nat) : list (option cell) :=
  map (fun c => nth_error (snd c) i) df.

(** Positions of the true entries of a boolean mask. *)
Fixpoint nonzero_from (i : nat) (mask : list bool) : list nat :=
  match mask with
  | [] => []
  | b :: m => (if b then [i] else []) ++ nonzero_from (S i) m
  end.

Definition nonzero (mask : list bool) : list nat := nonzero_from O mask.

(** ** Elementwise arithmetic of columns *)

Definition cell_sub (a b : cell) : outcome cell :=
  match a, b with
  | Str _, _ | _, Str _ => Raise TypeError
  | NaN, _ | _, NaN => Ok NaN
  | Num x, Num y => Ok (Num (x - y))
  | Num _, Inf s => Ok (Inf (negb s))
  | Inf s, Num _ => Ok (Inf s)
  | Inf s, Inf t => if Bool.eqb s t then Ok NaN else Ok (Inf s)
  end.

Definition cell_div (a b : cell) : outcome cell :=
  match a, b with
  | Str _, _ | _, Str _ => Raise TypeError
  | NaN, _ | _, NaN => Ok NaN
  | Num x, Num y =>
      if Qeq_bool y 0 then
        match Qcompare x 0 with
        | Eq => Ok NaN
        | Gt => Ok (Inf false)
        | Lt => Ok (Inf true)
        end
      else Ok (Num (x / y))
  | Num _, Inf _ => Ok (Num 0)
  | Inf s, Num y => Ok (Inf (if Qle_bool 0 y then s else negb s))
  | Inf _, Inf _ => Ok NaN
  end.

Fixpoint zip_with (f : cell -> cell -> outcome cell) (a b : Series)
  : outcome Series :=
  match a, b with
  | x :: a', y :: b' =>
      v <- f x y ;; r <- zip_with f a' b' ;; Ok (v :: r)
  | _, _ => Ok []
  end.

Definition series_sub : Series -> Series -> outcome Series := zip_with cell_sub.
Definition series_div : Series -> Series -> outcome Series := zip_with cell_div.

(** ** Aggregates over a column of finite numbers *)

Fixpoint finite (s : Series) : outcome (list Q) :=
  match s with
  | [] => Ok []
  | Num q :: r => qs <- finite r ;; Ok (q :: qs)
  | Str _ :: _ => Raise TypeError
  | _ :: _ => NonFinite
  end.

Definition numeric (df : DataFrame) (name : string) : outcome (list Q) :=
  s <- getitem df name ;; finite s.

Definition Qsum (xs : list Q) : Q := fold_right Qplus 0%Q xs.

Definition Qlen (xs : list Q) : Q := inject_Z (Z.of_nat (length xs)).

(** [Series.mean()]; [None] is the NaN of an empty column. *)
Definition mean (xs : list Q) : option Q :=
  match xs with
  | [] => None
  | _ => Some (Qsum xs / Qlen xs)%Q
  end.

(** [Series.var(ddof=0)]: the population variance. *)
Definition var0 (xs : list Q) : option Q :=
  match mean xs with
  | None => None
  | Some m => Some (Qsum (map (fun x => (x - m) * (x - m)) xs) / Qlen xs)%Q
  end.

Fixpoint insert (x : Q) (l : list Q) : list Q :=
  match l with
  | [] => [x]
  | y :: r => if Qle_bool x y then x :: l else y :: insert x r
  end.

Definition sorted_values (xs : list Q) : list Q := fold_right insert [] xs.

(** [Series.quantile(q)] and [np.percentile]: linear interpolation between
    the two order statistics around the position [(n - 1) * q]. *)
Definition quantile (xs : list Q) (q : Q) : option Q :=
  match sorted_values xs with
  | [] => None
  | (a0 :: _) as s =>
      let n := length s in
      let virt := (inject_Z (Z.of_nat (n - 1)) * q)%Q in
      let lo := Z.to_nat (Qfloor virt) in
      let hi := Nat.min (lo + 1) (n - 1) in
      let gamma := (virt - inject_Z (Qfloor virt))%Q in
      let a := nth lo s a0 in
      let b := nth hi s a0 in
      Some (a + (b - a) * gamma)%Q
  end.

Definition percentile (xs : list Q) (p : Q) : option Q := quantile xs (p / 100).

(** A comparison with NaN is false. *)
Definition gt_nan (x : Q) (t : option Q) : bool :=
  match t with
  | Some y => negb (Qle_bool x y)
  | None => false
  end.

Definition lt_nan (x : Q) (t : option Q) : bool :=
  match t with
  | Some y => negb (Qle_bool y x)
  | None => false
  end.

(** ** Sorting

    [sort_values] is called with its default [kind], quicksort, which pandas
    hands to numpy's [argsort].  That routine is known here by its contract
    only: it returns a permutation of the positions along which the keys
    ascend.  It promises nothing about the order of equal keys. *)

Definition ascends {A : Type} (leb : A -> A -> bool) (l : list A) (i j : nat)
  : Prop :=
  match nth_error l i, nth_error l j with
  | Some a, Some b => leb a b = true
  | _, _ => False
  end.

Definition total {A : Type} (leb : A -> A -> bool) : Prop :=
  forall a b, leb a b = true \/ leb b a = true.

Definition transitive {A : Type} (leb : A -> A -> bool) : Prop :=
  forall a b c, leb a b = true -> leb b c = true -> leb a c = true.

Record Sorter : Type := {
  argsort : forall A : Type, (A -> A -> bool) -> list A -> list nat;
  argsort_perm : forall A leb (l : list A),
    Permutation (argsort A leb l) (seq 0 (length l));
  argsort_sorted : forall A leb (l : list A),
    total leb -> transitive leb ->
    StronglySorted (ascends leb l) (argsort A leb l)
}.

(** The entries of a series that hold a value, and the positions of those
    that hold NaN. *)
Definition somes {A : Type} (tagged : list (nat * option A)) : list (nat * A) :=
  flat_map (fun p => match snd p with Some v => [(fst p, v)] | None => [] end)
    tagged.

Definition nones {A : Type} (tagged : list (nat * option A)) : list nat :=
  flat_map (fun p => match snd p with Some _ => [] | None => [fst p] end)
    tagged.

(** pandas' [nargsort] with [na_position='last']: the NaN entries are set
    aside and appended; a descending sort reverses the keys, sorts them
    ascending and reverses the result. *)
Definition nargsort {A : Type} (S : Sorter) (leb : A -> A -> bool)
  (items : list (option A)) (ascending : bool) : list nat :=
  let tagged := combine (seq 0 (length items)) items in
  let non_nan := somes tagged in
  let nan_idx := nones tagged in
  let non_nan := if ascending then non_nan else rev non_nan in
  let indexer := select (argsort S A leb (map snd non_nan)) (map fst non_nan) in
  let indexer := if ascending then indexer else rev indexer in
  indexer ++ nan_idx.

(** [DataFrame.sort_values(by)] *)
Definition sort_values (S : Sorter) (df : DataFrame) (by_ : string)
  : outcome DataFrame :=
  keys <- numeric df by_ ;;
  Ok (take (nargsort S Qle_bool (map Some keys) true) df).

(** ** Risk and gain of one client (lines 126-156) *)

Definition _calculate_risk (client_df : DataFrame) : outcome (RISK.t * Q) :=
  xs <- numeric client_df "risk (in percent)" ;;
  match mean xs, var0 xs with
  | Some expected_risk, Some variance =>
      let score := (1 + 9 * (1 - exp (- Q2R expected_risk / 20)))%R in
      let risk_score := risk_score_of score in
      r <- RISK.new risk_score ;;
      Ok (r, variance)
  | _, _ => NonFinite
  end.

Definition _calculate_gain (client_df : DataFrame) : outcome GAIN.t :=
  xs <- numeric client_df "margin_per_hour" ;;
  match mean xs, percentile xs 10, percentile xs 90 with
  | Some avg_mph, Some p10, Some p90 =>
      let gain_score :=
        if Qeq_bool p90 p10 then 5
        else
          let scaled := ((avg_mph - p10) / (p90 - p10))%Q in
          gain_score_of scaled in
      GAIN.new gain_score
  | _, _, _ => NonFinite
  end.

(** ** Client analysis (lines 162-175) *)

Definition cell_eqb (a b : cell) : bool :=
  match a, b with
  | Num x, Num y => Qeq_bool x y
  | Inf s, Inf t => Bool.eqb s t
  | Str s, Str t => String.eqb s t
  | _, _ => false
  end.

Definition notna (c : cell) : bool :=
  match c with
  | NaN => false
  | _ => true
  end.

Fixpoint unique (l : list cell) : list cell :=
  match l with
  | [] => []
  | x :: r => x :: filter (fun y => negb (cell_eqb x y)) (unique r)
  end.

(** The positions of the rows that carry [key]. *)
Definition rows_of (key : cell) (keys : Series) : list nat :=
  nonzero (map (cell_eqb key) keys).

(** [df.groupby(by)]: one group per distinct key that is not NaN, holding the
    rows of that key in their original order.  pandas hands the groups out
    sorted by key; they are listed here by first appearance, the order plays
    no part in what is computed per client. *)
Definition groupby (df : DataFrame) (by_ : string)
  : outcome (list (cell * DataFrame)) :=
  keys <- getitem df by_ ;;
  Ok (map (fun k => (k, take (rows_of k keys) df))
          (unique (filter notna keys))).

Record ClientDiag : Type := {
  risk : RISK.t;
  risk_variance : Q;
  gain : GAIN.t;
  avg_margin_per_hour : Q
}.

Definition client_record (client_df : DataFrame) : outcome ClientDiag :=
  rv <- _calculate_risk client_df ;;
  g <- _calculate_gain client_df ;;
  xs <- numeric client_df "margin_per_hour" ;;
  match mean xs with
  | Some avg => Ok {| risk := fst rv; risk_variance := snd rv; gain := g;
                      avg_margin_per_hour := avg |}
  | None => NonFinite
  end.

Fixpoint for_each_client (groups : list (cell * DataFrame))
  : outcome (list (cell * ClientDiag)) :=
  match groups with
  | [] => Ok []
  | (client_id, client_df) :: rest =>
      d <- client_record client_df ;;
      ds <- for_each_client rest ;;
      Ok ((client_id, d) :: ds)
  end.

(** The entries assigned to [self.client_dict], in the order of the loop;
    the dictionary keys them by [str(client_id)]. *)
Definition analyze_client (order_df : DataFrame)
  : outcome (list (cell * ClientDiag)) :=
  groups <- groupby order_df "customer_id" ;;
  for_each_client groups.

(** The label [print_client_risk_and_gain] prints for one entry. *)
Definition client_label (data : ClientDiag) : string :=
  classify (GAIN.value (gain data)) (RISK.value (risk data)) (risk_variance data).

(** ** Order analysis (lines 210-226) *)

Fixpoint mask3 (pt mph rk : list Q) (q75 q25 : option Q) : list bool :=
  match pt, mph, rk with
  | p :: pt', m :: mph', r :: rk' =>
      (gt_nan p q75 && lt_nan m q25 && negb (Qle_bool r 15))
        :: mask3 pt' mph' rk' q75 q25
  | _, _, _ => []
  end.

(** The value assigned to [self.bad_orders]. *)
Definition analyze_orders (S : Sorter) (df : DataFrame) : outcome DataFrame :=
  pt <- numeric df "processing_time_hr" ;;
  mph <- numeric df "margin_per_hour" ;;
  rk <- numeric df "risk (in percent)" ;;
  let mask := mask3 pt mph rk (quantile pt (75 # 100)) (quantile mph (25 # 100)) in
  let bad_orders := take (nonzero mask) df in
  sort_values S bad_orders "margin_per_hour".

(** ** Margin drivers (lines 41-89)

    A Pearson coefficient is [covxy / sqrt ssq], the sum of the products of
    the deviations over the root of the product of the two sums of squared
    deviations.  Both sums are rational; the coefficient is kept as this
    pair, [coeff_val] is its value and [coeff_leb] compares two values. *)

Record coeff : Type := { covxy : Q; ssq : Q }.

Definition coeff_val (c : coeff) : R := (Q2R (covxy c) / sqrt (Q2R (ssq c)))%R.

Definition coeff_key (c : coeff) : Q := (covxy c * Qabs (covxy c) / ssq c)%Q.

Definition coeff_leb (a b : coeff) : bool := Qle_bool (coeff_key a) (coeff_key b).

Definition sq_dev (m : Q) (xs : list Q) : Q :=
  Qsum (map (fun x => (x - m) * (x - m))%Q xs).

(** One entry of [DataFrame.corr()]; [None] is the NaN of a column without
    spread (or without rows). *)
Definition pearson (xs ys : list Q) : option coeff :=
  match mean xs, mean ys with
  | Some mx, Some my =>
      let c := Qsum (map (fun p => (fst p - mx) * (snd p - my))%Q (combine xs ys)) in
      let d := (sq_dev mx xs * sq_dev my ys)%Q in
      if Qeq_bool d 0 then None else Some {| covxy := c; ssq := d |}
  | _, _ => None
  end.

Definition features : list string :=
  ["processing_time_hr"; "costs"; "profit"; "risk (in percent)"].

(** [df[names]] on numeric columns. *)
Fixpoint numeric_columns (df : DataFrame) (names : list string)
  : outcome (list (string * list Q)) :=
  match names with
  | [] => Ok []
  | n :: rest =>
      xs <- numeric df n ;;
      r <- numeric_columns df rest ;;
      Ok ((n, xs) :: r)
  end.

(** The series [analyze_margin] returns, as (label, value) pairs. *)
Definition analyze_margin (S : Sorter) (order_df : DataFrame)
  : outcome (list (string * option coeff)) :=
  sub <- numeric_columns order_df (features ++ ["margin_per_hour"]) ;;
  mph <- numeric order_df "margin_per_hour" ;;
  let corr := map (fun c => (fst c, pearson (snd c) mph)) sub in
  Ok (select (nargsort S coeff_leb (map snd corr) false) corr).

Record ReportLine : Type := {
  feature : string;
  strength_txt : string;
  direction : string;
  value : option coeff
}.

(** [value > 0] and [abs(value) >= t]; both are false on NaN. *)
Definition is_positive (v : option coeff) : bool :=
  match v with
  | Some c => negb (Qle_bool (covxy c) 0)
  | None => false
  end.

Definition abs_geb (v : option coeff) (t : Q) : bool :=
  match v with
  | Some c => Qle_bool (t * t * ssq c) (covxy c * covxy c)
  | None => false
  end.

Definition describe (feature : string) (value : option coeff) : ReportLine :=
  {| feature := feature;
     strength_txt :=
       if abs_geb value (7 # 10) then "strong"
       else if abs_geb value (4 # 10) then "moderate"
       else if abs_geb value (2 # 10) then "weak"
       else "very weak";
     direction := if is_positive value then "increases" else "decreases";
     value := value |}.

(** The lines [print_characteristics] prints, one per iteration that does
    not [continue]. *)
Definition print_characteristics (S : Sorter) (order_df : DataFrame)
  : outcome (list ReportLine) :=
  corr <- analyze_margin S order_df ;;
  Ok (flat_map
        (fun item =>
           if String.eqb (fst item) "margin_per_hour" then []
           else [describe (fst item) (snd item)])
        corr).

(** ** The analyzer object and the table it owns (lines 14-35)

    Tables are objects of a store and are named by reference: [__init__]
    copies the caller's table into a fresh object, [_prepare_columns]
    assigns columns of that object, and every analysis reads it through
    [self.order_df]. *)

Definition ref : Type := nat.
Definition heap : Type := list DataFrame.
Definition M (A : Type) : Type := heap -> outcome A * heap.

Definition ret {A : Type} (a : A) : M A := fun h => (Ok a, h).

Definition mbind {A B : Type} (m : M A) (k : A -> M B) : M B :=
  fun h =>
    match m h with
    | (Ok a, h') => k a h'
    | (Raise e, h') => (Raise e, h')
    | (NonFinite, h') => (NonFinite, h')
    end.

Notation "'let*' x ':=' m 'in' k" := (mbind m (fun x => k))
  (at level 10, x name, m at level 100, k at level 200).

Definition lift {A : Type} (o : outcome A) : M A := fun h => (o, h).

Definition deref (r : ref) : M DataFrame := fun h => (Ok (nth r h []), h).

Fixpoint replace (r : ref) (v : DataFrame) (h : heap) : heap :=
  match h, r with
  | [], _ => []
  | _ :: t, O => v :: t
  | x :: t, S r' => x :: replace r' v t
  end.

Definition assign (r : ref) (v : DataFrame) : M unit :=
  fun h => (Ok tt, replace r v h).

Definition alloc (v : DataFrame) : M ref :=
  fun h => (Ok (length h), (h ++ [v])%list).

Definition df_has_column (df : ref) (name : string) : M bool :=
  let* t := deref df in ret (has_column name t).

Definition df_getitem (df : ref) (name : string) : M Series :=
  let* t := deref df in lift (getitem t name).

Definition df_setitem (df : ref) (name : string) (s : Series) : M unit :=
  let* t := deref df in assign df (setitem t name s).

Module Analyzer.
Record t : Type := mk { order_df : ref }.

Definition _prepare_columns (self : t) : M unit :=
  let df := order_df self in
  let* present := df_has_column df "contribution_margin" in
  let* _ :=
    if negb present then
      let* profit := df_getitem df "profit" in
      let* costs := df_getitem df "costs" in
      let* v := lift (series_sub profit costs) in
      df_setitem df "contribution_margin" v
    else ret tt in
  let* present := df_has_column df "margin_per_hour" in
  if negb present then
    let* cm := df_getitem df "contribution_margin" in
    let* hours := df_getitem df "processing_time_hr" in
    let* v := lift (series_div cm hours) in
    df_setitem df "margin_per_hour" v
  else ret tt.

Definition __init__ (df : ref) : M t :=
  let* src := deref df in
  let* copy := alloc src in
  let self := mk copy in
  let* _ := _prepare_columns self in
  ret self.

Definition analyze_margin (S : Sorter) (self : t) :=
  let* df := deref (order_df self) in lift (analyze_margin S df).

Definition print_characteristics (S : Sorter) (self : t) :=
  let* df := deref (order_df self) in lift (print_characteristics S df).

Definition analyze_client (self : t) :=
  let* df := deref (order_df self) in lift (analyze_client df).

Definition analyze_orders (S : Sorter) (self : t) :=
  let* df := deref (order_df self) in lift (analyze_orders S df).
End Analyzer.

(** ** Two sorting routines

    Both insert the keys one by one, from the last to the first, into the
    sorted suffix; [before] says whether the new key goes in front of the
    one it meets.  With [leb] itself equal keys keep their order; with the
    strict comparison they end up reversed. *)

Fixpoint insert_by {A : Type} (before : A -> A -> bool) (x : nat * A)
  (l : list (nat * A)) : list (nat * A) :=
  match l with
  | [] => [x]
  | y :: r =>
      if before (snd x) (snd y) then x :: l else y :: insert_by before x r
  end.

Definition isort_by {A : Type} (before : A -> A -> bool) (l : list A)
  : list (nat * A) :=
  fold_right (insert_by before) [] (combine (seq 0 (length l)) l).

Definition stable_argsort (A : Type) (leb : A -> A -> bool) (l : list A)
  : list nat :=
  map fst (isort_by leb l).

Definition reversing_argsort (A : Type) (leb : A -> A -> bool) (l : list A)
  : list nat :=
  map fst (isort_by (fun x y => negb (leb y x)) l).

(** ** The wording of the specification *)

(** "round to nearest integer", whatever the rule on a tie. *)
Definition nearest_integer (x : R) (n : Z) : Prop :=
  (Rabs (IZR n - x) <= 1 / 2)%R.


Definition clamp (n lo hi : Z) : Z :=
  if n <? lo then lo else if hi <? n then hi else n.

Definition risk_curve (expected_risk : R) : R :=
  (1 + 9 * (1 - exp (- expected_risk / 20)))%R.

(** The even one of [k] and [k + 1]. *)
Definition even_neighbour (k : Z) : Z := if Z.even k then k else k + 1.

(** The five rules of the classification, in their order. *)
Definition rules (gain risk : Z) (variance : Q) : list (Prop * string) :=
  [ (gain >= 6 /\ (risk >= 6 \/ (60 <= variance)%Q), "Profitable but risky");
    (gain <= 4 /\ risk <= 4 /\ (variance <= 40)%Q, "Unprofitable but stable");
    (gain >= 6, "Strong client");
    (risk >= 6 \/ (60 <= variance)%Q, "Risk exposure");
    (True, "Neutral") ].

(** [label] is the label of the first rule of [rs] that holds. *)
Inductive first_match : list (Prop * string) -> string -> Prop :=
| match_here (P : Prop) (label : string) rs :
    P -> first_match ((P, label) :: rs) label
| match_later (P : Prop) (l label : string) rs :
    ~ P -> first_match rs label -> first_match ((P, l) :: rs) label.

(** Equal coefficients stand in the order of [features]. *)
Fixpoint index_of (name : string) (names : list string) : nat :=
  match names with
  | [] => O
  | n :: rest => if String.eqb n name then O else S (index_of name rest)
  end.

Definition natural_ties (lines : list ReportLine) : Prop :=
  forall i j a b ca cb,
    (i < j)%nat ->
    nth_error lines i = Some a -> nth_error lines j = Some b ->
    value a = Some ca -> value b = Some cb ->
    coeff_val ca = coeff_val cb ->
    (index_of (feature a) features < index_of (feature b) features)%nat.

(** ** Further wording of the specification *)

Definition labels : list string :=
  ["Profitable but risky"; "Unprofitable but stable"; "Strong client";
   "Risk exposure"; "Neutral"].

Definition raw_gain (avg_mph p10 p90 : Q) : Q :=
  ((avg_mph - p10) / (p90 - p10) * 9 + 1)%Q.

Definition selected (pt mph rk : list Q) (i : nat) : Prop :=
  exists p m r,
    nth_error pt i = Some p /\ nth_error mph i = Some m /\
    nth_error rk i = Some r /\
    (exists q75, quantile pt (75 # 100) = Some q75 /\ (q75 < p)%Q) /\
    (exists q25, quantile mph (25 # 100) = Some q25 /\ (m < q25)%Q) /\
    (15 < r)%Q.

Definition not_target (item : string * option coeff) : bool :=
  negb (String.eqb (fst item) "margin_per_hour").

(** Values in descending order, compared as [sort_values] compares them. *)
Definition above (a b : string * option coeff) : Prop :=
  exists ca cb, snd a = Some ca /\ snd b = Some cb /\ coeff_leb cb ca = true.

(** The reported values are in descending order: first the lines that have
    a value, each value at least the next one, then the lines whose
    coefficient is NaN. *)
Definition descending (lines : list ReportLine) : Prop :=
  exists ranked undefined,
    lines = ranked ++ undefined /\
    Forall (fun l => value l = None) undefined /\
    Forall (fun l => value l <> None) ranked /\
    StronglySorted
      (fun a b => exists ca cb,
           value a = Some ca /\ value b = Some cb /\
           (coeff_val cb <= coeff_val ca)%R)
      ranked.

(** The same order on the series [analyze_margin] returns. *)
Definition series_descending (corr : list (string * option coeff)) : Prop :=
  exists ranked undefined,
    corr = ranked ++ undefined /\
    Forall (fun e => snd e = None) undefined /\
    Forall (fun e => snd e <> None) ranked /\
    StronglySorted
      (fun a b => exists ca cb,
           snd a = Some ca /\ snd b = Some cb /\
           (coeff_val cb <= coeff_val ca)%R)
      ranked.

(** ** The enrichment, read on the table *)

(** What one guarded assignment of [_prepare_columns] does to the table. *)
Definition add_column (name : string) (compute : DataFrame -> outcome Series)
  (t : DataFrame) : outcome unit * DataFrame :=
  if has_column name t then (Ok tt, t)
  else
    match compute t with
    | Ok v => (Ok tt, setitem t name v)
    | Raise e => (Raise e, t)
    | NonFinite => (NonFinite, t)
    end.

Definition contribution_margin (t : DataFrame) : outcome Series :=
  profit <- getitem t "profit" ;;
  costs <- getitem t "costs" ;;
  series_sub profit costs.

Definition margin_per_hour (t : DataFrame) : outcome Series :=
  cm <- getitem t "contribution_margin" ;;
  hours <- getitem t "processing_time_hr" ;;
  series_div cm hours.

Definition enrich (t : DataFrame) : outcome unit * DataFrame :=
  match add_column "contribution_margin" contribution_margin t with
  | (Ok _, t1) => add_column "margin_per_hour" margin_per_hour t1
  | (o, t1) => (o, t1)
  end.

Definition derived : list string := ["contribution_margin"; "margin_per_hour"].

Definition missing (t : DataFrame) : list string :=
  filter (fun n => negb (has_column n t)) derived.

(** ** Order of the sorted positions *)

Definition ordered {A : Type} (leb : A -> A -> bool) (ascending : bool)
  (a b : nat * A) : Prop :=
  if ascending then leb (snd a) (snd b) = true else leb (snd b) (snd a) = true.

(** ** Sample tables *)

Definition nums (l : list Z) : Series := map (fun z => Num (inject_Z z)) l.

Definition column (df : DataFrame) (name : string) : list Q :=
  match numeric df name with
  | Ok xs => xs
  | _ => []
  end.

Definition clients_table : DataFrame :=
  [ ("customer_id", [Str "A"; Str "B"; Str "A"; Str "A"; Str "B"]);
    ("risk (in percent)", [Num 0; Num 100; Num 0; Num 0; Num 20]);
    ("margin_per_hour", [Num 0; Num 7; Num 1; Num 2; Num 7]) ].

Definition client_A : DataFrame :=
  [ ("customer_id", [Str "A"; Str "A"; Str "A"]);
    ("risk (in percent)", [Num 0; Num 0; Num 0]);
    ("margin_per_hour", [Num 0; Num 1; Num 2]) ].

Definition client_B : DataFrame :=
  [ ("customer_id", [Str "B"; Str "B"]);
    ("risk (in percent)", [Num 100; Num 20]);
    ("margin_per_hour", [Num 7; Num 7]) ].


Definition orders : DataFrame :=
  [ ("customer_id",
     map Str ["A"; "A"; "A"; "B"; "B"; "B"; "C"; "C"; "C"; "A"; "B"; "C"]);
    ("order_id", nums [1; 2; 3; 4; 5; 6; 7; 8; 9; 10; 11; 12]);
    ("processing_time_hr", nums [1; 1; 2; 2; 3; 3; 4; 4; 5; 10; 10; 10]);
    ("costs", nums [10; 10; 10; 10; 10; 10; 10; 10; 10; 10; 10; 10]);
    ("profit", nums [110; 110; 110; 110; 110; 110; 110; 110; 110; 30; 20; 20]);
    ("risk (in percent)", nums [5; 5; 5; 5; 5; 5; 5; 5; 5; 40; 20; 10]) ].

Definition orders_derived : DataFrame :=
  [ ("contribution_margin",
     nums [100; 100; 100; 100; 100; 100; 100; 100; 100; 20; 10; 10]);
    ("margin_per_hour",
     [Num 100; Num 100; Num (100 # 2); Num (100 # 2); Num (100 # 3);
      Num (100 # 3); Num (100 # 4); Num (100 # 4); Num (100 # 5);
      Num (20 # 10); Num (10 # 10); Num (10 # 10)]) ].

Definition orders_enriched : DataFrame := orders ++ orders_derived.

Definition tied_orders : DataFrame :=
  [ ("processing_time_hr", nums [1; 2; 2; 4]);
    ("costs", nums [10; 12; 10; 11]);
    ("profit", nums [20; 30; 50; 40]);
    ("risk (in percent)", nums [20; 30; 50; 40]) ].

Definition tied_enriched : DataFrame :=
  tied_orders ++
  [ ("contribution_margin", nums [10; 18; 40; 29]);
    ("margin_per_hour", [Num 10; Num (18 # 2); Num (40 # 2); Num (29 # 4)]) ].

(** ** The derived columns, row by row *)

(** A whole number small enough for sums and differences of two of them to
    be exact in binary64 and in int64. *)
Definition whole (q : Q) : Prop :=
  exists z : Z, q = inject_Z z /\ Z.abs z <= 2 ^ 52.

Definition differences (ps cs : list Q) : list Q :=
  map (fun pc => fst pc - snd pc)%Q (combine ps cs).

Definition quotients (ms ts : list Q) : list Q :=
  map (fun mt => fst mt / snd mt)%Q (combine ms ts).

(** The cell a division of two finite numbers leaves. *)
Definition quotient_cell (m t : Q) : cell :=
  if Qeq_bool t 0 then
    match Qcompare m 0 with
    | Eq => NaN
    | Gt => Inf false
    | Lt => Inf true
    end
  else Num (m / t).

Definition quotient_cells (ms ts : list Q) : Series :=
  map (fun mt => quotient_cell (fst mt) (snd mt)) (combine ms ts).

Definition stalled_orders : DataFrame :=
  [ ("processing_time_hr", nums [0; 0; 0; 2]);
    ("costs", nums [20; 20; 20; 20]);
    ("profit", nums [100; 20; 5; 30]) ].

Definition unpriced_orders : DataFrame :=
  [ ("processing_time_hr", nums [1; 2]); ("costs", nums [20; 20]) ].

Definition untimed_orders : DataFrame :=
  [ ("costs", nums [20; 20]); ("profit", nums [100; 20]) ].

Definition margin_only_orders : DataFrame :=
  [ ("processing_time_hr", nums [1; 2]);
    ("contribution_margin", nums [80; 30]) ].

Definition hourly_orders : DataFrame :=
  [ ("costs", nums [20; 20]); ("profit", nums [100; 20]);
    ("margin_per_hour", nums [7; 7]) ].

(** ** The report of the bad orders (lines 17 and 228-271)

    [self.bad_orders] is [None] from [__init__] on and the selected table
    once [analyze_orders] has run; the attribute exists all the time, so
    [not hasattr(self, "bad_orders")] is false and [.empty] is read.  What
    [print_bad_orders] writes is kept item by item: fixed text line by
    line, the number of orders, and the table handed to [to_string]. *)

Inductive printed : Type :=
| Text (lines : list string)
| Count (n : nat)
| Rows (t : DataFrame).

Inductive ending : Type :=
| Returned
| AttributeError
| KeyErrorNotInIndex (missing : list string).

(** [df.empty]: one of the two axes has length 0. *)
Definition empty (df : DataFrame) : bool :=
  (length (columns df) =? 0)%nat || (nrows df =? 0)%nat.

(** [df[names]] with a list of labels: every label has to be a column. *)
Definition getitems (df : DataFrame) (names : list string)
  : list string + DataFrame :=
  match filter (fun n => negb (has_column n df)) names with
  | [] =>
      inr (flat_map
             (fun n => match getitem df n with
                       | Ok s => [(n, s)]
                       | _ => []
                       end)
             names)
  | missing => inl missing
  end.

Definition cols : list string :=
  ["customer_id"; "order_id"; "processing_time_hr"; "margin_per_hour";
   "risk (in percent)"].

Definition no_candidates : list string :=
  ["No bad bottleneck candidates identified."].

Definition title : list string :=
  [""; "=== Orders unsuited for bottleneck machines ==="; ""].

Definition heuristic : list string :=
  ["Selection heuristic:";
   "- Processing time in the top 25%";
   "- Margin per hour in the bottom 25%";
   "- Risk above 50%";
   ""].

Definition interpretation : list string :=
  ["Interpretation:";
   "- These orders block scarce capacity for a long time";
   "- They generate little value per hour";
   "- They carry elevated execution or financial risk";
   "→ They should be deprioritized, rerouted, or renegotiated";
   ""].

Definition notes : list string :=
  [""; "Notes:";
   "- This is a heuristic, not an optimizer.";
   "- Thresholds (25%, 50%) are policy choices.";
   "- Some orders may still be strategic or contractual.";
   ""].

(** What is written before the table is cut out; [n] is
    [len(self.bad_orders)]. *)
Definition heading (n : nat) : list printed :=
  [Text title; Text heuristic; Text interpretation; Count n].

Definition print_bad_orders (bad_orders : option DataFrame)
  : list printed * ending :=
  match bad_orders with
  | None => ([], AttributeError)
  | Some b =>
      if empty b then ([Text no_candidates], Returned)
      else
        match getitems b cols with
        | inl missing => (heading (nrows b), KeyErrorNotInIndex missing)
        | inr sub => (heading (nrows b) ++ [Rows sub; Text notes], Returned)
        end
  end.

(** The analyzer with its attribute [bad_orders]: [construct] is
    [Analyzer(df)], [run_analyze_orders] the call [analyze_orders()]. *)
Record Instance : Type := {
  analyzer : Analyzer.t;
  bad_orders : option DataFrame
}.

Definition construct (df : ref) : M Instance :=
  let* a := Analyzer.__init__ df in
  ret {| analyzer := a; bad_orders := None |}.

Definition run_analyze_orders (S : Sorter) (self : Instance) : M Instance :=
  let* b := Analyzer.analyze_orders S (analyzer self) in
  ret {| analyzer := analyzer self; bad_orders := Some b |}.

(** ** main.py (lines 5-24)

    The run of [main] on the table [FileReader.read_ods] returned.  [str] is
    Python's [str()] on a customer id, by which [analyze_client] keys
    [self.client_dict]: an assignment to a key that is there replaces the
    value and keeps the place of the key.  [print_client_risk_and_gain]
    writes one block per item of the dictionary: the key, the figures of the
    record, and the label. *)

Section Main.
Variable str : cell -> string.

Fixpoint dict_set (k : string) (v : ClientDiag) (d : list (string * ClientDiag))
  : list (string * ClientDiag) :=
  match d with
  | [] => [(k, v)]
  | (k', v') :: r =>
      if String.eqb k' k then (k', v) :: r else (k', v') :: dict_set k v r
  end.

(** The assignments of one run of the loop, on the dictionary as it is. *)
Definition assign_all (entries : list (cell * ClientDiag))
  (client_dict : list (string * ClientDiag)) : list (string * ClientDiag) :=
  fold_left (fun d e => dict_set (str (fst e)) (snd e) d) entries client_dict.

Definition client_dict_of (entries : list (cell * ClientDiag))
  : list (string * ClientDiag) :=
  assign_all entries [].

Definition print_client_risk_and_gain (client_dict : list (string * ClientDiag))
  : list (string * ClientDiag * string) :=
  map (fun item => (fst item, snd item, client_label (snd item))) client_dict.

Record Output : Type := {
  characteristics : list ReportLine;
  client_lines : list (string * ClientDiag * string);
  orders_report : list printed * ending
}.

Definition main (S : Sorter) (order_df : ref) : M Output :=
  let* self := construct order_df in
  let* _ := Analyzer.analyze_margin S (analyzer self) in
  let* lines := Analyzer.print_characteristics S (analyzer self) in
  let* entries := Analyzer.analyze_client (analyzer self) in
  let client_dict := client_dict_of entries in
  let* self := run_analyze_orders S self in
  ret {| characteristics := lines;
         client_lines := print_client_risk_and_gain client_dict;
         orders_report := print_bad_orders (bad_orders self) |}.
End Main.

(** ** The two scores on the machine (lines 131-154)

    Whether a raw score is a tie is decided by the rounding of every
    operation before it, so for the rule on a tie the two computations are
    read a second time, on the floating-point numbers of the machine.
    Nothing is assumed of them: [float] is any type and the operations, those
    of the processor as well as those of numpy and pandas, are any functions;
    [view] tells what a number is, a finite one being the rational it stands
    for. *)

Module Binary64.
Inductive number : Type :=
| Finite (q : Q)
| Infinite (negative : bool)
| NotANumber.

Record machine : Type := {
  float : Type;
  view : float -> number;
  of_int : Z -> float;
  fneg : float -> float;
  fadd : float -> float -> float;
  fsub : float -> float -> float;
  fmul : float -> float -> float;
  fdiv : float -> float -> float;
  feqb : float -> float -> bool;
  np_exp : float -> float;
  series_mean : list Q -> float;
  series_var : list Q -> float;
  np_percentile : list Q -> Z -> float
}.

Section Scores.
Variable m : machine.

(** [round(score)]: the nearest integer, a tie going to the even neighbour;
    it raises on a score that is not finite. *)
Definition round (score : float m) : outcome Z :=
  match view m score with
  | Finite q => Ok (rint q)
  | _ => NonFinite
  end.

(** [int(np.clip(np.round(x), 1, 10))]: [np.round] and [np.clip] keep an
    infinity, which is clipped to the bound on its side, and a NaN, on which
    [int] raises. *)
Definition int_clip_round (x : float m) : outcome Z :=
  match view m x with
  | Finite q => Ok (int (np_clip (np_round q) 1 10))
  | Infinite false => Ok 10
  | Infinite true => Ok 1
  | NotANumber => NonFinite
  end.

(** Line 135: [1 + 9 * (1 - np.exp(-expected_risk / 20))]. *)
Definition risk_score (expected_risk : float m) : float m :=
  fadd m (of_int m 1)
    (fmul m (of_int m 9)
       (fsub m (of_int m 1)
          (np_exp m (fdiv m (fneg m expected_risk) (of_int m 20))))).

(** Lines 153-154: [scaled * 9 + 1] with
    [scaled = (avg_mph - p10) / (p90 - p10)]. *)
Definition gain_score (avg_mph p10 p90 : float m) : float m :=
  let scaled := fdiv m (fsub m avg_mph p10) (fsub m p90 p10) in
  fadd m (fmul m scaled (of_int m 9)) (of_int m 1).

Definition _calculate_risk (client_df : DataFrame)
  : outcome (RISK.t * float m) :=
  xs <- numeric client_df "risk (in percent)" ;;
  let expected_risk := series_mean m xs in
  let variance := series_var m xs in
  let score := risk_score expected_risk in
  n <- round score ;;
  let risk_score := np_clip_int n 1 10 in
  r <- RISK.new risk_score ;;
  Ok (r, variance).

Definition _calculate_gain (client_df : DataFrame) : outcome GAIN.t :=
  xs <- numeric client_df "margin_per_hour" ;;
  let avg_mph := series_mean m xs in
  let p10 := np_percentile m xs 10 in
  let p90 := np_percentile m xs 90 in
  gain_score <-
    (if feqb m p90 p10 then Ok 5
     else int_clip_round (gain_score avg_mph p10 p90)) ;;
  GAIN.new gain_score.
End Scores.

(** A machine for the examples: it computes exactly on rationals, and its
    exponential is the rational function [1 / (1 - x)]. *)
Definition exact : machine :=
  {| float := Q;
     view := Finite;
     of_int := inject_Z;
     fneg := fun x : Q => Qred (- x)%Q;
     fadd := fun x y : Q => Qred (x + y)%Q;
     fsub := fun x y : Q => Qred (x - y)%Q;
     fmul := fun x y : Q => Qred (x * y)%Q;
     fdiv := fun x y : Q => Qred (x / y)%Q;
     feqb := Qeq_bool;
     np_exp := fun x : Q => Qred (1 / (1 - x))%Q;
     series_mean := fun xs => Qred (Qsum xs / Qlen xs)%Q;
     series_var := fun xs =>
       Qred (Qsum (map (fun x => (x - Qsum xs / Qlen xs)
                                 * (x - Qsum xs / Qlen xs))%Q xs)
             / Qlen xs)%Q;
     np_percentile := fun xs p =>
       match percentile xs (inject_Z p) with
       | Some v => Qred v
       | None => 0%Q
       end |}.
End Binary64.

Definition tied_scores : DataFrame :=
  [ ("risk (in percent)", [Num 20; Num 20]);
    ("margin_per_hour", [Num 0; Num 1]) ].

(** * Properties *)

(** ** Value objects *)

Lemma RISK_new_spec (v : Z) :
  RISK.new v =
  if (1 <=? v) && (v <=? 10) then Ok (RISK.mk v)
  else Raise (ValueError RISK.msg).
Proof.
  unfold RISK.new, RISK.__post_init__; simpl.
  destruct ((1 <=? v) && (v <=? 10)); reflexivity.
Qed.

Lemma GAIN_new_spec (v : Z) :
  GAIN.new v =
  if (1 <=? v) && (v <=? 10) then Ok (GAIN.mk v)
  else Raise (ValueError GAIN.msg).
Proof.
  unfold GAIN.new, GAIN.__post_init__; simpl.
  destruct ((1 <=? v) && (v <=? 10)); reflexivity.
Qed.

Lemma in_range_iff (v : Z) : (1 <=? v) && (v <=? 10) = true <-> 1 <= v <= 10.
Proof. rewrite andb_true_iff, !Z.leb_le; tauto. Qed.

(** C6: constructing RISK or GAIN with an integer of [1,10] succeeds, with
    an integer outside it raises the ValueError of the class, and every
    instance a construction returns has its value in [1,10]. *)
Theorem value_objects_validated (v : Z) :
  (1 <= v <= 10 -> RISK.new v = Ok (RISK.mk v) /\ GAIN.new v = Ok (GAIN.mk v)) /\
  (~ 1 <= v <= 10 ->
   RISK.new v = Raise (ValueError RISK.msg) /\
   GAIN.new v = Raise (ValueError GAIN.msg)) /\
  (forall r, RISK.new v = Ok r -> 1 <= RISK.value r <= 10) /\
  (forall g, GAIN.new v = Ok g -> 1 <= GAIN.value g <= 10).
Proof.
  rewrite RISK_new_spec, GAIN_new_spec.
  destruct ((1 <=? v) && (v <=? 10)) eqn:E.
  - apply in_range_iff in E.
    split; [auto | split; [tauto | split]].
    + intros r H; injection H as <-; exact E.
    + intros g H; injection H as <-; exact E.
  - assert (~ 1 <= v <= 10) by (rewrite <- in_range_iff, E; discriminate).
    split; [tauto | split; [auto | split; intros; discriminate]].
Qed.

Lemma value_objects_validated_witness :
  (RISK.new 7 = Ok (RISK.mk 7) /\ GAIN.new 7 = Ok (GAIN.mk 7)) /\
  (RISK.new 11 = Raise (ValueError RISK.msg) /\
   GAIN.new 11 = Raise (ValueError GAIN.msg)) /\
  (RISK.new 0 = Raise (ValueError RISK.msg) /\
   GAIN.new 0 = Raise (ValueError GAIN.msg)).
Proof.
  split; [| split].
  - apply (value_objects_validated 7); lia.
  - apply (value_objects_validated 11); lia.
  - apply (value_objects_validated 0); lia.
Defined.

(** ** Classification *)

Lemma first_match_functional rs a b :
  first_match rs a -> first_match rs b -> a = b.
Proof.
  induction 1 as [P l rs HP | P l0 l rs HP _ IH]; intros Hb;
    inversion Hb; subst; try reflexivity; try contradiction.
  apply IH; assumption.
Qed.

Lemma Zgeb_ge (a b : Z) : (a >=? b) = true <-> a >= b.
Proof. rewrite Z.geb_le; lia. Qed.

Lemma Zgeb_lt (a b : Z) : (a >=? b) = false <-> a < b.
Proof. rewrite Z.geb_leb, Z.leb_gt; lia. Qed.

Lemma Qle_bool_false (x y : Q) : Qle_bool x y = false <-> (y < x)%Q.
Proof.
  split.
  - intros H. apply Qnot_le_lt. intros L. apply Qle_bool_iff in L. congruence.
  - intros H. destruct (Qle_bool x y) eqn:E; [| reflexivity].
    apply Qle_bool_iff in E. exfalso. eapply Qlt_not_le; eassumption.
Qed.

(** C3: for every triple of gain, risk and variance the classification
    yields the label of the first of the five rules that holds, that label
    is the only one the rules determine, and it is one of the five. *)
Theorem classify_first_rule (gain risk : Z) (variance : Q) :
  first_match (rules gain risk variance) (classify gain risk variance) /\
  (forall label, first_match (rules gain risk variance) label ->
                 label = classify gain risk variance) /\
  In (classify gain risk variance) labels.
Proof.
  assert (H : first_match (rules gain risk variance) (classify gain risk variance)).
  { unfold classify, rules, Qge_bool.
    destruct (gain >=? 6) eqn:G6;
      destruct (risk >=? 6) eqn:R6;
      destruct (Qle_bool 60 variance) eqn:V60;
      destruct (gain <=? 4) eqn:G4;
      destruct (risk <=? 4) eqn:R4;
      destruct (Qle_bool variance 40) eqn:V40; simpl;
      rewrite ?Zgeb_ge, ?Zgeb_lt, ?Z.leb_le, ?Z.leb_gt, ?Qle_bool_iff,
        ?Qle_bool_false in *;
      repeat first
        [ apply match_here; first [ exact I | lia | tauto ]
        | apply match_later;
          [ intros F;
            repeat match goal with
                   | H : _ /\ _ |- _ => destruct H
                   | H : _ \/ _ |- _ => destruct H
                   end;
            try lia;
            try match goal with
                | H1 : (?a < ?b)%Q, H2 : (?b <= ?a)%Q |- _ =>
                    exact (Qlt_not_le _ _ H1 H2)
                end | ] ]. }
  split; [exact H | split].
  - intros label Hl. eapply first_match_functional; eassumption.
  - unfold classify, labels.
    repeat match goal with |- context [if ?b then _ else _] => destruct b end;
      simpl; auto 6.
Qed.

(** ** Rounding and clipping *)

Lemma np_clip_int_clamp (n : Z) : np_clip_int n 1 10 = clamp n 1 10.
Proof.
  unfold np_clip_int, clamp.
  destruct (n <? 1) eqn:E1; destruct (10 <? n) eqn:E2;
    rewrite ?Z.ltb_lt, ?Z.ltb_ge in *; lia.
Qed.

Lemma clamp_range (n : Z) : 1 <= clamp n 1 10 <= 10.
Proof.
  unfold clamp.
  destruct (n <? 1) eqn:E1; destruct (10 <? n) eqn:E2;
    rewrite ?Z.ltb_lt, ?Z.ltb_ge in *; lia.
Qed.

Lemma py_round_nearest (x : R) : nearest_integer x (py_round x).
Proof.
  unfold nearest_integer, py_round.
  destruct (base_Int_part x) as [Hlo Hhi].
  set (f := Int_part x) in *.
  destruct (Rlt_dec (x - IZR f) (1 / 2)) as [L | L].
  - apply Rabs_le; lra.
  - assert (Hup : (Rabs (IZR (f + 1) - x) <= 1 / 2)%R)
      by (rewrite plus_IZR; apply Rabs_le; simpl; lra).
    destruct (Rlt_dec (1 / 2) (x - IZR f)) as [G | G]; [exact Hup |].
    destruct (Z.even f); [apply Rabs_le; lra | exact Hup].
Qed.

Lemma Int_part_half (k : Z) : Int_part (IZR k + 1 / 2) = k.
Proof. symmetry; apply Int_part_spec; lra. Qed.

Lemma py_round_tie (k : Z) : py_round (IZR k + 1 / 2) = even_neighbour k.
Proof.
  unfold py_round, even_neighbour. rewrite Int_part_half.
  destruct (Rlt_dec (IZR k + 1 / 2 - IZR k) (1 / 2)) as [L | L]; [lra |].
  destruct (Rlt_dec (1 / 2) (IZR k + 1 / 2 - IZR k)) as [G | G]; [lra |].
  reflexivity.
Qed.

Ltac push_inject :=
  rewrite ?inject_Z_plus in *; change (inject_Z 1) with 1%Q in *.

Lemma Qfloor_unique (x : Q) (z : Z) :
  (inject_Z z <= x)%Q -> (x < inject_Z z + 1)%Q -> Qfloor x = z.
Proof.
  intros Hlo Hhi.
  pose proof (Qfloor_le x) as F1. pose proof (Qlt_floor x) as F2.
  assert (A : (inject_Z z < inject_Z (Qfloor x + 1))%Q) by (push_inject; lra).
  assert (B : (inject_Z (Qfloor x) < inject_Z (z + 1))%Q) by (push_inject; lra).
  rewrite <- Zlt_Qlt in A, B. lia.
Qed.


Lemma rint_tie (x : Q) (k : Z) :
  (x == inject_Z k + (1 # 2))%Q -> rint x = even_neighbour k.
Proof.
  intros E. unfold rint, even_neighbour.
  assert (F : Qfloor x = k) by (apply Qfloor_unique; lra).
  rewrite F.
  assert (C : Qcompare (x - inject_Z k) (1 # 2) = Eq) by (apply Qeq_alt; lra).
  rewrite C. reflexivity.
Qed.

Lemma int_inject_Z (n : Z) : int (inject_Z n) = n.
Proof.
  unfold int. destruct (Qle_bool 0 (inject_Z n));
    [apply Qfloor_Z | apply Qceiling_Z].
Qed.

Lemma Qcompare_inject_Z (n m : Z) :
  Qcompare (inject_Z n) (inject_Z m) = (n ?= m).
Proof. unfold Qcompare; simpl. rewrite !Z.mul_1_r. reflexivity. Qed.

Lemma clip_round_clamp (y : Q) :
  int (np_clip (np_round y) 1 10) = clamp (rint y) 1 10.
Proof.
  unfold np_clip, np_round, clamp, Qmin, Qmax, GenericMinMax.gmin,
    GenericMinMax.gmax.
  generalize (rint y); intros n.
  change 1%Q with (inject_Z 1). change 10%Q with (inject_Z 10).
  rewrite (Qcompare_inject_Z n 1).
  destruct (Z.compare_spec n 1) as [E | L | G];
    rewrite Qcompare_inject_Z.
  - subst n. simpl. apply int_inject_Z.
  - simpl. rewrite int_inject_Z.
    destruct (n <? 1) eqn:E1; [reflexivity | apply Z.ltb_ge in E1; lia].
  - destruct (n <? 1) eqn:E1; [apply Z.ltb_lt in E1; lia |].
    destruct (Z.compare_spec n 10) as [E | L | G'];
      rewrite int_inject_Z;
      destruct (10 <? n) eqn:E2;
      rewrite ?Z.ltb_lt, ?Z.ltb_ge in E2; lia.
Qed.

Lemma gain_score_of_clamp (scaled : Q) :
  gain_score_of scaled = clamp (rint (scaled * 9 + 1)) 1 10.
Proof. apply clip_round_clamp. Qed.

Lemma risk_score_of_clamp (score : R) :
  risk_score_of score = clamp (py_round score) 1 10.
Proof. apply np_clip_int_clamp. Qed.

(** ** Columns, selections and groups *)

Lemma finite_map_Num (xs : list Q) : finite (map Num xs) = Ok xs.
Proof. induction xs as [| x xs IH]; simpl; [| rewrite IH]; reflexivity. Qed.

Lemma finite_Ok (s : Series) (xs : list Q) :
  finite s = Ok xs -> s = map Num xs.
Proof.
  revert xs; induction s as [| c s IH]; intros xs H; simpl in H.
  - injection H as <-; reflexivity.
  - destruct c; try discriminate.
    destruct (finite s) as [ys | |]; simpl in H; try discriminate.
    injection H as <-. simpl. f_equal. apply IH; reflexivity.
Qed.

Lemma select_map {A B : Type} (f : A -> B) (idxs : list nat) (l : list A) :
  select idxs (map f l) = map f (select idxs l).
Proof.
  unfold select. induction idxs as [| i idxs IH]; simpl; [reflexivity |].
  rewrite map_app, IH, nth_error_map.
  destruct (nth_error l i); reflexivity.
Qed.

Lemma getitem_take (idxs : list nat) (df : DataFrame) (name : string) :
  getitem (take idxs df) name = (s <- getitem df name ;; Ok (select idxs s)).
Proof.
  induction df as [| [c s] df IH]; simpl; [reflexivity |].
  destruct (String.eqb c name); [reflexivity | exact IH].
Qed.

Lemma numeric_take (idxs : list nat) (df : DataFrame) (name : string) xs :
  numeric df name = Ok xs ->
  numeric (take idxs df) name = Ok (select idxs xs).
Proof.
  unfold numeric. rewrite getitem_take.
  destruct (getitem df name) as [s | |]; simpl; try discriminate.
  intros H. apply finite_Ok in H. subst s.
  rewrite select_map. apply finite_map_Num.
Qed.

Lemma getitem_In (df : DataFrame) (name : string) (s : Series) :
  getitem df name = Ok s -> In (name, s) df.
Proof.
  induction df as [| [c t] df IH]; simpl; [discriminate |].
  destruct (String.eqb c name) eqn:E.
  - apply String.eqb_eq in E. intros H; injection H as <-. subst; auto.
  - auto.
Qed.

Lemma wf_length (df : DataFrame) (name : string) (s : Series) :
  wf df -> getitem df name = Ok s -> length s = nrows df.
Proof.
  intros [_ H] G. apply getitem_In in G.
  rewrite Forall_forall in H. exact (H _ G).
Qed.

Lemma numeric_length (df : DataFrame) (name : string) (xs : list Q) :
  wf df -> numeric df name = Ok xs -> length xs = nrows df.
Proof.
  unfold numeric. intros W H.
  destruct (getitem df name) as [s | |] eqn:G; simpl in H; try discriminate.
  apply finite_Ok in H. rewrite <- (wf_length df name s W G). subst s.
  symmetry; apply length_map.
Qed.

Lemma nonzero_from_In (mask : list bool) (k i : nat) :
  In i (nonzero_from k mask) <->
  (k <= i)%nat /\ nth_error mask (i - k) = Some true.
Proof.
  revert k; induction mask as [| b mask IH]; intros k; simpl.
  - split; [tauto | intros [_ H]]. destruct (i - k)%nat; discriminate.
  - rewrite in_app_iff, IH. split.
    + intros [H | [H1 H2]].
      * destruct b; simpl in H; [| tauto]. destruct H as [<- | []].
        rewrite Nat.sub_diag. auto.
      * split; [lia |]. replace (i - k)%nat with (S (i - S k)) by lia. exact H2.
    + intros [H1 H2]. destruct (i - k)%nat as [| d] eqn:D.
      * left. simpl in H2. injection H2 as ->. left. lia.
      * right. split; [lia |]. replace (i - S k)%nat with d by lia. exact H2.
Qed.

Lemma nonzero_In (mask : list bool) (i : nat) :
  In i (nonzero mask) <-> nth_error mask i = Some true.
Proof.
  unfold nonzero. rewrite nonzero_from_In, Nat.sub_0_r.
  split; [tauto | split; [lia | assumption]].
Qed.

Lemma nonzero_from_NoDup (mask : list bool) (k : nat) :
  NoDup (nonzero_from k mask).
Proof.
  revert k; induction mask as [| b mask IH]; intros k; simpl; [constructor |].
  destruct b; simpl; [| apply IH].
  constructor; [| apply IH].
  rewrite nonzero_from_In. lia.
Qed.

Lemma select_nonempty {A : Type} (idxs : list nat) (l : list A) (i : nat) :
  In i idxs -> (i < length l)%nat -> select idxs l <> [].
Proof.
  unfold select. induction idxs as [| j idxs IH]; simpl; [tauto |].
  intros [-> | H] L.
  - destruct (nth_error l i) eqn:E; [discriminate |].
    apply nth_error_None in E. lia.
  - intros F. apply app_eq_nil in F. destruct F as [_ F]. exact (IH H L F).
Qed.

Lemma unique_In (l : list cell) (k : cell) : In k (unique l) -> In k l.
Proof.
  induction l as [| x l IH]; simpl; [tauto |].
  intros [H | H]; [auto |]. apply filter_In in H. right. apply IH, H.
Qed.

Lemma cell_eqb_refl (k : cell) : notna k = true -> cell_eqb k k = true.
Proof.
  destruct k; simpl; try discriminate; intros _.
  - apply Qeq_bool_refl.
  - apply Bool.eqb_reflx.
  - apply String.eqb_refl.
Qed.

(** A group of [groupby] is the selection of the rows of its key; it holds
    at least one row, and its numeric columns are the selections of the
    numeric columns of the table. *)
Lemma groupby_group (df : DataFrame) (by_ name : string) groups k cdf all :
  wf df ->
  groupby df by_ = Ok groups ->
  In (k, cdf) groups ->
  numeric df name = Ok all ->
  exists keys xs,
    getitem df by_ = Ok keys /\
    cdf = take (rows_of k keys) df /\
    xs = select (rows_of k keys) all /\
    numeric cdf name = Ok xs /\ xs <> [].
Proof.
  unfold groupby. intros W G I N.
  destruct (getitem df by_) as [keys | |] eqn:K; simpl in G; try discriminate.
  injection G as <-. apply in_map_iff in I.
  destruct I as [k' [E I]]. injection E as -> <-.
  exists keys, (select (rows_of k keys) all).
  repeat split; [apply numeric_take; exact N |].
  apply unique_In, filter_In in I. destruct I as [I NA].
  destruct (In_nth_error _ _ I) as [i Hi].
  apply (select_nonempty _ _ i).
  - apply nonzero_In. rewrite nth_error_map, Hi. simpl.
    rewrite cell_eqb_refl by exact NA. reflexivity.
  - rewrite (numeric_length df name all W N), <- (wf_length df by_ keys W K).
    apply nth_error_Some. congruence.
Qed.

(** ** Risk score *)

Lemma py_round_between (x : R) (n : Z) :
  (IZR n - 1 / 2 < x < IZR n + 1 / 2)%R -> py_round x = n.
Proof.
  intros [Hlo Hhi]. unfold py_round.
  destruct (Rle_dec (IZR n) x) as [L | L].
  - assert (F : Int_part x = n) by (symmetry; apply Int_part_spec; lra).
    rewrite F. destruct (Rlt_dec (x - IZR n) (1 / 2)); [reflexivity | lra].
  - assert (F : Int_part x = n - 1).
    { symmetry; apply Int_part_spec. rewrite minus_IZR. lra. }
    rewrite F, minus_IZR.
    destruct (Rlt_dec (x - (IZR n - 1)) (1 / 2)); [lra |].
    destruct (Rlt_dec (1 / 2) (x - (IZR n - 1))); [lia | lra].
Qed.

Lemma calculate_risk_eq (client_df : DataFrame) (xs : list Q) :
  numeric client_df "risk (in percent)" = Ok xs -> xs <> [] ->
  exists variance,
    var0 xs = Some variance /\
    _calculate_risk client_df =
    Ok (RISK.mk (clamp (py_round (risk_curve (Q2R (Qsum xs / Qlen xs)))) 1 10),
        variance).
Proof.
  intros N NE. unfold _calculate_risk. rewrite N. simpl.
  destruct xs as [| x xs]; [contradiction |].
  unfold var0. cbv beta iota delta [mean].
  eexists; split; [reflexivity |].
  rewrite RISK_new_spec, risk_score_of_clamp.
  fold (risk_curve (Q2R (Qsum (x :: xs) / Qlen (x :: xs)))).
  rewrite (proj2 (in_range_iff _) (clamp_range _)).
  reflexivity.
Qed.


Lemma risk_curve_0 : risk_curve 0 = 1%R.
Proof.
  unfold risk_curve. replace (Ropp 0 / 20)%R with 0%R by lra.
  rewrite exp_0. lra.
Qed.




Lemma clients_table_wf : wf clients_table.
Proof.
  split.
  - repeat constructor; simpl; intuition discriminate.
  - repeat constructor.
Qed.

Lemma clients_table_groups :
  groupby clients_table "customer_id" = Ok [(Str "A", client_A); (Str "B", client_B)].
Proof. reflexivity. Qed.


(** ** Gain score *)

Lemma insert_length (x : Q) (l : list Q) : length (insert x l) = S (length l).
Proof.
  induction l as [| y l IH]; simpl; [reflexivity |].
  destruct (Qle_bool x y); simpl; [| rewrite IH]; reflexivity.
Qed.

Lemma sorted_values_length (xs : list Q) :
  length (sorted_values xs) = length xs.
Proof.
  induction xs as [| x xs IH]; simpl; [reflexivity |].
  rewrite insert_length, IH. reflexivity.
Qed.

Lemma quantile_defined (xs : list Q) (q : Q) :
  xs <> [] -> exists v, quantile xs q = Some v.
Proof.
  intros NE. unfold quantile.
  destruct (sorted_values xs) as [| a0 s] eqn:E.
  - exfalso. apply NE, length_zero_iff_nil.
    rewrite <- sorted_values_length, E. reflexivity.
  - eexists; reflexivity.
Qed.

Lemma insert_Forall (P : Q -> Prop) (x : Q) (l : list Q) :
  P x -> Forall P l -> Forall P (insert x l).
Proof.
  intros Px. induction 1 as [| y l Py F IH]; simpl.
  - repeat constructor. exact Px.
  - destruct (Qle_bool x y); repeat (constructor; try assumption).
Qed.

Lemma sorted_values_Forall (P : Q -> Prop) (xs : list Q) :
  Forall P xs -> Forall P (sorted_values xs).
Proof.
  induction 1 as [| x xs Px F IH]; simpl; [constructor |].
  apply insert_Forall; assumption.
Qed.

Lemma Forall_nth_default {A : Type} (P : A -> Prop) (l : list A) (d : A)
  (n : nat) :
  Forall P l -> P d -> P (nth n l d).
Proof.
  intros F Pd. revert n. induction F as [| x l Px F IH]; intros [| n]; simpl;
    auto.
Qed.


Lemma calculate_gain_eq (client_df : DataFrame) (xs : list Q) :
  numeric client_df "margin_per_hour" = Ok xs -> xs <> [] ->
  exists p10 p90,
    percentile xs 10 = Some p10 /\ percentile xs 90 = Some p90 /\
    _calculate_gain client_df =
    Ok (GAIN.mk (if Qeq_bool p90 p10 then 5
                 else clamp (rint (raw_gain (Qsum xs / Qlen xs) p10 p90)) 1 10)).
Proof.
  intros N NE. unfold _calculate_gain. rewrite N. simpl.
  unfold percentile.
  destruct (quantile_defined xs (10 / 100) NE) as [p10 ->].
  destruct (quantile_defined xs (90 / 100) NE) as [p90 ->].
  destruct xs as [| x xs]; [contradiction |].
  cbv beta iota delta [mean].
  exists p10, p90. split; [reflexivity | split; [reflexivity |]].
  rewrite GAIN_new_spec.
  destruct (Qeq_bool p90 p10); [reflexivity |].
  rewrite gain_score_of_clamp. fold (raw_gain (Qsum (x :: xs) / Qlen (x :: xs)) p10 p90).
  rewrite (proj2 (in_range_iff _) (clamp_range _)). reflexivity.
Qed.



(** ** The validation never fires *)

Lemma getitem_Raise (df : DataFrame) (name : string) (e : exn) :
  getitem df name = Raise e -> e = KeyError name.
Proof.
  induction df as [| [c s] df IH]; simpl.
  - intros H; injection H as <-; reflexivity.
  - destruct (String.eqb c name); [discriminate | exact IH].
Qed.

Lemma finite_Raise (s : Series) (e : exn) : finite s = Raise e -> e = TypeError.
Proof.
  induction s as [| c s IH]; simpl; [discriminate |].
  destruct c; try discriminate.
  - destruct (finite s) as [ys | e' |]; simpl; try discriminate.
    intros H; injection H as <-. apply IH; reflexivity.
  - intros H; injection H as <-; reflexivity.
Qed.

Lemma numeric_Raise (df : DataFrame) (name : string) (e : exn) :
  numeric df name = Raise e -> e = KeyError name \/ e = TypeError.
Proof.
  unfold numeric. destruct (getitem df name) as [s | e' |] eqn:G; simpl.
  - intros H. right. eapply finite_Raise; eassumption.
  - intros H; injection H as <-. left. eapply getitem_Raise; eassumption.
  - discriminate.
Qed.

Lemma calculate_risk_no_ValueError (client_df : DataFrame) (m : string) :
  _calculate_risk client_df <> Raise (ValueError m).
Proof.
  unfold _calculate_risk.
  destruct (numeric client_df "risk (in percent)") as [xs | e |] eqn:N; simpl.
  - destruct (mean xs); [| discriminate].
    destruct (var0 xs); [| discriminate].
    rewrite RISK_new_spec, risk_score_of_clamp,
      (proj2 (in_range_iff _) (clamp_range _)).
    discriminate.
  - intros H; injection H as ->.
    destruct (numeric_Raise _ _ _ N); discriminate.
  - discriminate.
Qed.

Lemma calculate_gain_no_ValueError (client_df : DataFrame) (m : string) :
  _calculate_gain client_df <> Raise (ValueError m).
Proof.
  unfold _calculate_gain.
  destruct (numeric client_df "margin_per_hour") as [xs | e |] eqn:N; simpl.
  - destruct (mean xs); [| discriminate].
    destruct (percentile xs 10); [| discriminate].
    destruct (percentile xs 90); [| discriminate].
    rewrite GAIN_new_spec.
    destruct (Qeq_bool q1 q0); [discriminate |].
    rewrite gain_score_of_clamp, (proj2 (in_range_iff _) (clamp_range _)).
    discriminate.
  - intros H; injection H as ->.
    destruct (numeric_Raise _ _ _ N); discriminate.
  - discriminate.
Qed.

(** C7: no table makes the risk or the gain computation raise the
    ValueError of the RISK or GAIN construction; and for every client group
    of a table whose risk and margin columns are numeric both computations
    return their score, a value of [1,10]. *)
Theorem validation_unreachable :
  (forall client_df,
      _calculate_risk client_df <> Raise (ValueError RISK.msg) /\
      _calculate_gain client_df <> Raise (ValueError GAIN.msg)) /\
  (forall order_df groups client_id client_df risks margins,
      wf order_df ->
      groupby order_df "customer_id" = Ok groups ->
      In (client_id, client_df) groups ->
      numeric order_df "risk (in percent)" = Ok risks ->
      numeric order_df "margin_per_hour" = Ok margins ->
      exists r variance g,
        _calculate_risk client_df = Ok (r, variance) /\
        _calculate_gain client_df = Ok g /\
        1 <= RISK.value r <= 10 /\ 1 <= GAIN.value g <= 10).
Proof.
  split.
  - intros client_df. split;
      [apply calculate_risk_no_ValueError | apply calculate_gain_no_ValueError].
  - intros order_df groups client_id client_df risks margins W G I NR NM.
    destruct (groupby_group _ _ _ _ _ _ _ W G I NR)
      as [_ [xs [_ [_ [_ [Nx NEx]]]]]].
    destruct (groupby_group _ _ _ _ _ _ _ W G I NM)
      as [_ [ys [_ [_ [_ [Ny NEy]]]]]].
    destruct (calculate_risk_eq _ _ Nx NEx) as [variance [_ ER]].
    destruct (calculate_gain_eq _ _ Ny NEy) as [p10 [p90 [_ [_ EG]]]].
    eexists _, variance, _. split; [exact ER | split; [exact EG |]].
    simpl. split; [apply clamp_range |].
    destruct (Qeq_bool p90 p10); [lia | apply clamp_range].
Qed.

Lemma validation_unreachable_witness :
  exists r variance g,
    _calculate_risk client_B = Ok (r, variance) /\
    _calculate_gain client_B = Ok g /\
    1 <= RISK.value r <= 10 /\ 1 <= GAIN.value g <= 10.
Proof.
  apply (proj2 validation_unreachable clients_table _ (Str "B") client_B
           [0; 100; 0; 0; 20]%Q [0; 7; 1; 2; 7]%Q
           clients_table_wf clients_table_groups).
  - simpl; right; left; reflexivity.
  - reflexivity.
  - reflexivity.
Defined.

(** ** The rule on a tie *)

(** C10: both score computations round a tie to the even neighbour before
    clamping, on every machine.  When the raw risk score the machine has
    computed for a client is k + 1/2, [_calculate_risk] returns the clamp of
    the even one of k and k + 1, and when the raw gain score is k + 1/2,
    [_calculate_gain] does; 5.5 gives 6 and 4.5 gives 4. *)
Theorem ties_round_to_even (m : Binary64.machine) (client_df : DataFrame)
        (xs : list Q) (k : Z) (s : Q) :
  (s == inject_Z k + (1 # 2))%Q ->
  (numeric client_df "risk (in percent)" = Ok xs ->
   Binary64.view m (Binary64.risk_score m (Binary64.series_mean m xs))
   = Binary64.Finite s ->
   Binary64._calculate_risk m client_df
   = Ok (RISK.mk (clamp (even_neighbour k) 1 10), Binary64.series_var m xs)) /\
  (numeric client_df "margin_per_hour" = Ok xs ->
   Binary64.feqb m (Binary64.np_percentile m xs 90)
     (Binary64.np_percentile m xs 10) = false ->
   Binary64.view m
     (Binary64.gain_score m (Binary64.series_mean m xs)
        (Binary64.np_percentile m xs 10) (Binary64.np_percentile m xs 90))
   = Binary64.Finite s ->
   Binary64._calculate_gain m client_df
   = Ok (GAIN.mk (clamp (even_neighbour k) 1 10))) /\
  (k = 5 -> clamp (even_neighbour k) 1 10 = 6) /\
  (k = 4 -> clamp (even_neighbour k) 1 10 = 4).
Proof.
  intros E. split; [| split; [| split]].
  - intros N V. unfold Binary64._calculate_risk. rewrite N. simpl bind.
    unfold Binary64.round. rewrite V. simpl bind.
    rewrite (rint_tie s k E), np_clip_int_clamp, RISK_new_spec.
    rewrite (proj2 (in_range_iff _) (clamp_range _)). reflexivity.
  - intros N F V. unfold Binary64._calculate_gain. rewrite N. simpl bind.
    rewrite F. unfold Binary64.int_clip_round. rewrite V. simpl bind.
    rewrite clip_round_clamp, (rint_tie s k E), GAIN_new_spec.
    rewrite (proj2 (in_range_iff _) (clamp_range _)). reflexivity.
  - intros ->. reflexivity.
  - intros ->. reflexivity.
Qed.

Lemma ties_round_to_even_witness :
  Binary64._calculate_risk Binary64.exact tied_scores = Ok (RISK.mk 6, 0%Q) /\
  Binary64._calculate_gain Binary64.exact tied_scores = Ok (GAIN.mk 6).
Proof.
  split.
  - apply (proj1 (ties_round_to_even Binary64.exact tied_scores
                    [20; 20]%Q 5 (11 # 2) ltac:(reflexivity)));
      reflexivity.
  - apply (proj1 (proj2 (ties_round_to_even Binary64.exact tied_scores
                           [0; 1]%Q 5 (11 # 2) ltac:(reflexivity))));
      reflexivity.
Defined.

(** ** Enrichment of the table *)

Lemma nth_replace (r : ref) (v : DataFrame) (h : heap) :
  (r < length h)%nat -> nth r (replace r v h) [] = v.
Proof.
  revert r; induction h as [| x h IH]; intros [| r] L; simpl in *;
    try lia; [reflexivity | apply IH; lia].
Qed.

Lemma replace_beyond (r : ref) (v : DataFrame) (h : heap) :
  (length h <= r)%nat -> replace r v h = h.
Proof.
  revert r; induction h as [| x h IH]; intros [| r] L; simpl in *;
    try lia; try reflexivity. f_equal. apply IH; lia.
Qed.

Lemma replace_nth (r : ref) (h : heap) : replace r (nth r h []) h = h.
Proof.
  revert r; induction h as [| x h IH]; intros [| r]; simpl; try reflexivity.
  f_equal. apply IH.
Qed.

Lemma replace_replace (r : ref) (u v : DataFrame) (h : heap) :
  replace r v (replace r u h) = replace r v h.
Proof.
  revert r; induction h as [| x h IH]; intros [| r]; simpl; try reflexivity.
  f_equal. apply IH.
Qed.

Lemma replace_last (h : heap) (u v : DataFrame) :
  replace (length h) v (h ++ [u])%list = (h ++ [v])%list.
Proof. induction h as [| x h IH]; simpl; [| rewrite IH]; reflexivity. Qed.

Lemma enrich_empty : enrich [] = (Raise (KeyError "profit"), []).
Proof. reflexivity. Qed.

(** [_prepare_columns] acts on the one object [self.order_df] names, and
    acts on it as [enrich] says. *)
Lemma prepare_columns_enrich (self : Analyzer.t) (h : heap) :
  Analyzer._prepare_columns self h =
  (fst (enrich (nth (Analyzer.order_df self) h [])),
   replace (Analyzer.order_df self)
     (snd (enrich (nth (Analyzer.order_df self) h []))) h).
Proof.
  destruct self as [r]. simpl.
  destruct (Nat.lt_ge_cases r (length h)) as [L | L].
  - cbv [Analyzer._prepare_columns enrich add_column contribution_margin
           margin_per_hour df_has_column df_getitem df_setitem mbind deref
           assign lift ret bind Analyzer.order_df].
    destruct (has_column "contribution_margin" (nth r h [])) eqn:C; simpl.
    + destruct (has_column "margin_per_hour" (nth r h [])) eqn:P; simpl.
      * rewrite replace_nth. reflexivity.
      * destruct (getitem (nth r h []) "contribution_margin") as [cm | |];
          simpl; try (rewrite replace_nth; reflexivity).
        destruct (getitem (nth r h []) "processing_time_hr") as [hr | |];
          simpl; try (rewrite replace_nth; reflexivity).
        destruct (series_div cm hr); simpl;
          try (rewrite replace_nth; reflexivity).
        reflexivity.
    + destruct (getitem (nth r h []) "profit") as [p | |]; simpl;
        try (rewrite replace_nth; reflexivity).
      destruct (getitem (nth r h []) "costs") as [c | |]; simpl;
        try (rewrite replace_nth; reflexivity).
      destruct (series_sub p c) as [v | |]; simpl;
        try (rewrite replace_nth; reflexivity).
      rewrite !(nth_replace r _ h L).
      destruct (has_column "margin_per_hour"
                  (setitem (nth r h []) "contribution_margin" v)) eqn:P;
        simpl; [reflexivity |].
      rewrite !(nth_replace r _ h L).
      destruct (getitem (setitem (nth r h []) "contribution_margin" v)
                  "contribution_margin") as [cm | |]; simpl; try reflexivity.
      destruct (getitem (setitem (nth r h []) "contribution_margin" v)
                  "processing_time_hr") as [hr | |]; simpl; try reflexivity.
      destruct (series_div cm hr); simpl; try reflexivity.
      rewrite replace_replace. reflexivity.
  - rewrite (nth_overflow h [] L), enrich_empty. simpl.
    rewrite (replace_beyond r [] h L).
    cbv [Analyzer._prepare_columns df_has_column df_getitem mbind deref lift
           ret Analyzer.order_df].
    rewrite (nth_overflow h [] L). simpl.
    rewrite (nth_overflow h [] L). reflexivity.
Qed.

Lemma setitem_absent (t : DataFrame) (name : string) (v : Series) :
  has_column name t = false -> setitem t name v = (t ++ [(name, v)])%list.
Proof.
  unfold has_column, columns.
  induction t as [| [c s] t IH]; simpl; [reflexivity |].
  rewrite (String.eqb_sym name c).
  destruct (String.eqb c name); simpl; [discriminate |].
  intros H. rewrite (IH H). reflexivity.
Qed.

Lemma has_column_app (name : string) (t u : DataFrame) :
  has_column name (t ++ u) = has_column name t || has_column name u.
Proof. unfold has_column, columns. rewrite map_app. apply existsb_app. Qed.

Lemma has_column_single (name : string) (v : Series) :
  has_column name [(name, v)] = true.
Proof. unfold has_column; simpl. rewrite String.eqb_refl. reflexivity. Qed.

Lemma add_column_cases (name : string) compute (t : DataFrame) :
  (add_column name compute t = (Ok tt, t) /\ has_column name t = true) \/
  (exists v, add_column name compute t = (Ok tt, (t ++ [(name, v)])%list) /\
             has_column name t = false /\ compute t = Ok v) \/
  (exists o, add_column name compute t = (o, t) /\ o <> Ok tt /\
             has_column name t = false).
Proof.
  unfold add_column. destruct (has_column name t) eqn:H; [left; auto |].
  right. destruct (compute t) as [v | e |] eqn:C.
  - left. exists v. rewrite setitem_absent by exact H. auto.
  - right. exists (Raise e). repeat split; discriminate || reflexivity.
  - right. exists NonFinite. repeat split; discriminate || reflexivity.
Qed.

Lemma add_column_present (name : string) compute (t : DataFrame) :
  has_column name t = true -> add_column name compute t = (Ok tt, t).
Proof. unfold add_column. intros ->. reflexivity. Qed.

Lemma enrich_idempotent (t : DataFrame) :
  enrich (snd (enrich t)) = enrich t.
Proof.
  unfold enrich at 2 3.
  destruct (add_column_cases "contribution_margin" contribution_margin t)
    as [[E C] | [[v [E [C _]]] | [o [E [NO _]]]]]; rewrite E.
  - destruct (add_column_cases "margin_per_hour" margin_per_hour t)
      as [[E2 M] | [[w [E2 [M _]]] | [o [E2 [NO _]]]]]; rewrite E2; simpl.
    + unfold enrich. rewrite E, E2. reflexivity.
    + unfold enrich.
      rewrite !add_column_present; [reflexivity | |];
        rewrite has_column_app; [rewrite has_column_single | rewrite C];
        auto using orb_true_r.
    + unfold enrich. rewrite E, E2. reflexivity.
  - set (t1 := (t ++ [("contribution_margin", v)])%list) in *.
    assert (C1 : has_column "contribution_margin" t1 = true).
    { unfold t1. rewrite has_column_app, has_column_single.
      apply orb_true_r. }
    destruct (add_column_cases "margin_per_hour" margin_per_hour t1)
      as [[E2 M] | [[w [E2 [M _]]] | [o [E2 [NO _]]]]]; rewrite E2; simpl.
    + unfold enrich. rewrite (add_column_present _ _ _ C1), E2. reflexivity.
    + unfold enrich.
      rewrite !add_column_present; [reflexivity | |];
        rewrite has_column_app; [rewrite has_column_single | rewrite C1];
        auto using orb_true_r.
    + unfold enrich. rewrite (add_column_present _ _ _ C1), E2. reflexivity.
  - destruct o as [[] | e |]; [congruence | |]; simpl;
      unfold enrich; rewrite E; reflexivity.
Qed.

(** The enriched table is the old one followed by the derived columns it
    lacked, in the order [derived]; when the enrichment raises, by those
    added before. *)
Lemma enrich_appends (t : DataFrame) :
  exists added,
    snd (enrich t) = (t ++ added)%list /\
    incl (columns added) (missing t) /\
    (fst (enrich t) = Ok tt -> columns added = missing t).
Proof.
  unfold enrich, missing, derived.
  destruct (add_column_cases "contribution_margin" contribution_margin t)
    as [[E C] | [[v [E [C _]]] | [o [E [NO C]]]]]; rewrite E.
  - destruct (add_column_cases "margin_per_hour" margin_per_hour t)
      as [[E2 M] | [[w [E2 [M _]]] | [o [E2 [NO M]]]]]; rewrite E2;
      simpl; rewrite C, M; simpl.
    + exists []. rewrite app_nil_r. split; [| split]; auto using incl_refl.
    + exists [("margin_per_hour", w)]. split; [| split]; auto using incl_refl.
    + exists []. rewrite app_nil_r. split; [| split]; auto.
      * apply incl_nil_l.
      * intros F; contradiction.
  - set (t1 := (t ++ [("contribution_margin", v)])%list) in *.
    assert (M1 : has_column "margin_per_hour" t1 = has_column "margin_per_hour" t).
    { unfold t1. rewrite has_column_app. unfold has_column at 2; simpl.
      apply orb_false_r. }
    destruct (add_column_cases "margin_per_hour" margin_per_hour t1)
      as [[E2 M] | [[w [E2 [M _]]] | [o [E2 [NO M]]]]]; rewrite E2;
      rewrite M1 in M; simpl; rewrite C, M; simpl.
    + exists [("contribution_margin", v)].
      split; [| split]; auto using incl_refl.
    + exists [("contribution_margin", v); ("margin_per_hour", w)].
      unfold t1. rewrite <- app_assoc.
      split; [| split]; auto using incl_refl.
    + exists [("contribution_margin", v)].
      split; [| split]; auto.
      * simpl. intros n [<- | []]. left; reflexivity.
      * intros F; contradiction.
  - exists []. rewrite app_nil_r.
    destruct o as [[] | e |]; [congruence | |]; simpl;
      (split; [| split]; [reflexivity | apply incl_nil_l | discriminate]).
Qed.

(** C8: running the enrichment a second time changes nothing and ends as
    the first run did, so the table and with it its two derived columns are
    those of the first run; and on a table that already has both columns
    the enrichment leaves the store as it is. *)
Theorem prepare_columns_idempotent :
  (forall self h,
      Analyzer._prepare_columns self (snd (Analyzer._prepare_columns self h))
      = Analyzer._prepare_columns self h) /\
  (forall self h,
      has_column "contribution_margin" (nth (Analyzer.order_df self) h []) = true ->
      has_column "margin_per_hour" (nth (Analyzer.order_df self) h []) = true ->
      Analyzer._prepare_columns self h = (Ok tt, h)).
Proof.
  split.
  - intros self h. rewrite (prepare_columns_enrich self h). simpl snd.
    rewrite prepare_columns_enrich.
    set (r := Analyzer.order_df self). set (t := nth r h []).
    destruct (Nat.lt_ge_cases r (length h)) as [L | L].
    + rewrite (nth_replace r _ h L), enrich_idempotent, replace_replace.
      reflexivity.
    + rewrite (replace_beyond r _ h L). fold t.
      rewrite (replace_beyond r _ h L). reflexivity.
  - intros self h C M. rewrite prepare_columns_enrich.
    unfold enrich. rewrite (add_column_present _ _ _ C).
    rewrite (add_column_present _ _ _ M). simpl.
    rewrite replace_nth. reflexivity.
Qed.

(** C9: the enrichment assigns to the one table [self.order_df] names, and
    the table it leaves there is the old one followed by the derived columns
    that were missing: every column that was there keeps its name, its
    place and its cells, so every row keeps its cells.  [__init__] puts a
    copy of the caller's table into a fresh object, enriches that object and
    leaves every other object of the store as it was; the analyses read the
    enriched object. *)
Theorem enrichment_appends_in_place :
  (forall self h,
      exists added,
        snd (Analyzer._prepare_columns self h) =
        replace (Analyzer.order_df self)
          (nth (Analyzer.order_df self) h [] ++ added) h /\
        incl (columns added) (missing (nth (Analyzer.order_df self) h [])) /\
        forall i, row (nth (Analyzer.order_df self) h [] ++ added) i =
                  row (nth (Analyzer.order_df self) h []) i ++ row added i) /\
  (forall df h,
      exists added,
        snd (Analyzer.__init__ df h) = h ++ [nth df h [] ++ added] /\
        incl (columns added) (missing (nth df h [])) /\
        forall self,
          fst (Analyzer.__init__ df h) = Ok self ->
          Analyzer.order_df self = length h /\
          columns added = missing (nth df h []) /\
          forall S h',
            h' = snd (Analyzer.__init__ df h) ->
            Analyzer.analyze_margin S self h' =
              (analyze_margin S (nth df h [] ++ added), h') /\
            Analyzer.analyze_client self h' =
              (analyze_client (nth df h [] ++ added), h') /\
            Analyzer.analyze_orders S self h' =
              (analyze_orders S (nth df h [] ++ added), h')).
Proof.
  split.
  - intros self h. rewrite prepare_columns_enrich. simpl snd.
    destruct (enrich_appends (nth (Analyzer.order_df self) h []))
      as [added [E [I _]]].
    exists added. rewrite E. split; [reflexivity | split; [exact I |]].
    intros i. unfold row. apply map_app.
  - intros df h.
    destruct (enrich_appends (nth df h [])) as [added [E [I C]]].
    exists added.
    assert (R : Analyzer.__init__ df h =
                (match fst (enrich (nth df h [])) with
                 | Ok _ => Ok (Analyzer.mk (length h))
                 | Raise e => Raise e
                 | NonFinite => NonFinite
                 end, h ++ [nth df h [] ++ added])).
    { unfold Analyzer.__init__, mbind, deref, alloc, ret.
      rewrite prepare_columns_enrich. simpl Analyzer.order_df.
      rewrite nth_middle, replace_last, E.
      destruct (fst (enrich (nth df h []))); reflexivity. }
    rewrite R. simpl. split; [reflexivity | split; [exact I |]].
    intros self Hs.
    destruct (fst (enrich (nth df h []))) as [[] | |]; try discriminate.
    injection Hs as <-. simpl.
    split; [reflexivity | split; [apply C; reflexivity |]].
    intros S h' ->.
    unfold Analyzer.analyze_margin, Analyzer.analyze_client,
      Analyzer.analyze_orders, mbind, deref, lift. simpl.
    rewrite nth_middle.
    destruct (analyze_margin S (nth df h [] ++ added));
      destruct (analyze_client (nth df h [] ++ added));
      destruct (analyze_orders S (nth df h [] ++ added)); auto.
Qed.

(** ** The two sorting routines meet the contract *)

Section Insertion.
Context {A : Type} (leb before : A -> A -> bool).
Hypothesis before_le : forall x y, before x y = true -> leb x y = true.
Hypothesis not_before_ge : forall x y, before x y = false -> leb y x = true.
Hypothesis leb_trans : transitive leb.

Let R (p q : nat * A) : Prop := leb (snd p) (snd q) = true.

Lemma insert_by_perm (x : nat * A) (l : list (nat * A)) :
  Permutation (insert_by before x l) (x :: l).
Proof.
  induction l as [| y l IH]; simpl; [reflexivity |].
  destruct (before (snd x) (snd y)); [reflexivity |].
  rewrite IH. apply perm_swap.
Qed.

Lemma insert_by_sorted (x : nat * A) (l : list (nat * A)) :
  StronglySorted R l -> StronglySorted R (insert_by before x l).
Proof.
  induction l as [| y l IH]; simpl; intros S.
  - repeat constructor.
  - inversion S as [| ? ? S' F]; subst.
    destruct (before (snd x) (snd y)) eqn:B.
    + constructor; [exact S |].
      apply before_le in B. constructor; [exact B |].
      eapply Forall_impl; [| exact F].
      intros z Hz. unfold R in *. eapply leb_trans; eassumption.
    + constructor; [apply IH; exact S' |].
      apply not_before_ge in B.
      eapply Permutation_Forall;
        [symmetry; apply insert_by_perm | constructor; assumption].
Qed.

Lemma isort_by_perm (l : list A) :
  Permutation (isort_by before l) (combine (seq 0 (length l)) l).
Proof.
  unfold isort_by.
  induction (combine (seq 0 (length l)) l) as [| x c IH]; simpl;
    [reflexivity |].
  rewrite insert_by_perm, IH. reflexivity.
Qed.

Lemma isort_by_sorted (l : list A) : StronglySorted R (isort_by before l).
Proof.
  unfold isort_by.
  induction (combine (seq 0 (length l)) l) as [| x c IH]; simpl;
    [constructor | apply insert_by_sorted; exact IH].
Qed.
End Insertion.

Lemma fst_combine_seq {A : Type} (l : list A) (k : nat) :
  map fst (combine (seq k (length l)) l) = seq k (length l).
Proof.
  revert k; induction l as [| x l IH]; intros k; simpl; [reflexivity |].
  rewrite IH. reflexivity.
Qed.

Lemma In_combine_seq {A : Type} (l : list A) (k i : nat) (a : A) :
  In (i, a) (combine (seq k (length l)) l) <->
  (k <= i)%nat /\ nth_error l (i - k) = Some a.
Proof.
  revert k; induction l as [| x l IH]; intros k; simpl.
  - split; [tauto | intros [_ H]]. destruct (i - k)%nat; discriminate.
  - rewrite IH. split.
    + intros [E | [L N]].
      * injection E as <- <-. rewrite Nat.sub_diag. split; [lia | reflexivity].
      * split; [lia |]. replace (i - k)%nat with (S (i - S k)) by lia. exact N.
    + intros [L N]. destruct (i - k)%nat as [| d] eqn:D.
      * left. simpl in N. injection N as <-. f_equal. lia.
      * right. split; [lia |]. replace (i - S k)%nat with d by lia. exact N.
Qed.

Lemma argsort_by_perm {A : Type} (before : A -> A -> bool) (l : list A) :
  Permutation (map fst (isort_by before l)) (seq 0 (length l)).
Proof.
  rewrite (isort_by_perm before l), fst_combine_seq. reflexivity.
Qed.

Lemma argsort_by_sorted {A : Type} (leb before : A -> A -> bool) (l : list A) :
  (forall x y, before x y = true -> leb x y = true) ->
  (forall x y, before x y = false -> leb y x = true) ->
  transitive leb ->
  StronglySorted (ascends leb l) (map fst (isort_by before l)).
Proof.
  intros H1 H2 T.
  pose proof (isort_by_sorted leb before H1 H2 T l) as S.
  assert (E : Forall (fun p => nth_error l (fst p) = Some (snd p))
                (isort_by before l)).
  { apply Forall_forall. intros [i a] I.
    apply (Permutation_in _ (isort_by_perm before l)) in I.
    apply In_combine_seq in I. rewrite Nat.sub_0_r in I. apply I. }
  induction S as [| p r S IH F]; simpl; [constructor |].
  inversion E as [| ? ? Ep Er]; subst.
  constructor; [apply IH; exact Er |].
  apply Forall_map. rewrite Forall_forall in *.
  intros q Iq. unfold ascends. rewrite Ep, (Er q Iq). apply F, Iq.
Qed.

Definition stable_sorter : Sorter.
Proof.
  refine {| argsort := stable_argsort |}.
  - intros A leb l. apply argsort_by_perm.
  - intros A leb l Tot Tr. apply (argsort_by_sorted leb leb l); auto.
    intros x y H. destruct (Tot x y); congruence.
Defined.

Definition reversing_sorter : Sorter.
Proof.
  refine {| argsort := reversing_argsort |}.
  - intros A leb l. apply argsort_by_perm.
  - intros A leb l Tot Tr. apply (argsort_by_sorted leb _ l); auto.
    + intros x y H. apply negb_true_iff in H. destruct (Tot x y); congruence.
    + intros x y H. apply negb_false_iff in H. exact H.
Defined.

(** ** Selections and [nargsort] *)

Lemma select_app {A : Type} (a b : list nat) (l : list A) :
  select (a ++ b) l = select a l ++ select b l.
Proof. unfold select. apply flat_map_app. Qed.

Lemma In_select {A : Type} (idxs : list nat) (l : list A) (x : A) :
  In x (select idxs l) <-> exists i, In i idxs /\ nth_error l i = Some x.
Proof.
  unfold select. rewrite in_flat_map. split.
  - intros [i [I H]]. exists i. split; [exact I |].
    destruct (nth_error l i); [destruct H as [<- | []]; reflexivity | destruct H].
  - intros [i [I H]]. exists i. split; [exact I |]. rewrite H. left; reflexivity.
Qed.

Lemma select_seq_app {A : Type} (a l : list A) :
  select (seq (length a) (length l)) (a ++ l) = l.
Proof.
  revert a; induction l as [| x l IH]; intros a; [reflexivity |].
  simpl seq. unfold select in *. simpl flat_map.
  rewrite nth_error_app2, Nat.sub_diag by lia. simpl. f_equal.
  specialize (IH (a ++ [x])).
  rewrite length_app, <- app_assoc in IH. simpl in IH.
  rewrite Nat.add_1_r in IH. exact IH.
Qed.

Lemma select_seq {A : Type} (l : list A) : select (seq 0 (length l)) l = l.
Proof. exact (select_seq_app [] l). Qed.

Lemma select_perm {A : Type} (a b : list nat) (l : list A) :
  Permutation a b -> Permutation (select a l) (select b l).
Proof. intros P. unfold select. apply Permutation_flat_map, P. Qed.

Lemma select_cons {A : Type} (i : nat) (a : list nat) (l : list A) :
  select (i :: a) l =
  match nth_error l i with Some x => [x] | None => [] end ++ select a l.
Proof. reflexivity. Qed.

Lemma select_sorted {A : Type} (leb : A -> A -> bool) (p : list nat)
  (keys : list A) :
  StronglySorted (ascends leb keys) p ->
  StronglySorted (fun a b => leb a b = true) (select p keys).
Proof.
  induction 1 as [| i r S IH F]; [constructor |].
  rewrite select_cons.
  destruct (nth_error keys i) as [a |] eqn:E; simpl; [| exact IH].
  constructor; [exact IH |].
  apply Forall_forall. intros b Ib. apply In_select in Ib.
  destruct Ib as [j [Ij Ej]]. rewrite Forall_forall in F.
  specialize (F j Ij). unfold ascends in F. rewrite E, Ej in F. exact F.
Qed.

Lemma StronglySorted_of_map {A B : Type} (f : A -> B) (R : B -> B -> Prop)
  (l : list A) :
  StronglySorted R (map f l) -> StronglySorted (fun a b => R (f a) (f b)) l.
Proof.
  induction l as [| x l IH]; simpl; intros S; [constructor |].
  inversion S as [| ? ? S' F]; subst.
  constructor; [apply IH; exact S' |].
  rewrite Forall_map in F. exact F.
Qed.

Lemma StronglySorted_rev_flip {A : Type} (R : A -> A -> Prop) (l : list A) :
  StronglySorted R l -> StronglySorted (fun a b => R b a) (rev l).
Proof.
  induction 1 as [| x l S IH F]; simpl; [constructor |].
  assert (G : forall m, StronglySorted (fun a b => R b a) m ->
                        Forall (fun y => R x y) m ->
                        StronglySorted (fun a b => R b a) (m ++ [x])).
  { induction m as [| y m IHm]; simpl; intros Sm Fm.
    - repeat constructor.
    - inversion Sm as [| ? ? Sm' Fy]; subst.
      inversion Fm as [| ? ? Rxy Fm']; subst.
      constructor; [apply IHm; assumption |].
      apply Forall_app. split; [exact Fy | repeat constructor; exact Rxy]. }
  apply G; [exact IH |]. apply Forall_rev. exact F.
Qed.

Lemma somes_nones_perm {A : Type} (tagged : list (nat * option A)) :
  Permutation (map fst (somes tagged) ++ nones tagged) (map fst tagged).
Proof.
  induction tagged as [| [i [v |]] t IH]; simpl; [reflexivity | |].
  - apply perm_skip, IH.
  - rewrite <- IH. symmetry. apply Permutation_middle.
Qed.

Lemma somes_In {A : Type} (tagged : list (nat * option A)) (i : nat) (v : A) :
  In (i, v) (somes tagged) <-> In (i, Some v) tagged.
Proof.
  unfold somes. rewrite in_flat_map. split.
  - intros [[j [w |]] [I H]]; simpl in H; [| destruct H].
    destruct H as [E | []]. injection E as <- <-. exact I.
  - intros I. exists (i, Some v). split; [exact I | left; reflexivity].
Qed.

Lemma nones_In {A : Type} (tagged : list (nat * option A)) (i : nat) :
  In i (nones tagged) <-> In (i, None) tagged.
Proof.
  unfold nones. rewrite in_flat_map. split.
  - intros [[j [w |]] [I H]]; simpl in H; [destruct H |].
    destruct H as [<- | []]. exact I.
  - intros I. exists (i, None). split; [exact I | left; reflexivity].
Qed.

(** What [nargsort] returns: the positions of the values, along which the
    values are in order, then the positions of the NaN entries. *)
Lemma nargsort_spec {A : Type} (S : Sorter) (leb : A -> A -> bool)
  (items : list (option A)) (ascending : bool) :
  total leb -> transitive leb ->
  exists (qs : list (nat * A)) (nans : list nat),
    nargsort S leb items ascending = map fst qs ++ nans /\
    Permutation (map fst qs ++ nans) (seq 0 (length items)) /\
    Forall (fun q => nth_error items (fst q) = Some (Some (snd q))) qs /\
    Forall (fun i => nth_error items i = Some None) nans /\
    StronglySorted (ordered leb ascending) qs.
Proof.
  intros Tot Tr. unfold nargsort.
  set (tagged := combine (seq 0 (length items)) items).
  set (sm := if ascending then somes tagged else rev (somes tagged)).
  set (p := argsort S A leb (map snd sm)).
  set (qs0 := select p sm).
  assert (Psm : Permutation sm (somes tagged)).
  { unfold sm. destruct ascending; [reflexivity | symmetry; apply Permutation_rev]. }
  assert (Pq : Permutation qs0 sm).
  { unfold qs0. rewrite <- (select_seq sm) at 2. apply select_perm.
    unfold p. rewrite (argsort_perm S A leb (map snd sm)), length_map.
    reflexivity. }
  assert (Sq : StronglySorted (fun a b => leb (snd a) (snd b) = true) qs0).
  { apply (StronglySorted_of_map snd (fun a b => leb a b = true)).
    unfold qs0. rewrite <- select_map.
    apply select_sorted, argsort_sorted; assumption. }
  assert (Fs : forall q, In q (somes tagged) ->
                         nth_error items (fst q) = Some (Some (snd q))).
  { intros [i v] I. apply somes_In in I. unfold tagged in I.
    apply In_combine_seq in I. rewrite Nat.sub_0_r in I. apply I. }
  assert (Fn : Forall (fun i => nth_error items i = Some None) (nones tagged)).
  { apply Forall_forall. intros i I. apply nones_In in I. unfold tagged in I.
    apply In_combine_seq in I. rewrite Nat.sub_0_r in I. apply I. }
  assert (Pt : Permutation (map fst (somes tagged) ++ nones tagged)
                 (seq 0 (length items))).
  { rewrite somes_nones_perm. unfold tagged. rewrite fst_combine_seq.
    reflexivity. }
  exists (if ascending then qs0 else rev qs0), (nones tagged).
  split; [| split; [| split; [| split; [exact Fn |]]]].
  - f_equal.
    assert (E : select p (map fst sm) = map fst qs0)
      by (unfold qs0; apply select_map).
    fold tagged sm p. rewrite E.
    destruct ascending; [reflexivity | symmetry; apply map_rev].
  - rewrite <- Pt. apply Permutation_app_tail, Permutation_map.
    destruct ascending; [| rewrite <- Permutation_rev];
      rewrite Pq; exact Psm.
  - apply Forall_forall. intros q I. apply Fs.
    apply (Permutation_in q Psm), (Permutation_in q Pq).
    destruct ascending; [exact I | apply in_rev; exact I].
  - unfold ordered. destruct ascending; [exact Sq |].
    apply StronglySorted_rev_flip in Sq. exact Sq.
Qed.

Lemma nth_error_select {A : Type} (b : list nat) (l : list A) (k : nat) :
  Forall (fun j => (j < length l)%nat) b ->
  nth_error (select b l) k =
  match nth_error b k with Some j => nth_error l j | None => None end.
Proof.
  intros F. revert k. induction F as [| j b Hj F IH]; intros k.
  - destruct k; reflexivity.
  - rewrite select_cons.
    destruct (nth_error l j) as [x |] eqn:E;
      [| apply nth_error_None in E; lia].
    destruct k as [| k]; simpl; [symmetry; exact E | apply IH].
Qed.

Lemma select_length {A : Type} (b : list nat) (l : list A) :
  Forall (fun j => (j < length l)%nat) b -> length (select b l) = length b.
Proof.
  induction 1 as [| j b Hj F IH]; [reflexivity |].
  rewrite select_cons.
  destruct (nth_error l j) as [x |] eqn:E;
    [| apply nth_error_None in E; lia].
  simpl. rewrite IH. reflexivity.
Qed.

Lemma select_select {A : Type} (a b : list nat) (l : list A) :
  Forall (fun j => (j < length l)%nat) b ->
  select a (select b l) = select (select a b) l.
Proof.
  intros F. induction a as [| i a IH]; [reflexivity |].
  rewrite !select_cons, select_app, IH, (nth_error_select b l i F).
  f_equal. destruct (nth_error b i) as [j |]; [| reflexivity].
  rewrite select_cons. symmetry. apply app_nil_r.
Qed.

Lemma take_take (a b : list nat) (df : DataFrame) :
  wf df -> Forall (fun j => (j < nrows df)%nat) b ->
  take a (take b df) = take (select a b) df.
Proof.
  intros [_ W] F. unfold take. rewrite map_map.
  apply map_ext_in. intros [c s] I. simpl. f_equal.
  apply select_select. rewrite Forall_forall in W.
  pose proof (W _ I) as HW. simpl in HW. rewrite HW. exact F.
Qed.

Lemma row_take (idxs : list nat) (df : DataFrame) (k i : nat) :
  wf df -> Forall (fun j => (j < nrows df)%nat) idxs ->
  nth_error idxs k = Some i -> row (take idxs df) k = row df i.
Proof.
  intros [_ W] F E. unfold row, take. rewrite map_map.
  apply map_ext_in. intros [c s] I. simpl.
  rewrite nth_error_select, E; [reflexivity |].
  rewrite Forall_forall in W.
  pose proof (W _ I) as HW. simpl in HW. rewrite HW. exact F.
Qed.

Lemma select_fst_snd {A : Type} (qs : list (nat * A)) (l : list A) :
  Forall (fun q => nth_error l (fst q) = Some (snd q)) qs ->
  select (map fst qs) l = map snd qs.
Proof.
  induction 1 as [| q qs E F IH]; [reflexivity |].
  simpl map. rewrite select_cons, E, IH. reflexivity.
Qed.

Lemma StronglySorted_map {A B : Type} (f : A -> B) (R : B -> B -> Prop)
  (l : list A) :
  StronglySorted (fun a b => R (f a) (f b)) l -> StronglySorted R (map f l).
Proof.
  induction 1 as [| x l S IH F]; simpl; constructor; [exact IH |].
  apply Forall_map. exact F.
Qed.

Lemma Qle_bool_total : total Qle_bool.
Proof.
  intros a b. destruct (Qlt_le_dec a b) as [L | L].
  - left. apply Qle_bool_iff, Qlt_le_weak, L.
  - right. apply Qle_bool_iff, L.
Qed.

Lemma Qle_bool_transitive : transitive Qle_bool.
Proof.
  intros a b c. rewrite !Qle_bool_iff. apply Qle_trans.
Qed.

(** Sorting a column without NaN: a permutation of the positions along
    which the values ascend. *)
Lemma nargsort_values (S : Sorter) (keys : list Q) :
  Permutation (nargsort S Qle_bool (map Some keys) true) (seq 0 (length keys)) /\
  StronglySorted Qle (select (nargsort S Qle_bool (map Some keys) true) keys).
Proof.
  destruct (nargsort_spec S Qle_bool (map Some keys) true
              Qle_bool_total Qle_bool_transitive)
    as [qs [nans [E [P [Fq [Fn Sq]]]]]].
  rewrite length_map in P. rewrite E. split; [exact P |].
  assert (N : nans = []).
  { destruct nans as [| i nans]; [reflexivity |].
    apply Forall_inv in Fn. rewrite nth_error_map in Fn.
    destruct (nth_error keys i); discriminate. }
  subst nans. rewrite app_nil_r.
  rewrite (select_fst_snd qs keys).
  - apply StronglySorted_map. eapply StronglySorted_ind with
      (P := StronglySorted (fun a b => (snd a <= snd b)%Q));
      [constructor | | exact Sq].
    intros a l _ IH F. constructor; [exact IH |].
    eapply Forall_impl; [| exact F].
    intros b H. apply Qle_bool_iff, H.
  - eapply Forall_impl; [| exact Fq].
    intros q H. cbv beta in H. rewrite nth_error_map in H.
    destruct (nth_error keys (fst q)); [| discriminate].
    injection H as ->. reflexivity.
Qed.

(** ** Order filter *)

Lemma gt_nan_iff (x : Q) (t : option Q) :
  gt_nan x t = true <-> exists y, t = Some y /\ (y < x)%Q.
Proof.
  unfold gt_nan. destruct t as [y |].
  - rewrite negb_true_iff, Qle_bool_false. split.
    + intros H. exists y. auto.
    + intros [z [E H]]. injection E as ->. exact H.
  - split; [discriminate | intros [z [E _]]; discriminate].
Qed.

Lemma lt_nan_iff (x : Q) (t : option Q) :
  lt_nan x t = true <-> exists y, t = Some y /\ (x < y)%Q.
Proof.
  unfold lt_nan. destruct t as [y |].
  - rewrite negb_true_iff, Qle_bool_false. split.
    + intros H. exists y. auto.
    + intros [z [E H]]. injection E as ->. exact H.
  - split; [discriminate | intros [z [E _]]; discriminate].
Qed.

Lemma mask3_nth (pt mph rk : list Q) (q75 q25 : option Q) (i : nat) :
  nth_error (mask3 pt mph rk q75 q25) i =
  match nth_error pt i, nth_error mph i, nth_error rk i with
  | Some p, Some m, Some r =>
      Some (gt_nan p q75 && lt_nan m q25 && negb (Qle_bool r 15))
  | _, _, _ => None
  end.
Proof.
  revert mph rk i. induction pt as [| p pt IH]; intros mph rk i.
  - simpl. destruct i; reflexivity.
  - destruct mph as [| m mph].
    + simpl. destruct i; simpl; [reflexivity |].
      destruct (nth_error pt i); reflexivity.
    + destruct rk as [| r rk].
      * simpl. destruct i; simpl; [reflexivity |].
        destruct (nth_error pt i); [| reflexivity].
        destruct (nth_error mph i); reflexivity.
      * destruct i; simpl; [reflexivity | apply IH].
Qed.

Lemma mask3_selected (pt mph rk : list Q) (i : nat) :
  In i (nonzero (mask3 pt mph rk (quantile pt (75 # 100))
                   (quantile mph (25 # 100))))
  <-> selected pt mph rk i.
Proof.
  rewrite nonzero_In, mask3_nth. unfold selected. split.
  - destruct (nth_error pt i) as [p |]; [| discriminate].
    destruct (nth_error mph i) as [m |]; [| discriminate].
    destruct (nth_error rk i) as [r |]; [| discriminate].
    intros H. injection H as H. rewrite !andb_true_iff in H.
    destruct H as [[H1 H2] H3].
    exists p, m, r. repeat split.
    + apply gt_nan_iff, H1.
    + apply lt_nan_iff, H2.
    + apply Qle_bool_false, negb_true_iff, H3.
  - intros [p [m [r [-> [-> [-> [H1 [H2 H3]]]]]]]].
    apply gt_nan_iff in H1. apply lt_nan_iff in H2.
    apply Qle_bool_false, negb_true_iff in H3.
    rewrite H1, H2, H3. reflexivity.
Qed.

(** C4: on every table whose three columns are numeric [analyze_orders]
    returns a table and raises nothing, also when no row is selected; the
    rows of the result are rows of the input, each row that satisfies the
    three conditions once and no other row; and the margin per hour of the
    result ascends. *)
Theorem bad_orders_filtered_and_sorted (S : Sorter) (df : DataFrame)
  (pt mph rk : list Q) :
  wf df ->
  numeric df "processing_time_hr" = Ok pt ->
  numeric df "margin_per_hour" = Ok mph ->
  numeric df "risk (in percent)" = Ok rk ->
  exists idxs,
    analyze_orders S df = Ok (take idxs df) /\
    NoDup idxs /\
    (forall i, In i idxs <-> selected pt mph rk i) /\
    (forall k i, nth_error idxs k = Some i ->
                 row (take idxs df) k = row df i) /\
    numeric (take idxs df) "margin_per_hour" = Ok (select idxs mph) /\
    StronglySorted Qle (select idxs mph).
Proof.
  intros W Npt Nmph Nrk. unfold analyze_orders.
  rewrite Npt, Nmph, Nrk. simpl bind.
  set (nz := nonzero (mask3 pt mph rk (quantile pt (75 # 100))
                        (quantile mph (25 # 100)))).
  assert (Rg : Forall (fun j => (j < nrows df)%nat) nz).
  { apply Forall_forall. intros j I. apply mask3_selected in I.
    destruct I as [p [_ [_ [E _]]]].
    rewrite <- (numeric_length df _ pt W Npt). apply nth_error_Some. congruence. }
  assert (Rm : Forall (fun j => (j < length mph)%nat) nz).
  { rewrite (numeric_length df _ mph W Nmph). exact Rg. }
  unfold sort_values. rewrite (numeric_take nz df _ mph Nmph). simpl bind.
  set (keys := select nz mph).
  destruct (nargsort_values S keys) as [P Srt].
  set (p := nargsort S Qle_bool (map Some keys) true) in *.
  exists (select p nz).
  assert (Pz : Permutation (select p nz) nz).
  { rewrite <- (select_seq nz) at 2. apply select_perm.
    unfold keys in P. rewrite (select_length nz mph Rm) in P. exact P. }
  assert (Ri : Forall (fun j => (j < nrows df)%nat) (select p nz)).
  { eapply Permutation_Forall; [symmetry; exact Pz | exact Rg]. }
  split; [| split; [| split; [| split; [| split]]]].
  - rewrite (take_take p nz df W Rg). reflexivity.
  - eapply Permutation_NoDup; [symmetry; exact Pz |].
    apply nonzero_from_NoDup.
  - intros i. rewrite <- mask3_selected. fold nz.
    split; apply Permutation_in; [exact Pz | symmetry; exact Pz].
  - intros k i E. apply (row_take _ df k i W Ri E).
  - apply numeric_take, Nmph.
  - rewrite <- (select_select p nz mph Rm). exact Srt.
Qed.

(** ** Coefficients *)

Lemma Q2R_Qabs (n : Q) : Q2R (Qabs n) = Rabs (Q2R n).
Proof.
  destruct (Qlt_le_dec n 0) as [L | L].
  - rewrite (Qeq_eqR _ _ (Qabs_neg n (Qlt_le_weak _ _ L))), Q2R_opp.
    apply Qlt_Rlt in L. rewrite RMicromega.Q2R_0 in L.
    rewrite Rabs_left by exact L. reflexivity.
  - rewrite (Qeq_eqR _ _ (Qabs_pos n L)).
    apply Qle_Rle in L. rewrite RMicromega.Q2R_0 in L.
    rewrite Rabs_pos_eq by exact L. reflexivity.
Qed.

Lemma coeff_key_val (c : coeff) :
  (0 < ssq c)%Q -> Q2R (coeff_key c) = (coeff_val c * Rabs (coeff_val c))%R.
Proof.
  intros D. unfold coeff_key, coeff_val.
  assert (Dn : ~ (ssq c == 0)%Q) by lra.
  rewrite Q2R_div, Q2R_mult, Q2R_Qabs by exact Dn.
  apply Qlt_Rlt in D. rewrite RMicromega.Q2R_0 in D.
  pose proof (sqrt_lt_R0 _ D) as S.
  pose proof (sqrt_sqrt (Q2R (ssq c)) (Rlt_le _ _ D)) as SS.
  set (s := sqrt (Q2R (ssq c))) in *. set (N := Q2R (covxy c)).
  assert (A : Rabs (N / s) = (Rabs N / s)%R).
  { unfold Rdiv. rewrite Rabs_mult, (Rabs_pos_eq (/ s)); [reflexivity |].
    apply Rlt_le, Rinv_0_lt_compat, S. }
  rewrite A, <- SS. field. lra.
Qed.

Lemma signed_square_mono (a b : R) :
  (a <= b <-> a * Rabs a <= b * Rabs b)%R.
Proof.
  unfold Rabs. destruct (Rcase_abs a), (Rcase_abs b); split; intros; nra.
Qed.

Lemma coeff_leb_spec (a b : coeff) :
  (0 < ssq a)%Q -> (0 < ssq b)%Q ->
  (coeff_leb a b = true <-> (coeff_val a <= coeff_val b)%R).
Proof.
  intros Da Db. unfold coeff_leb.
  rewrite Qle_bool_iff, signed_square_mono,
    <- (coeff_key_val a Da), <- (coeff_key_val b Db).
  split; [apply Qle_Rle | apply Rle_Qle].
Qed.

Lemma coeff_leb_total : total coeff_leb.
Proof. intros a b. apply Qle_bool_total. Qed.

Lemma coeff_leb_transitive : transitive coeff_leb.
Proof. intros a b c. apply Qle_bool_transitive. Qed.

Lemma Qsquare_nonneg (y : Q) : (0 <= y * y)%Q.
Proof.
  destruct (Qlt_le_dec y 0) as [L | L].
  - setoid_replace (y * y)%Q with ((- y) * (- y))%Q by ring.
    apply Qmult_le_0_compat; lra.
  - apply Qmult_le_0_compat; lra.
Qed.

Lemma sq_dev_nonneg (m : Q) (xs : list Q) : (0 <= sq_dev m xs)%Q.
Proof.
  unfold sq_dev. induction xs as [| x xs IH]; simpl; [lra |].
  pose proof (Qsquare_nonneg (x - m)) as H.
  apply (Qplus_le_compat 0 _ 0 _ H IH).
Qed.

Lemma pearson_ssq_pos (xs ys : list Q) (c : coeff) :
  pearson xs ys = Some c -> (0 < ssq c)%Q.
Proof.
  unfold pearson.
  destruct (mean xs) as [mx |]; [| discriminate].
  destruct (mean ys) as [my |]; [| discriminate].
  destruct (Qeq_bool (sq_dev mx xs * sq_dev my ys) 0) eqn:E; [discriminate |].
  intros H; injection H as <-. simpl.
  apply Qeq_bool_neq in E.
  pose proof (sq_dev_nonneg mx xs). pose proof (sq_dev_nonneg my ys).
  assert (P : (0 <= sq_dev mx xs * sq_dev my ys)%Q)
    by (apply Qmult_le_0_compat; assumption).
  apply Qle_lteq in P. destruct P as [L | Z]; [exact L |].
  exfalso. apply E. symmetry. exact Z.
Qed.

(** ** Margin drivers *)

Lemma StronglySorted_impl {A : Type} (R R' : A -> A -> Prop) (l : list A) :
  (forall a b, In a l -> In b l -> R a b -> R' a b) ->
  StronglySorted R l -> StronglySorted R' l.
Proof.
  intros H S. induction S as [| x l S IH F]; constructor.
  - apply IH. intros a b Ia Ib. apply H; right; assumption.
  - rewrite Forall_forall in *. intros y Iy.
    apply H; [left; reflexivity | right; exact Iy | apply F, Iy].
Qed.

Lemma StronglySorted_filter {A : Type} (R : A -> A -> Prop) (f : A -> bool)
  (l : list A) :
  StronglySorted R l -> StronglySorted R (filter f l).
Proof.
  induction 1 as [| x l S IH F]; simpl; [constructor |].
  destruct (f x); [| exact IH].
  constructor; [exact IH |].
  rewrite Forall_forall in *. intros y Iy. apply filter_In in Iy. apply F, Iy.
Qed.

Lemma numeric_columns_spec (df : DataFrame) (names : list string) sub :
  numeric_columns df names = Ok sub ->
  map fst sub = names /\
  Forall (fun c => numeric df (fst c) = Ok (snd c)) sub.
Proof.
  revert sub. induction names as [| n names IH]; simpl; intros sub H.
  - injection H as <-. split; [reflexivity | constructor].
  - destruct (numeric df n) as [xs | |] eqn:N; simpl in H; try discriminate.
    destruct (numeric_columns df names) as [r | |]; simpl in H;
      try discriminate.
    injection H as <-. destruct (IH r eq_refl) as [E F].
    split; [simpl; rewrite E; reflexivity | constructor; assumption].
Qed.

Lemma report_lines (corr : list (string * option coeff)) :
  flat_map
    (fun item =>
       if String.eqb (fst item) "margin_per_hour" then []
       else [describe (fst item) (snd item)])
    corr
  = map (fun item => describe (fst item) (snd item)) (filter not_target corr).
Proof.
  induction corr as [| item corr IH]; simpl; [reflexivity |].
  unfold not_target at 1.
  destruct (String.eqb (fst item) "margin_per_hour"); simpl;
    rewrite IH; reflexivity.
Qed.

Lemma analyze_margin_spec (S : Sorter) (df : DataFrame) sub :
  numeric_columns df (features ++ ["margin_per_hour"]) = Ok sub ->
  exists mph ranked undefined,
    numeric df "margin_per_hour" = Ok mph /\
    analyze_margin S df = Ok (ranked ++ undefined) /\
    Permutation (ranked ++ undefined)
      (map (fun c => (fst c, pearson (snd c) mph)) sub) /\
    Forall (fun e => snd e = None) undefined /\
    Forall (fun e => snd e <> None) ranked /\
    StronglySorted above ranked.
Proof.
  intros H. destruct (numeric_columns_spec _ _ _ H) as [Names Cols].
  assert (Nm : exists mph, numeric df "margin_per_hour" = Ok mph).
  { assert (I : In "margin_per_hour" (map fst sub))
      by (rewrite Names; simpl; auto 6).
    apply in_map_iff in I. destruct I as [[n xs] [E I]]. simpl in E. subst n.
    rewrite Forall_forall in Cols. exists xs. exact (Cols _ I). }
  destruct Nm as [mph Nm]. exists mph.
  unfold analyze_margin. rewrite H, Nm. simpl bind.
  set (corr := map (fun c => (fst c, pearson (snd c) mph)) sub).
  destruct (nargsort_spec S coeff_leb (map snd corr) false
              coeff_leb_total coeff_leb_transitive)
    as [qs [nans [E [P [Fq [Fn Sq]]]]]].
  rewrite E, select_app.
  exists (select (map fst qs) corr), (select nans corr).
  assert (V : map snd (select (map fst qs) corr)
              = map (fun q => Some (snd q)) qs).
  { rewrite <- select_map.
    pose proof (select_fst_snd (map (fun q => (fst q, Some (snd q))) qs)
                  (map snd corr)) as X.
    rewrite !map_map in X. simpl in X. apply X.
    apply Forall_map. exact Fq. }
  split; [reflexivity | split; [reflexivity | split; [| split; [| split]]]].
  - rewrite <- select_app. rewrite length_map in P.
    apply (select_perm _ _ corr) in P. rewrite select_seq in P. exact P.
  - apply Forall_forall. intros e I. apply In_select in I.
    destruct I as [i [I Ei]]. rewrite Forall_forall in Fn.
    specialize (Fn i I). rewrite nth_error_map, Ei in Fn.
    simpl in Fn. congruence.
  - apply Forall_map with (f := snd) (P := fun v => v <> None).
    rewrite V. apply Forall_map, Forall_forall. intros q _. discriminate.
  - apply (StronglySorted_of_map snd
             (fun x y => exists ca cb,
                  x = Some ca /\ y = Some cb /\ coeff_leb cb ca = true)).
    rewrite V. apply StronglySorted_map.
    eapply StronglySorted_impl; [| exact Sq].
    intros a b _ _ O. exists (snd a), (snd b). auto.
Qed.

Lemma filter_perm {A : Type} (f : A -> bool) (l l' : list A) :
  Permutation l l' -> Permutation (filter f l) (filter f l').
Proof.
  induction 1 as [| x l l' P IH | x y l | l l' l'' P1 IH1 P2 IH2]; simpl.
  - constructor.
  - destruct (f x); [apply perm_skip |]; exact IH.
  - destruct (f x), (f y); try reflexivity. apply perm_swap.
  - etransitivity; eassumption.
Qed.

Lemma filter_map_fst (corr : list (string * option coeff)) :
  map fst (filter not_target corr) =
  filter (fun n => negb (String.eqb n "margin_per_hour")) (map fst corr).
Proof.
  induction corr as [| item corr IH]; simpl; [reflexivity |].
  unfold not_target at 1.
  destruct (negb (String.eqb (fst item) "margin_per_hour")); simpl;
    rewrite IH; reflexivity.
Qed.

(** C5, as the code has it: on a table whose five columns are numeric the
    series [analyze_margin] returns holds the four features and
    margin_per_hour itself, each with the Pearson coefficient of its column
    against margin_per_hour, in descending order of the coefficient with the
    NaN coefficients last; the entry of margin_per_hour is ranked in this
    order like the others.  The report leaves margin_per_hour out and has
    one line per feature, each with the coefficient of that feature, in the
    same descending order. *)
Theorem margin_ranking_descending (S : Sorter) (df : DataFrame) sub :
  numeric_columns df (features ++ ["margin_per_hour"]) = Ok sub ->
  exists mph corr lines,
    numeric df "margin_per_hour" = Ok mph /\
    analyze_margin S df = Ok corr /\
    Permutation (map fst corr) (features ++ ["margin_per_hour"]) /\
    print_characteristics S df = Ok lines /\
    lines = map (fun item => describe (fst item) (snd item))
              (filter not_target corr) /\
    Permutation (map feature lines) features /\
    ~ In "margin_per_hour" (map feature lines) /\
    (forall l, In l lines ->
               exists xs, numeric df (feature l) = Ok xs /\
                          value l = pearson xs mph) /\
    descending lines /\
    (forall item, In item corr ->
                  exists xs, numeric df (fst item) = Ok xs /\
                             snd item = pearson xs mph) /\
    In ("margin_per_hour", pearson mph mph) corr /\
    series_descending corr.
Proof.
  intros H. destruct (numeric_columns_spec _ _ _ H) as [Names Cols].
  destruct (analyze_margin_spec S df sub H)
    as [mph [ranked [undefined [Nm [A [P [Fu [Fr Sr]]]]]]]].
  set (corr := ranked ++ undefined) in *.
  set (d := fun item : string * option coeff => describe (fst item) (snd item)).
  exists mph, corr, (map d (filter not_target corr)).
  assert (Pn : Permutation (map fst corr) (features ++ ["margin_per_hour"])).
  { rewrite P, map_map, <- Names. apply Permutation_refl. }
  assert (Pf : Permutation (map feature (map d (filter not_target corr)))
                 features).
  { rewrite map_map. simpl. rewrite filter_map_fst.
    rewrite (filter_perm _ _ _ Pn). reflexivity. }
  assert (Src : forall item, In item corr ->
                  exists xs, numeric df (fst item) = Ok xs /\
                             snd item = pearson xs mph).
  { intros item I. apply (Permutation_in _ P) in I.
    apply in_map_iff in I. destruct I as [c [<- I]]. simpl.
    rewrite Forall_forall in Cols. exists (snd c). split; [apply Cols, I | reflexivity]. }
  split; [exact Nm | split; [exact A | split; [exact Pn |]]].
  assert (Def : forall item c, In item corr ->
                               snd item = Some c -> (0 < ssq c)%Q).
  { intros item c I E. destruct (Src item I) as [xs [_ V]].
    rewrite E in V. symmetry in V. eapply pearson_ssq_pos, V. }
  split; [| split; [reflexivity | split; [exact Pf |]]].
  2: split; [| split; [| split; [| split; [exact Src | split]]]].
  - unfold print_characteristics. rewrite A. simpl bind.
    rewrite report_lines. reflexivity.
  - intros I. apply (Permutation_in _ Pf) in I. simpl in I.
    intuition discriminate.
  - intros l I. apply in_map_iff in I. destruct I as [item [<- I]].
    apply filter_In in I. apply Src, I.
  - exists (map d (filter not_target ranked)),
      (map d (filter not_target undefined)).
    split; [unfold corr; rewrite filter_app, map_app; reflexivity |].
    split; [| split].
    + apply Forall_map, Forall_forall. intros item I. apply filter_In in I.
      rewrite Forall_forall in Fu. simpl. apply Fu, I.
    + apply Forall_map, Forall_forall. intros item I. apply filter_In in I.
      rewrite Forall_forall in Fr. simpl. apply Fr, I.
    + apply StronglySorted_map.
      eapply StronglySorted_impl; [| apply StronglySorted_filter; exact Sr].
      intros a b Ia Ib [ca [cb [Ea [Eb L]]]]. simpl.
      exists ca, cb. split; [exact Ea | split; [exact Eb |]].
      assert (Pos : forall item c, In item (filter not_target ranked) ->
                                   snd item = Some c -> (0 < ssq c)%Q).
      { intros item c I E. apply filter_In in I. destruct I as [I _].
        destruct (Src item) as [xs [_ V]];
          [unfold corr; apply in_or_app; left; exact I |].
        rewrite E in V. symmetry in V. eapply pearson_ssq_pos, V. }
      apply coeff_leb_spec; eauto.
  - assert (I : In "margin_per_hour" (map fst corr)).
    { apply (Permutation_in _ (Permutation_sym Pn)), in_or_app.
      right; left; reflexivity. }
    apply in_map_iff in I. destruct I as [[n v] [E I]]. simpl in E. subst n.
    destruct (Src _ I) as [xs [Nx V]]. simpl in Nx, V.
    rewrite Nm in Nx. injection Nx as <-. rewrite <- V. exact I.
  - exists ranked, undefined.
    split; [reflexivity | split; [exact Fu | split; [exact Fr |]]].
    eapply StronglySorted_impl; [| exact Sr].
    intros a b Ia Ib [ca [cb [Ea [Eb L]]]].
    exists ca, cb. split; [exact Ea | split; [exact Eb |]].
    apply coeff_leb_spec; [| | exact L].
    + apply (Def b); [unfold corr; apply in_or_app; left; exact Ib | exact Eb].
    + apply (Def a); [unfold corr; apply in_or_app; left; exact Ia | exact Ea].
Qed.

(** ** Runs on the sample tables *)

Lemma orders_init :
  Analyzer.__init__ 0%nat [orders]
  = (Ok (Analyzer.mk 1%nat), [orders; orders_enriched]).
Proof. vm_compute. reflexivity. Qed.

Lemma tied_init :
  Analyzer.__init__ 0%nat [tied_orders]
  = (Ok (Analyzer.mk 1%nat), [tied_orders; tied_enriched]).
Proof. vm_compute. reflexivity. Qed.

Lemma orders_enriched_wf : wf orders_enriched.
Proof.
  split.
  - repeat constructor; simpl; intuition discriminate.
  - repeat constructor.
Qed.

(** Rows 10 and 11 (counted from 1) are selected, row 12 is not: it differs
    from row 11 in its risk of 10 only; the result lists row 11 before
    row 10, by margin per hour. *)
Example orders_bad :
  analyze_orders stable_sorter orders_enriched
  = Ok (take [10%nat; 9%nat] orders_enriched).
Proof. vm_compute. reflexivity. Qed.

(** No row of the sample clients is selected: the result is a table without
    rows, not an error. *)
Example no_bad_orders :
  analyze_orders stable_sorter
    (("processing_time_hr", nums [1; 1; 1; 1; 1]) :: clients_table)
  = Ok (take [] (("processing_time_hr", nums [1; 1; 1; 1; 1]) :: clients_table)).
Proof. vm_compute. reflexivity. Qed.

Lemma bad_orders_filtered_and_sorted_witness :
  exists idxs,
    analyze_orders stable_sorter orders_enriched = Ok (take idxs orders_enriched) /\
    NoDup idxs /\
    (forall i, In i idxs <->
               selected (column orders_enriched "processing_time_hr")
                 (column orders_enriched "margin_per_hour")
                 (column orders_enriched "risk (in percent)") i) /\
    (forall k i, nth_error idxs k = Some i ->
                 row (take idxs orders_enriched) k = row orders_enriched i) /\
    numeric (take idxs orders_enriched) "margin_per_hour"
    = Ok (select idxs (column orders_enriched "margin_per_hour")) /\
    StronglySorted Qle (select idxs (column orders_enriched "margin_per_hour")).
Proof.
  apply (bad_orders_filtered_and_sorted stable_sorter orders_enriched
           (column orders_enriched "processing_time_hr")
           (column orders_enriched "margin_per_hour")
           (column orders_enriched "risk (in percent)")
           orders_enriched_wf);
    reflexivity.
Defined.

Lemma prepare_columns_idempotent_witness :
  Analyzer._prepare_columns (Analyzer.mk 1%nat) [orders; orders_enriched]
  = (Ok tt, [orders; orders_enriched]).
Proof.
  apply (proj2 prepare_columns_idempotent (Analyzer.mk 1%nat)
           [orders; orders_enriched]); reflexivity.
Defined.

Lemma enrichment_appends_in_place_witness :
  exists added,
    snd (Analyzer.__init__ 0%nat [orders]) = [orders] ++ [orders ++ added] /\
    columns added = ["contribution_margin"; "margin_per_hour"] /\
    Analyzer.analyze_orders stable_sorter (Analyzer.mk 1%nat)
      (snd (Analyzer.__init__ 0%nat [orders]))
    = (analyze_orders stable_sorter (orders ++ added),
       snd (Analyzer.__init__ 0%nat [orders])).
Proof.
  destruct (proj2 enrichment_appends_in_place 0%nat [orders])
    as [added [E [_ H]]].
  exists added.
  assert (F : fst (Analyzer.__init__ 0%nat [orders]) = Ok (Analyzer.mk 1%nat))
    by (rewrite orders_init; reflexivity).
  destruct (H (Analyzer.mk 1%nat) F) as [_ [C A]].
  split; [exact E | split; [exact C |]].
  apply (A stable_sorter _ eq_refl).
Defined.

Lemma margin_ranking_descending_witness :
  exists mph corr lines,
    numeric orders_enriched "margin_per_hour" = Ok mph /\
    analyze_margin stable_sorter orders_enriched = Ok corr /\
    Permutation (map fst corr) (features ++ ["margin_per_hour"]) /\
    print_characteristics stable_sorter orders_enriched = Ok lines /\
    lines = map (fun item => describe (fst item) (snd item))
              (filter not_target corr) /\
    Permutation (map feature lines) features /\
    ~ In "margin_per_hour" (map feature lines) /\
    (forall l, In l lines ->
               exists xs, numeric orders_enriched (feature l) = Ok xs /\
                          value l = pearson xs mph) /\
    descending lines /\
    (forall item, In item corr ->
                  exists xs, numeric orders_enriched (fst item) = Ok xs /\
                             snd item = pearson xs mph) /\
    In ("margin_per_hour", pearson mph mph) corr /\
    series_descending corr.
Proof.
  apply (margin_ranking_descending stable_sorter orders_enriched
           (map (fun n => (n, column orders_enriched n))
              (features ++ ["margin_per_hour"]))).
  reflexivity.
Defined.

(** The report of the sample with two equal columns, under the second
    sorting routine: 'risk (in percent)' comes before 'profit'. *)
Lemma tied_report :
  exists a b c rest,
    print_characteristics reversing_sorter tied_enriched
    = Ok (a :: b :: rest) /\
    feature a = "risk (in percent)" /\ feature b = "profit" /\
    value a = Some c /\ value b = Some c.
Proof.
  destruct (print_characteristics reversing_sorter tied_enriched)
    as [lines | |] eqn:E; vm_compute in E; try discriminate.
  injection E as <-.
  do 4 eexists. repeat split.
Qed.

(** C5, as the specification has it, fails: with a sorting routine that
    meets the contract of the default [sort_values], two features of equal
    coefficient are reported against the order of the columns. *)
Lemma ties_not_in_column_order :
  ~ (forall (S : Sorter) (df : DataFrame) (lines : list ReportLine),
        print_characteristics S df = Ok lines -> natural_ties lines).
Proof.
  intros H.
  destruct tied_report as [a [b [c [rest [E [Fa [Fb [Va Vb]]]]]]]].
  specialize (H reversing_sorter tied_enriched _ E 0%nat 1%nat a b c c).
  rewrite Fa, Fb in H.
  assert (L : (3 < 2)%nat); [| lia].
  apply H; auto.
Qed.

(** ** The regions of the five labels *)

Ltac decide_tests :=
  rewrite ?Zgeb_ge, ?Zgeb_lt, ?Z.leb_le, ?Z.leb_gt, ?Qle_bool_iff,
    ?Qle_bool_false in *.

Ltac q_absurd :=
  match goal with
  | H1 : (?a < ?b)%Q, H2 : (?b <= ?a)%Q |- _ =>
      exfalso; exact (Qlt_not_le _ _ H1 H2)
  | H1 : (?a < ?b)%Q, H2 : (?b < ?c)%Q, H3 : (?c <= ?a)%Q |- _ =>
      exfalso; exact (Qlt_not_le _ _ (Qlt_trans _ _ _ H1 H2) H3)
  | H1 : (?a <= ?b)%Q, H2 : (?b < ?c)%Q, H3 : (?c <= ?a)%Q |- _ =>
      exfalso; exact (Qlt_not_le _ _ (Qle_lt_trans _ _ _ H1 H2) H3)
  end.

(** Each label is printed on a region of its own: the order of the rules
    only matters where a client of gain 6 or more is risky, and the rule of
    the unprofitable but stable client is never shadowed. *)
Theorem label_regions (gain risk : Z) (variance : Q) :
  (classify gain risk variance = "Profitable but risky" <->
   gain >= 6 /\ (risk >= 6 \/ (60 <= variance)%Q)) /\
  (classify gain risk variance = "Unprofitable but stable" <->
   gain <= 4 /\ risk <= 4 /\ (variance <= 40)%Q) /\
  (classify gain risk variance = "Strong client" <->
   gain >= 6 /\ risk <= 5 /\ (variance < 60)%Q) /\
  (classify gain risk variance = "Risk exposure" <->
   gain <= 5 /\ (risk >= 6 \/ (60 <= variance)%Q)) /\
  (classify gain risk variance = "Neutral" <->
   gain <= 5 /\ risk <= 5 /\ (variance < 60)%Q /\
   (gain = 5 \/ risk = 5 \/ (40 < variance)%Q)).
Proof.
  unfold classify, Qge_bool.
  destruct (gain >=? 6) eqn:G6;
    destruct (risk >=? 6) eqn:R6;
    destruct (Qle_bool 60 variance) eqn:V60;
    destruct (gain <=? 4) eqn:G4;
    destruct (risk <=? 4) eqn:R4;
    destruct (Qle_bool variance 40) eqn:V40; simpl;
    decide_tests;
    repeat split; intros;
    repeat match goal with
           | H : _ /\ _ |- _ => destruct H
           | H : _ \/ _ |- _ => destruct H
           end;
    try discriminate; try reflexivity; try lia; try assumption;
    try q_absurd;
    try (left; lia); try (right; assumption);
    try (right; left; lia); try (right; right; assumption);
    try (exfalso; lra).
Qed.

(** ** The values of the derived columns *)

Lemma numeric_getitem (df : DataFrame) (name : string) (xs : list Q) :
  numeric df name = Ok xs -> getitem df name = Ok (map Num xs).
Proof.
  unfold numeric. destruct (getitem df name) as [s | |]; simpl;
    try discriminate.
  intros H. apply finite_Ok in H. subst s. reflexivity.
Qed.

Lemma getitem_numeric (df : DataFrame) (name : string) (xs : list Q) :
  getitem df name = Ok (map Num xs) -> numeric df name = Ok xs.
Proof. unfold numeric. intros ->. simpl. apply finite_map_Num. Qed.

Lemma getitem_absent (df : DataFrame) (name : string) :
  has_column name df = false -> getitem df name = Raise (KeyError name).
Proof.
  unfold has_column, columns.
  induction df as [| [c s] df IH]; simpl; [reflexivity |].
  rewrite (String.eqb_sym name c).
  destruct (String.eqb c name); simpl; [discriminate | exact IH].
Qed.

Lemma getitem_present (df : DataFrame) (name : string) (s : Series) :
  getitem df name = Ok s -> has_column name df = true.
Proof.
  destruct (has_column name df) eqn:H; [reflexivity |].
  rewrite (getitem_absent _ _ H). discriminate.
Qed.

Lemma getitem_app_l (t u : DataFrame) (name : string) (s : Series) :
  getitem t name = Ok s -> getitem (t ++ u) name = Ok s.
Proof.
  induction t as [| [c x] t IH]; simpl; [discriminate |].
  destruct (String.eqb c name); [auto | exact IH].
Qed.

Lemma getitem_app_r (t u : DataFrame) (name : string) :
  has_column name t = false -> getitem (t ++ u) name = getitem u name.
Proof.
  unfold has_column, columns.
  induction t as [| [c x] t IH]; simpl; [reflexivity |].
  rewrite (String.eqb_sym name c).
  destruct (String.eqb c name); simpl; [discriminate | exact IH].
Qed.

Lemma series_sub_numeric (ps cs : list Q) :
  series_sub (map Num ps) (map Num cs) = Ok (map Num (differences ps cs)).
Proof.
  unfold series_sub, differences. revert cs.
  induction ps as [| p ps IH]; intros [| c cs]; simpl; try reflexivity.
  rewrite IH. reflexivity.
Qed.

Lemma series_div_numeric (ms ts : list Q) :
  series_div (map Num ms) (map Num ts) = Ok (quotient_cells ms ts).
Proof.
  unfold series_div, quotient_cells. revert ts.
  induction ms as [| m ms IH]; intros [| t ts]; simpl; try reflexivity.
  rewrite IH. unfold quotient_cell.
  destruct (Qeq_bool t 0); [destruct (Qcompare m 0) |]; reflexivity.
Qed.

Lemma quotient_cells_nonzero (ms ts : list Q) :
  Forall (fun t => ~ (t == 0)%Q) ts ->
  quotient_cells ms ts = map Num (quotients ms ts).
Proof.
  unfold quotient_cells, quotients. intros F. revert ms.
  induction F as [| t ts Ht F IH]; intros [| m ms]; simpl; try reflexivity.
  rewrite IH. unfold quotient_cell.
  destruct (Qeq_bool t 0) eqn:E; [| reflexivity].
  apply Qeq_bool_iff in E. contradiction.
Qed.

Lemma init_enrich (df : ref) (h : heap) :
  Analyzer.__init__ df h =
  (match fst (enrich (nth df h [])) with
   | Ok _ => Ok (Analyzer.mk (length h))
   | Raise e => Raise e
   | NonFinite => NonFinite
   end, h ++ [snd (enrich (nth df h []))]).
Proof.
  unfold Analyzer.__init__, mbind, deref, alloc, ret.
  rewrite prepare_columns_enrich. simpl Analyzer.order_df.
  rewrite nth_middle, replace_last.
  destruct (fst (enrich (nth df h []))); reflexivity.
Qed.

(** The enrichment of a table that has the three numeric input columns and
    neither derived column. *)
Lemma enrich_numeric (t : DataFrame) (ps cs ts : list Q) :
  has_column "contribution_margin" t = false ->
  has_column "margin_per_hour" t = false ->
  numeric t "profit" = Ok ps ->
  numeric t "costs" = Ok cs ->
  numeric t "processing_time_hr" = Ok ts ->
  enrich t =
  (Ok tt,
   t ++ [("contribution_margin", map Num (differences ps cs));
         ("margin_per_hour", quotient_cells (differences ps cs) ts)]).
Proof.
  intros C M P K T.
  apply numeric_getitem in P, K, T.
  unfold enrich, add_column. rewrite C.
  unfold contribution_margin. rewrite P, K. simpl bind.
  rewrite series_sub_numeric, (setitem_absent _ _ _ C).
  match goal with
  | |- context [has_column "margin_per_hour" ?x] => set (t1 := x)
  end.
  assert (M1 : has_column "margin_per_hour" t1 = false).
  { unfold t1. rewrite has_column_app, M. reflexivity. }
  rewrite M1. unfold margin_per_hour.
  assert (G : getitem t1 "contribution_margin"
              = Ok (map Num (differences ps cs))).
  { unfold t1. rewrite (getitem_app_r _ _ _ C). reflexivity. }
  rewrite G. unfold t1 at 1. rewrite (getitem_app_l _ _ _ _ T). simpl bind.
  rewrite series_div_numeric, (setitem_absent _ _ _ M1).
  unfold t1. rewrite <- app_assoc. reflexivity.
Qed.

Lemma differences_length (ps cs : list Q) :
  length ps = length cs -> length (differences ps cs) = length ps.
Proof.
  unfold differences. intros E.
  rewrite length_map, length_combine, <- E. apply Nat.min_id.
Qed.

Lemma quotient_cells_length (ms ts : list Q) :
  length ms = length ts -> length (quotient_cells ms ts) = length ms.
Proof.
  unfold quotient_cells. intros E.
  rewrite length_map, length_combine, <- E. apply Nat.min_id.
Qed.

Lemma nrows_app (t u : DataFrame) : t <> [] -> nrows (t ++ u) = nrows t.
Proof. destruct t as [| [c s] t]; [contradiction | reflexivity]. Qed.

Lemma has_column_In (name : string) (t : DataFrame) :
  has_column name t = false -> ~ In name (columns t).
Proof.
  unfold has_column. intros H I.
  assert (E : existsb (String.eqb name) (columns t) = true).
  { apply existsb_exists. exists name. split; [exact I | apply String.eqb_refl]. }
  congruence.
Qed.

(** The enriched table is well formed when the raw one is. *)
Lemma enriched_wf (t : DataFrame) (ps cs ts : list Q) :
  wf t ->
  has_column "contribution_margin" t = false ->
  has_column "margin_per_hour" t = false ->
  numeric t "profit" = Ok ps ->
  numeric t "costs" = Ok cs ->
  numeric t "processing_time_hr" = Ok ts ->
  wf (t ++ [("contribution_margin", map Num (differences ps cs));
            ("margin_per_hour", quotient_cells (differences ps cs) ts)]).
Proof.
  intros W C M P K T.
  pose proof (numeric_length _ _ _ W P) as Lp.
  pose proof (numeric_length _ _ _ W K) as Lk.
  pose proof (numeric_length _ _ _ W T) as Lt.
  assert (NE : t <> []) by (intros ->; discriminate P).
  assert (Ld : length (differences ps cs) = nrows t).
  { rewrite differences_length; congruence. }
  destruct W as [ND F]. split.
  - unfold columns. rewrite map_app. apply NoDup_app; [exact ND | |].
    + simpl. repeat constructor; simpl; intuition discriminate.
    + intros a Ia [<- | [<- | []]];
        [apply (has_column_In _ _ C) | apply (has_column_In _ _ M)]; exact Ia.
  - rewrite (nrows_app _ _ NE). apply Forall_app. split; [exact F |].
    repeat constructor; simpl.
    + rewrite length_map. exact Ld.
    + rewrite quotient_cells_length; congruence.
Qed.

Lemma nonzero_all (ts : list Q) :
  forallb (fun t => negb (Qeq_bool t 0)) ts = true ->
  Forall (fun t => ~ (t == 0)%Q) ts.
Proof.
  rewrite forallb_forall, Forall_forall. intros H t I E.
  specialize (H t I). apply Qeq_bool_iff in E. rewrite E in H. discriminate.
Qed.

Lemma nth_error_combine {A B : Type} (l : list A) (l' : list B) (i : nat)
  (a : A) (b : B) :
  nth_error l i = Some a -> nth_error l' i = Some b ->
  nth_error (combine l l') i = Some (a, b).
Proof.
  revert l' i. induction l as [| x l IH]; intros [| y l'] [| i]; simpl;
    try discriminate.
  - intros H1 H2. injection H1 as ->. injection H2 as ->. reflexivity.
  - apply IH.
Qed.

(** With processing times that are not zero, the analyzer's table keeps
    every column it had and gains the columns contribution_margin and
    margin_per_hour, in this order, with one finite number per row; on whole
    numbers the contribution margin is profit - costs, row by row. *)
Theorem derived_columns_added (df : ref) (h : heap) (ps cs ts : list Q) :
  wf (nth df h []) ->
  has_column "contribution_margin" (nth df h []) = false ->
  has_column "margin_per_hour" (nth df h []) = false ->
  numeric (nth df h []) "profit" = Ok ps ->
  numeric (nth df h []) "costs" = Ok cs ->
  numeric (nth df h []) "processing_time_hr" = Ok ts ->
  Forall (fun t => ~ (t == 0)%Q) ts ->
  exists t' cm mph,
    Analyzer.__init__ df h = (Ok (Analyzer.mk (length h)), h ++ [t']) /\
    wf t' /\
    columns t'
    = columns (nth df h []) ++ ["contribution_margin"; "margin_per_hour"] /\
    numeric t' "contribution_margin" = Ok cm /\
    numeric t' "margin_per_hour" = Ok mph /\
    length cm = nrows (nth df h []) /\
    length mph = nrows (nth df h []) /\
    (forall name s,
        getitem (nth df h []) name = Ok s -> getitem t' name = Ok s) /\
    (Forall whole ps -> Forall whole cs -> cm = differences ps cs).
Proof.
  intros W C M P K T NZ.
  set (t := nth df h []) in *.
  set (t' := t ++ [("contribution_margin", map Num (differences ps cs));
                   ("margin_per_hour",
                    quotient_cells (differences ps cs) ts)]).
  assert (W' : wf t') by (apply enriched_wf; assumption).
  assert (NE : t <> []) by (intros E; rewrite E in P; discriminate P).
  assert (Nc : numeric t' "contribution_margin" = Ok (differences ps cs)).
  { apply getitem_numeric. unfold t'.
    rewrite (getitem_app_r _ _ _ C). reflexivity. }
  assert (Nm : numeric t' "margin_per_hour"
               = Ok (quotients (differences ps cs) ts)).
  { apply getitem_numeric. unfold t'.
    rewrite (quotient_cells_nonzero _ _ NZ), (getitem_app_r _ _ _ M).
    reflexivity. }
  exists t', (differences ps cs), (quotients (differences ps cs) ts).
  split; [| split; [exact W' | split; [| split; [exact Nc | split;
    [exact Nm | split; [| split; [| split]]]]]]].
  - rewrite init_enrich. fold t.
    rewrite (enrich_numeric t ps cs ts C M P K T). reflexivity.
  - unfold t', columns. rewrite map_app. reflexivity.
  - rewrite (numeric_length t' _ _ W' Nc). apply nrows_app, NE.
  - rewrite (numeric_length t' _ _ W' Nm). apply nrows_app, NE.
  - intros name s G. apply getitem_app_l, G.
  - reflexivity.
Qed.

Lemma derived_columns_added_witness :
  exists t' cm mph,
    Analyzer.__init__ 0%nat [orders]
    = (Ok (Analyzer.mk 1%nat), [orders] ++ [t']) /\
    wf t' /\
    columns t' = columns orders ++ ["contribution_margin"; "margin_per_hour"] /\
    numeric t' "contribution_margin" = Ok cm /\
    numeric t' "margin_per_hour" = Ok mph /\
    length cm = nrows orders /\
    length mph = nrows orders /\
    (forall name s, getitem orders name = Ok s -> getitem t' name = Ok s) /\
    (Forall whole (column orders "profit") ->
     Forall whole (column orders "costs") ->
     cm = differences (column orders "profit") (column orders "costs")).
Proof.
  apply (derived_columns_added 0%nat [orders]
           (column orders "profit") (column orders "costs")
           (column orders "processing_time_hr")).
  - split; [repeat constructor; simpl; intuition discriminate
           | repeat constructor].
  - reflexivity.
  - reflexivity.
  - reflexivity.
  - reflexivity.
  - reflexivity.
  - apply nonzero_all. reflexivity.
Defined.

(** A processing time of zero raises nothing: the analyzer is built, and
    the margin per hour of such a row is NaN when its contribution margin
    is zero and an infinity of the margin's sign otherwise. *)
Theorem zero_processing_time (df : ref) (h : heap) (ps cs ts : list Q) :
  has_column "contribution_margin" (nth df h []) = false ->
  has_column "margin_per_hour" (nth df h []) = false ->
  numeric (nth df h []) "profit" = Ok ps ->
  numeric (nth df h []) "costs" = Ok cs ->
  numeric (nth df h []) "processing_time_hr" = Ok ts ->
  exists t' col,
    Analyzer.__init__ df h = (Ok (Analyzer.mk (length h)), h ++ [t']) /\
    getitem t' "margin_per_hour" = Ok col /\
    forall i p c t,
      nth_error ps i = Some p -> nth_error cs i = Some c ->
      nth_error ts i = Some t -> (t == 0)%Q ->
      ((p == c)%Q -> nth_error col i = Some NaN) /\
      ((c < p)%Q -> nth_error col i = Some (Inf false)) /\
      ((p < c)%Q -> nth_error col i = Some (Inf true)).
Proof.
  intros C M P K T.
  eexists. exists (quotient_cells (differences ps cs) ts).
  rewrite init_enrich, (enrich_numeric _ ps cs ts C M P K T).
  simpl fst. simpl snd.
  split; [reflexivity | split].
  - rewrite (getitem_app_r _ _ _ M). reflexivity.
  - intros i p c t Hp Hc Ht Z.
    assert (E : nth_error (quotient_cells (differences ps cs) ts) i
                = Some (quotient_cell (p - c) t)).
    { unfold quotient_cells, differences.
      rewrite nth_error_map.
      rewrite (nth_error_combine _ _ i (p - c)%Q t); [reflexivity | | exact Ht].
      rewrite nth_error_map, (nth_error_combine _ _ i p c Hp Hc). reflexivity. }
    rewrite E. unfold quotient_cell.
    apply Qeq_bool_iff in Z. rewrite Z.
    split; [| split]; intros H.
    + assert (Q : Qcompare (p - c) 0 = Eq)
        by (apply (proj1 (Qeq_alt _ _)); lra).
      rewrite Q. reflexivity.
    + assert (Q : Qcompare (p - c) 0 = Gt)
        by (apply (proj1 (Qgt_alt _ _)); lra).
      rewrite Q. reflexivity.
    + assert (Q : Qcompare (p - c) 0 = Lt)
        by (apply (proj1 (Qlt_alt _ _)); lra).
      rewrite Q. reflexivity.
Qed.

Lemma zero_processing_time_witness :
  exists t' col,
    Analyzer.__init__ 0%nat [stalled_orders]
    = (Ok (Analyzer.mk 1%nat), [stalled_orders] ++ [t']) /\
    getitem t' "margin_per_hour" = Ok col /\
    nth_error col 0 = Some (Inf false) /\
    nth_error col 1 = Some NaN /\
    nth_error col 2 = Some (Inf true).
Proof.
  destruct (zero_processing_time 0%nat [stalled_orders]
              (column stalled_orders "profit") (column stalled_orders "costs")
              (column stalled_orders "processing_time_hr")
              eq_refl eq_refl eq_refl eq_refl eq_refl)
    as [t' [col [I [G H]]]].
  exists t', col. split; [exact I | split; [exact G |]].
  split; [| split].
  - exact (proj1 (proj2 (H 0%nat 100%Q 20%Q 0%Q eq_refl eq_refl eq_refl
                           eq_refl)) eq_refl).
  - exact (proj1 (H 1%nat 20%Q 20%Q 0%Q eq_refl eq_refl eq_refl eq_refl)
             eq_refl).
  - exact (proj2 (proj2 (H 2%nat 5%Q 20%Q 0%Q eq_refl eq_refl eq_refl
                           eq_refl)) eq_refl).
Defined.

(** ** Missing input columns *)

Lemma getitem_of_present (df : DataFrame) (name : string) :
  has_column name df = true -> exists s, getitem df name = Ok s.
Proof.
  unfold has_column, columns.
  induction df as [| [c s] df IH]; simpl; [discriminate |].
  rewrite (String.eqb_sym name c).
  destruct (String.eqb c name); simpl; [exists s; reflexivity | exact IH].
Qed.

(** Which column the enrichment misses first, and what it leaves behind:
    'profit' is looked up before 'costs', both only when contribution_margin
    is to be computed; when 'processing_time_hr' is missing the KeyError
    comes after contribution_margin has been added to the table. *)
Theorem prepare_columns_missing_inputs (self : Analyzer.t) (h : heap) :
  (has_column "contribution_margin" (nth (Analyzer.order_df self) h []) = false ->
   has_column "profit" (nth (Analyzer.order_df self) h []) = false ->
   Analyzer._prepare_columns self h = (Raise (KeyError "profit"), h)) /\
  (has_column "contribution_margin" (nth (Analyzer.order_df self) h []) = false ->
   has_column "profit" (nth (Analyzer.order_df self) h []) = true ->
   has_column "costs" (nth (Analyzer.order_df self) h []) = false ->
   Analyzer._prepare_columns self h = (Raise (KeyError "costs"), h)) /\
  (has_column "contribution_margin" (nth (Analyzer.order_df self) h []) = true ->
   has_column "margin_per_hour" (nth (Analyzer.order_df self) h []) = false ->
   has_column "processing_time_hr" (nth (Analyzer.order_df self) h []) = false ->
   Analyzer._prepare_columns self h
   = (Raise (KeyError "processing_time_hr"), h)) /\
  (forall ps cs,
      has_column "contribution_margin" (nth (Analyzer.order_df self) h []) = false ->
      has_column "margin_per_hour" (nth (Analyzer.order_df self) h []) = false ->
      numeric (nth (Analyzer.order_df self) h []) "profit" = Ok ps ->
      numeric (nth (Analyzer.order_df self) h []) "costs" = Ok cs ->
      has_column "processing_time_hr" (nth (Analyzer.order_df self) h []) = false ->
      Analyzer._prepare_columns self h
      = (Raise (KeyError "processing_time_hr"),
         replace (Analyzer.order_df self)
           (nth (Analyzer.order_df self) h []
            ++ [("contribution_margin", map Num (differences ps cs))]) h)).
Proof.
  rewrite prepare_columns_enrich.
  set (t := nth (Analyzer.order_df self) h []).
  split; [| split; [| split]].
  - intros C P. unfold enrich, add_column, contribution_margin.
    rewrite C, (getitem_absent _ _ P). simpl. unfold t.
    rewrite replace_nth. reflexivity.
  - intros C P K. destruct (getitem_of_present _ _ P) as [p Gp].
    unfold enrich, add_column, contribution_margin.
    rewrite C, Gp, (getitem_absent _ _ K). simpl. unfold t.
    rewrite replace_nth. reflexivity.
  - intros C M T. destruct (getitem_of_present _ _ C) as [cm Gc].
    unfold enrich, add_column, margin_per_hour.
    rewrite C, M, Gc, (getitem_absent _ _ T). simpl. unfold t.
    rewrite replace_nth. reflexivity.
  - intros ps cs C M P K T.
    apply numeric_getitem in P, K.
    unfold enrich, add_column. rewrite C.
    unfold contribution_margin. rewrite P, K. simpl bind.
    rewrite series_sub_numeric, (setitem_absent _ _ _ C).
    match goal with
    | |- context [has_column "margin_per_hour" ?x] => set (t1 := x)
    end.
    assert (M1 : has_column "margin_per_hour" t1 = false).
    { unfold t1. rewrite has_column_app, M. reflexivity. }
    assert (T1 : has_column "processing_time_hr" t1 = false).
    { unfold t1. rewrite has_column_app, T. reflexivity. }
    assert (G : getitem t1 "contribution_margin"
                = Ok (map Num (differences ps cs))).
    { unfold t1. rewrite (getitem_app_r _ _ _ C). reflexivity. }
    rewrite M1. unfold margin_per_hour.
    rewrite G, (getitem_absent _ _ T1). reflexivity.
Qed.

Lemma prepare_columns_missing_inputs_witness :
  Analyzer._prepare_columns (Analyzer.mk 0%nat) [unpriced_orders]
  = (Raise (KeyError "profit"), [unpriced_orders]) /\
  Analyzer._prepare_columns (Analyzer.mk 0%nat) [untimed_orders]
  = (Raise (KeyError "processing_time_hr"),
     [untimed_orders ++ [("contribution_margin", nums [80; 0])]]).
Proof.
  split.
  - apply (proj1 (prepare_columns_missing_inputs (Analyzer.mk 0%nat)
                    [unpriced_orders])); reflexivity.
  - apply (proj2 (proj2 (proj2 (prepare_columns_missing_inputs
                                  (Analyzer.mk 0%nat) [untimed_orders])))
             [100; 20]%Q [20; 20]%Q); reflexivity.
Defined.

(** ** Client groups *)

Lemma cell_eqb_sym (a b : cell) : cell_eqb a b = cell_eqb b a.
Proof.
  destruct a, b; simpl; try reflexivity.
  - apply Qeq_bool_comm.
  - destruct negative, negative0; reflexivity.
  - apply String.eqb_sym.
Qed.

Lemma cell_eqb_trans (a b c : cell) :
  cell_eqb a b = true -> cell_eqb b c = true -> cell_eqb a c = true.
Proof.
  destruct a, b, c; simpl; try discriminate.
  - apply Qeq_bool_trans.
  - destruct negative, negative0, negative1; auto.
  - rewrite !String.eqb_eq. congruence.
Qed.

Lemma unique_representative (l : list cell) (k : cell) :
  Forall (fun c => notna c = true) l -> In k l ->
  exists k', In k' (unique l) /\ cell_eqb k' k = true.
Proof.
  induction 1 as [| x r Hx F IH]; simpl; [tauto |].
  intros [-> | I].
  - exists k. split; [left; reflexivity | apply cell_eqb_refl, Hx].
  - destruct (IH I) as [k' [I' E]].
    destruct (cell_eqb x k') eqn:X.
    + exists x. split; [left; reflexivity |].
      eapply cell_eqb_trans; eassumption.
    + exists k'. split; [| exact E].
      right. apply filter_In. split; [exact I' |]. rewrite X. reflexivity.
Qed.

Lemma unique_distinct (l : list cell) (k1 k2 : cell) :
  In k1 (unique l) -> In k2 (unique l) -> cell_eqb k1 k2 = true -> k1 = k2.
Proof.
  induction l as [| x r IH]; simpl; [tauto |].
  intros [<- | I1] [<- | I2] E; try reflexivity.
  - apply filter_In in I2. destruct I2 as [_ N]. rewrite E in N. discriminate.
  - apply filter_In in I1. destruct I1 as [_ N].
    rewrite cell_eqb_sym, E in N. discriminate.
  - apply filter_In in I1, I2. apply IH; tauto.
Qed.

Lemma rows_of_In (key : cell) (keys : Series) (i : nat) :
  In i (rows_of key keys) <->
  exists k, nth_error keys i = Some k /\ cell_eqb key k = true.
Proof.
  unfold rows_of. rewrite nonzero_In, nth_error_map. split.
  - destruct (nth_error keys i) as [k |]; simpl; [| discriminate].
    intros H. injection H as H. exists k. auto.
  - intros [k [-> E]]. simpl. rewrite E. reflexivity.
Qed.

(** Every row whose key is not NaN lies in exactly one group, a row whose
    key is NaN in none; a group is the selection of the rows of its key
    and is never empty. *)
Theorem groups_partition_rows (df : DataFrame) (by_ : string) (keys : Series)
  (groups : list (cell * DataFrame)) :
  getitem df by_ = Ok keys ->
  groupby df by_ = Ok groups ->
  (forall i k,
      nth_error keys i = Some k -> notna k = true ->
      exists g, In g groups /\ In i (rows_of (fst g) keys) /\
                forall g', In g' groups -> In i (rows_of (fst g') keys) ->
                           g' = g) /\
  (forall i k,
      nth_error keys i = Some k -> notna k = false ->
      forall g, In g groups -> ~ In i (rows_of (fst g) keys)) /\
  (forall g, In g groups ->
             snd g = take (rows_of (fst g) keys) df /\
             rows_of (fst g) keys <> []).
Proof.
  intros K G. unfold groupby in G. rewrite K in G. simpl in G.
  injection G as <-.
  set (uniq := unique (filter notna keys)).
  assert (Fn : Forall (fun c => notna c = true) (filter notna keys)).
  { apply Forall_forall. intros c I. apply filter_In in I. apply I. }
  split; [| split].
  - intros i k E N.
    assert (I : In k (filter notna keys)).
    { apply filter_In. split; [eapply nth_error_In; eassumption | exact N]. }
    destruct (unique_representative _ _ Fn I) as [k' [I' E']].
    exists (k', take (rows_of k' keys) df). split; [| split].
    + apply in_map_iff. exists k'. auto.
    + apply rows_of_In. exists k. auto.
    + intros g' Ig' Ri. apply in_map_iff in Ig'.
      destruct Ig' as [k'' [<- I'']]. simpl in Ri.
      apply rows_of_In in Ri. destruct Ri as [k0 [E0 Eq0]].
      rewrite E in E0. injection E0 as <-.
      assert (k'' = k').
      { apply (unique_distinct (filter notna keys)); try assumption.
        eapply cell_eqb_trans; [exact Eq0 |].
        rewrite cell_eqb_sym. exact E'. }
      subst k''. reflexivity.
  - intros i k E N g Ig Ri. apply rows_of_In in Ri.
    destruct Ri as [k0 [E0 Eq0]]. rewrite E in E0. injection E0 as <-.
    destruct k; try discriminate. destruct (fst g); discriminate.
  - intros g Ig. apply in_map_iff in Ig. destruct Ig as [k' [<- I']].
    simpl. split; [reflexivity |].
    apply unique_In, filter_In in I'. destruct I' as [I' N].
    destruct (In_nth_error _ _ I') as [i Hi].
    intros Z. assert (I : In i (rows_of k' keys)).
    { apply rows_of_In. exists k'. split; [exact Hi | apply cell_eqb_refl, N]. }
    rewrite Z in I. destruct I.
Qed.

Lemma groups_partition_rows_witness :
  (exists g, In g [(Str "A", client_A); (Str "B", client_B)] /\
             In 2%nat (rows_of (fst g) (map Str ["A"; "B"; "A"; "A"; "B"])) /\
             forall g', In g' [(Str "A", client_A); (Str "B", client_B)] ->
                        In 2%nat (rows_of (fst g')
                                    (map Str ["A"; "B"; "A"; "A"; "B"])) ->
                        g' = g).
Proof.
  apply (proj1 (groups_partition_rows clients_table "customer_id"
                  (map Str ["A"; "B"; "A"; "A"; "B"])
                  [(Str "A", client_A); (Str "B", client_B)]
                  eq_refl eq_refl) 2%nat (Str "A")); reflexivity.
Defined.

(** ** Client records *)

Lemma client_record_Ok (cdf : DataFrame) (rs ms : list Q) :
  numeric cdf "risk (in percent)" = Ok rs -> rs <> [] ->
  numeric cdf "margin_per_hour" = Ok ms -> ms <> [] ->
  exists d,
    client_record cdf = Ok d /\
    _calculate_risk cdf = Ok (risk d, risk_variance d) /\
    _calculate_gain cdf = Ok (gain d) /\
    mean ms = Some (avg_margin_per_hour d) /\
    1 <= RISK.value (risk d) <= 10 /\ 1 <= GAIN.value (gain d) <= 10.
Proof.
  intros Nr NEr Nm NEm.
  destruct (calculate_risk_eq _ _ Nr NEr) as [variance [_ ER]].
  destruct (calculate_gain_eq _ _ Nm NEm) as [p10 [p90 [_ [_ EG]]]].
  unfold client_record. rewrite ER, EG, Nm. simpl bind.
  destruct ms as [| m ms]; [contradiction |].
  cbv beta iota delta [mean].
  eexists. split; [reflexivity |]. simpl.
  split; [reflexivity | split; [reflexivity | split; [reflexivity |]]].
  split; [apply clamp_range |].
  destruct (Qeq_bool p90 p10); [lia | apply clamp_range].
Qed.

Lemma for_each_client_Ok (P : cell -> ClientDiag -> Prop)
  (groups : list (cell * DataFrame)) :
  (forall g, In g groups ->
             exists d, client_record (snd g) = Ok d /\ P (fst g) d) ->
  exists entries,
    for_each_client groups = Ok entries /\
    map fst entries = map fst groups /\
    forall k d, In (k, d) entries -> P k d.
Proof.
  induction groups as [| [k cdf] groups IH]; intros H; simpl.
  - exists []. split; [reflexivity | split; [reflexivity | intros ? ? []]].
  - destruct (H (k, cdf) (or_introl eq_refl)) as [d [E Pd]]. simpl in E, Pd.
    destruct IH as [entries [F [M A]]].
    { intros g I. apply H. right. exact I. }
    rewrite E, F. simpl.
    exists ((k, d) :: entries).
    split; [reflexivity | split; [simpl; rewrite M; reflexivity |]].
    intros k0 d0 [I | I]; [injection I as <- <-; exact Pd | apply A, I].
Qed.

(** On a well-formed table with a customer column and numeric risk and
    margin columns the client analysis succeeds with one record per
    distinct customer id (NaN left out), in whatever order the groups are
    handed out; the record of a client holds the risk, variance and gain
    computed from that client's rows and the mean of the client's
    margins. *)
Theorem client_records (df : DataFrame) (keys : Series) (risks margins : list Q) :
  wf df ->
  getitem df "customer_id" = Ok keys ->
  numeric df "risk (in percent)" = Ok risks ->
  numeric df "margin_per_hour" = Ok margins ->
  exists entries,
    analyze_client df = Ok entries /\
    Permutation (map fst entries) (unique (filter notna keys)) /\
    forall k d,
      In (k, d) entries ->
      _calculate_risk (take (rows_of k keys) df) = Ok (risk d, risk_variance d) /\
      _calculate_gain (take (rows_of k keys) df) = Ok (gain d) /\
      mean (select (rows_of k keys) margins) = Some (avg_margin_per_hour d) /\
      1 <= RISK.value (risk d) <= 10 /\ 1 <= GAIN.value (gain d) <= 10.
Proof.
  intros W K Nr Nm.
  assert (G : groupby df "customer_id"
              = Ok (map (fun k => (k, take (rows_of k keys) df))
                      (unique (filter notna keys)))).
  { unfold groupby. rewrite K. reflexivity. }
  unfold analyze_client. rewrite G. simpl bind.
  set (groups := map (fun k => (k, take (rows_of k keys) df))
                   (unique (filter notna keys))) in *.
  destruct (for_each_client_Ok
              (fun k d =>
                 _calculate_risk (take (rows_of k keys) df)
                 = Ok (risk d, risk_variance d) /\
                 _calculate_gain (take (rows_of k keys) df) = Ok (gain d) /\
                 mean (select (rows_of k keys) margins)
                 = Some (avg_margin_per_hour d) /\
                 1 <= RISK.value (risk d) <= 10 /\
                 1 <= GAIN.value (gain d) <= 10)
              groups) as [entries [F [M A]]].
  - intros [k cdf] I. simpl.
    destruct (groupby_group _ _ _ _ _ _ _ W G I Nr)
      as [keys1 [rs [K1 [C1 [_ [Nrs NEr]]]]]].
    destruct (groupby_group _ _ _ _ _ _ _ W G I Nm)
      as [keys2 [ms [K2 [_ [Ems [Nms NEm]]]]]].
    rewrite K in K1, K2. injection K1 as <-. injection K2 as <-.
    destruct (client_record_Ok _ _ _ Nrs NEr Nms NEm) as [d [E [R [Gn [Mn B]]]]].
    exists d. subst cdf ms. auto.
  - exists entries. split; [exact F | split; [| exact A]].
    rewrite M. unfold groups. rewrite map_map. simpl. rewrite map_id.
    apply Permutation_refl.
Qed.

Lemma client_records_witness :
  exists entries,
    analyze_client clients_table = Ok entries /\
    Permutation (map fst entries) [Str "A"; Str "B"] /\
    forall k d,
      In (k, d) entries ->
      _calculate_risk
        (take (rows_of k (map Str ["A"; "B"; "A"; "A"; "B"])) clients_table)
      = Ok (risk d, risk_variance d) /\
      _calculate_gain
        (take (rows_of k (map Str ["A"; "B"; "A"; "A"; "B"])) clients_table)
      = Ok (gain d) /\
      mean (select (rows_of k (map Str ["A"; "B"; "A"; "A"; "B"]))
              [0; 7; 1; 2; 7]%Q)
      = Some (avg_margin_per_hour d) /\
      1 <= RISK.value (risk d) <= 10 /\ 1 <= GAIN.value (gain d) <= 10.
Proof.
  apply (client_records clients_table (map Str ["A"; "B"; "A"; "A"; "B"])
           [0; 100; 0; 0; 20]%Q [0; 7; 1; 2; 7]%Q clients_table_wf);
    reflexivity.
Defined.

(** ** Risk variance *)

Lemma Qlen_cons (x : Q) (xs : list Q) : (Qlen (x :: xs) == Qlen xs + 1)%Q.
Proof.
  unfold Qlen. simpl length. rewrite Nat2Z.inj_succ, <- Z.add_1_r.
  rewrite inject_Z_plus. reflexivity.
Qed.

Lemma Qlen_nonneg (xs : list Q) : (0 <= Qlen xs)%Q.
Proof.
  unfold Qlen. change 0%Q with (inject_Z 0). rewrite <- Zle_Qle. lia.
Qed.

Lemma Qlen_pos (xs : list Q) : xs <> [] -> (0 < Qlen xs)%Q.
Proof.
  destruct xs as [| x xs]; [contradiction | intros _].
  rewrite Qlen_cons. pose proof (Qlen_nonneg xs). lra.
Qed.

Lemma Qsum_constant (xs : list Q) (x : Q) :
  Forall (fun y => (y == x)%Q) xs -> (Qsum xs == Qlen xs * x)%Q.
Proof.
  induction 1 as [| y xs E F IH].
  - unfold Qlen; simpl. ring.
  - rewrite Qlen_cons. simpl. rewrite IH, E. ring.
Qed.

Lemma sq_dev_zero (m : Q) (xs : list Q) :
  (sq_dev m xs == 0)%Q <-> Forall (fun y => (y == m)%Q) xs.
Proof.
  unfold sq_dev. induction xs as [| y xs IH]; simpl.
  - split; [constructor | reflexivity].
  - pose proof (Qsquare_nonneg (y - m)) as S.
    pose proof (sq_dev_nonneg m xs) as R. unfold sq_dev in R.
    split.
    + intros Z.
      assert (Zy : ((y - m) * (y - m) == 0)%Q /\
                   (Qsum (map (fun x => (x - m) * (x - m)) xs) == 0)%Q).
      { revert Z S R.
        generalize ((y - m) * (y - m))%Q
          (Qsum (map (fun x => (x - m) * (x - m))%Q xs)).
        intros a s Z S R. split; lra. }
      destruct Zy as [Zy Zr].
      constructor; [| apply IH, Zr].
      clear - Zy. apply Qmult_integral in Zy. destruct Zy; lra.
    + intros F. inversion F as [| ? ? E F']; subst.
      apply IH in F'. rewrite F'. clear - E.
      setoid_replace (y - m)%Q with 0%Q by lra. ring.
Qed.

(** The variance a client's risk computation returns is never negative,
    and it is zero for a client whose orders all carry the same whole-number
    risk (the sum of such a column is exact, and so is its mean). *)
Theorem risk_variance_nonnegative (client_df : DataFrame) (xs : list Q) :
  numeric client_df "risk (in percent)" = Ok xs -> xs <> [] ->
  exists r variance,
    _calculate_risk client_df = Ok (r, variance) /\
    (0 <= variance)%Q /\
    forall k : Z,
      Forall (fun y => (y == inject_Z k)%Q) xs ->
      Z.abs k * Z.of_nat (length xs) <= 2 ^ 53 ->
      (variance == 0)%Q.
Proof.
  intros N NE.
  destruct (calculate_risk_eq _ _ N NE) as [variance [V E]].
  eexists. exists variance. split; [exact E |].
  unfold var0 in V. destruct xs as [| x0 xs0] eqn:X; [contradiction |].
  rewrite <- X in *. assert (M : mean xs = Some (Qsum xs / Qlen xs)%Q)
    by (rewrite X; reflexivity).
  rewrite M in V. injection V as <-.
  fold (sq_dev (Qsum xs / Qlen xs) xs).
  pose proof (Qlen_pos xs NE) as L.
  pose proof (sq_dev_nonneg (Qsum xs / Qlen xs) xs) as S.
  assert (I : (0 < / Qlen xs)%Q) by (apply Qinv_lt_0_compat, L).
  split.
  - unfold Qdiv. apply Qmult_le_0_compat; [exact S | apply Qlt_le_weak, I].
  - intros k F _.
    assert (Em : (Qsum xs / Qlen xs == inject_Z k)%Q).
    { rewrite (Qsum_constant xs _ F). field. lra. }
    assert (Z : (sq_dev (Qsum xs / Qlen xs) xs == 0)%Q).
    { apply sq_dev_zero. eapply Forall_impl; [| exact F].
      intros y Hy. cbv beta in Hy. rewrite Hy, Em. reflexivity. }
    rewrite Z. unfold Qdiv. ring.
Qed.

Lemma risk_variance_nonnegative_witness :
  exists r variance,
    _calculate_risk client_A = Ok (r, variance) /\
    (0 <= variance)%Q /\
    forall k : Z,
      Forall (fun y => (y == inject_Z k)%Q) [0; 0; 0]%Q ->
      Z.abs k * Z.of_nat (length [0; 0; 0]%Q) <= 2 ^ 53 ->
      (variance == 0)%Q.
Proof.
  apply (risk_variance_nonnegative client_A [0; 0; 0]%Q);
    [reflexivity | discriminate].
Defined.

(** ** The risk score grows with the mean risk *)

Lemma nearest_bounds (x : R) (n : Z) :
  nearest_integer x n -> (IZR n - 1 / 2 <= x <= IZR n + 1 / 2)%R.
Proof.
  unfold nearest_integer, Rabs.
  destruct (Rcase_abs (IZR n - x)); lra.
Qed.

Lemma py_round_mono (x y : R) : (x <= y)%R -> py_round x <= py_round y.
Proof.
  intros L. destruct (Z_lt_le_dec (py_round y) (py_round x)) as [G | G];
    [exfalso | exact G].
  pose proof (nearest_bounds _ _ (py_round_nearest x)) as Bx.
  pose proof (nearest_bounds _ _ (py_round_nearest y)) as By.
  assert (S : (IZR (py_round y) + 1 <= IZR (py_round x))%R).
  { rewrite <- (plus_IZR _ 1). apply IZR_le. lia. }
  assert (E : x = y) by lra.
  subst y. lia.
Qed.

Lemma clamp_mono (a b : Z) : a <= b -> clamp a 1 10 <= clamp b 1 10.
Proof.
  unfold clamp. intros L.
  destruct (a <? 1) eqn:A1; destruct (10 <? a) eqn:A10;
    destruct (b <? 1) eqn:B1; destruct (10 <? b) eqn:B10;
    rewrite ?Z.ltb_lt, ?Z.ltb_ge in *; lia.
Qed.

Lemma risk_curve_mono (a b : R) :
  (a <= b)%R -> (risk_curve a <= risk_curve b)%R.
Proof.
  intros L. unfold risk_curve.
  assert (E : (exp (- b / 20) <= exp (- a / 20))%R).
  { destruct L as [L | ->]; [| lra].
    left. apply exp_increasing. lra. }
  lra.
Qed.

Lemma risk_curve_lt_10 (a : R) : (risk_curve a < 10)%R.
Proof. unfold risk_curve. pose proof (exp_pos (- a / 20)). lra. Qed.

Lemma exp_double (a : R) : exp (a + a) = (exp a * exp a)%R.
Proof. apply exp_plus. Qed.

Lemma exp_3_gt_18 : (18 < exp 3)%R.
Proof.
  assert (E0 : (17 / 16 < exp (1 / 16))%R).
  { assert (H : (1 + 1 / 16 < exp (1 / 16))%R) by (apply exp_ineq1; lra). lra. }
  assert (E1 : (11289 / 10000 < exp (1 / 8))%R).
  { replace (exp (1 / 8)) with (exp (1 / 16 + 1 / 16)) by (f_equal; lra).
    rewrite exp_double. nra. }
  assert (E2 : (12744 / 10000 < exp (1 / 4))%R).
  { replace (exp (1 / 4)) with (exp (1 / 8 + 1 / 8)) by (f_equal; lra).
    rewrite exp_double. nra. }
  assert (E3 : (16240 / 10000 < exp (1 / 2))%R).
  { replace (exp (1 / 2)) with (exp (1 / 4 + 1 / 4)) by (f_equal; lra).
    rewrite exp_double. nra. }
  assert (E4 : (26373 / 10000 < exp 1)%R).
  { replace (exp 1) with (exp (1 / 2 + 1 / 2)) by (f_equal; lra).
    rewrite exp_double. nra. }
  assert (E5 : (69553 / 10000 < exp 2)%R).
  { replace (exp 2) with (exp (1 + 1)) by (f_equal; lra).
    rewrite exp_double. nra. }
  replace (exp 3) with (exp (2 + 1)) by (f_equal; lra).
  rewrite exp_plus. nra.
Qed.

Lemma risk_curve_60 (a : R) : (60 <= a)%R -> (9 + 1 / 2 < risk_curve a)%R.
Proof.
  intros L. pose proof (risk_curve_mono 60 a L) as M.
  assert (B : (9 + 1 / 2 < risk_curve 60)%R); [| lra].
  unfold risk_curve. replace (Ropp 60 / 20)%R with (Ropp 3) by lra.
  rewrite exp_Ropp. pose proof exp_3_gt_18 as H.
  assert (Q : (/ exp 3 < / 18)%R) by (apply Rinv_lt_contravar; nra).
  lra.
Qed.

Lemma risk_curve_nonpositive (a : R) : (a <= 0)%R -> (risk_curve a <= 1)%R.
Proof.
  intros L. pose proof (risk_curve_mono a 0 L) as M.
  rewrite risk_curve_0 in M. exact M.
Qed.

(** The risk score never falls when the mean risk grows; it is 1 for a mean
    risk of zero or less and 10 for a mean risk of 60 or more. *)
Theorem risk_score_monotone :
  (forall df1 df2 xs ys,
      numeric df1 "risk (in percent)" = Ok xs -> xs <> [] ->
      numeric df2 "risk (in percent)" = Ok ys -> ys <> [] ->
      (Qsum xs / Qlen xs <= Qsum ys / Qlen ys)%Q ->
      exists r1 v1 r2 v2,
        _calculate_risk df1 = Ok (r1, v1) /\
        _calculate_risk df2 = Ok (r2, v2) /\
        RISK.value r1 <= RISK.value r2) /\
  (forall df xs,
      numeric df "risk (in percent)" = Ok xs -> xs <> [] ->
      (Qsum xs / Qlen xs <= 0)%Q ->
      exists v, _calculate_risk df = Ok (RISK.mk 1, v)) /\
  (forall df xs,
      numeric df "risk (in percent)" = Ok xs -> xs <> [] ->
      (60 <= Qsum xs / Qlen xs)%Q ->
      exists v, _calculate_risk df = Ok (RISK.mk 10, v)).
Proof.
  split; [| split].
  - intros df1 df2 xs ys Nx NEx Ny NEy L.
    destruct (calculate_risk_eq _ _ Nx NEx) as [v1 [_ E1]].
    destruct (calculate_risk_eq _ _ Ny NEy) as [v2 [_ E2]].
    eexists _, v1, _, v2. split; [exact E1 | split; [exact E2 |]].
    simpl. apply clamp_mono, py_round_mono, risk_curve_mono, Qle_Rle, L.
  - intros df xs N NE L.
    destruct (calculate_risk_eq _ _ N NE) as [v [_ E]].
    exists v. rewrite E. do 2 f_equal.
    apply Qle_Rle in L. rewrite RMicromega.Q2R_0 in L.
    pose proof (py_round_mono _ _ (risk_curve_nonpositive _ L)) as M.
    rewrite (py_round_between 1 1) in M by lra.
    f_equal. unfold clamp.
    destruct (py_round (risk_curve (Q2R (Qsum xs / Qlen xs))) <? 1) eqn:A;
      [reflexivity |].
    apply Z.ltb_ge in A.
    destruct (10 <? py_round (risk_curve (Q2R (Qsum xs / Qlen xs)))) eqn:B;
      [apply Z.ltb_lt in B; lia | lia].
  - intros df xs N NE L.
    destruct (calculate_risk_eq _ _ N NE) as [v [_ E]].
    exists v. rewrite E. do 3 f_equal.
    apply Qle_Rle in L.
    assert (L' : (60 <= Q2R (Qsum xs / Qlen xs))%R).
    { replace 60%R with (Q2R 60); [exact L |]. unfold Q2R; simpl. lra. }
    pose proof (risk_curve_60 _ L') as Lo.
    pose proof (risk_curve_lt_10 (Q2R (Qsum xs / Qlen xs))) as Hi.
    rewrite (py_round_between _ 10) by lra. reflexivity.
Qed.

Lemma risk_score_monotone_witness :
  (exists r1 v1 r2 v2,
      _calculate_risk client_A = Ok (r1, v1) /\
      _calculate_risk client_B = Ok (r2, v2) /\
      RISK.value r1 <= RISK.value r2) /\
  (exists v, _calculate_risk client_A = Ok (RISK.mk 1, v)) /\
  (exists v, _calculate_risk client_B = Ok (RISK.mk 10, v)).
Proof.
  split; [| split].
  - apply (proj1 risk_score_monotone client_A client_B
             [0; 0; 0]%Q [100; 20]%Q);
      solve [reflexivity | discriminate | intros H; discriminate H].
  - apply (proj1 (proj2 risk_score_monotone) client_A [0; 0; 0]%Q);
      solve [reflexivity | discriminate | intros H; discriminate H].
  - apply (proj2 (proj2 risk_score_monotone) client_B [100; 20]%Q);
      solve [reflexivity | discriminate | intros H; discriminate H].
Defined.

(** ** What the report says about a coefficient *)

Lemma analyze_margin_sources (S : Sorter) (df : DataFrame) corr :
  analyze_margin S df = Ok corr ->
  exists mph,
    numeric df "margin_per_hour" = Ok mph /\
    forall item, In item corr ->
                 exists xs, numeric df (fst item) = Ok xs /\
                            snd item = pearson xs mph.
Proof.
  intros A.
  destruct (numeric_columns df (features ++ ["margin_per_hour"]))
    as [sub | e |] eqn:H;
    try (unfold analyze_margin in A; rewrite H in A; discriminate).
  destruct (numeric_columns_spec _ _ _ H) as [_ Cols].
  destruct (analyze_margin_spec S df sub H)
    as [mph [ranked [undefined [Nm [A' [P _]]]]]].
  rewrite A in A'. injection A' as ->.
  exists mph. split; [exact Nm |].
  intros item I. apply (Permutation_in _ P) in I.
  apply in_map_iff in I. destruct I as [c [<- I]]. simpl.
  rewrite Forall_forall in Cols. exists (snd c).
  split; [apply Cols, I | reflexivity].
Qed.

Lemma print_characteristics_sources (S : Sorter) (df : DataFrame) lines :
  print_characteristics S df = Ok lines ->
  exists mph,
    numeric df "margin_per_hour" = Ok mph /\
    forall l, In l lines ->
              l = describe (feature l) (value l) /\
              exists xs, numeric df (feature l) = Ok xs /\
                         value l = pearson xs mph.
Proof.
  unfold print_characteristics. intros P.
  destruct (analyze_margin S df) as [corr | |] eqn:A; simpl in P;
    try discriminate.
  injection P as <-.
  destruct (analyze_margin_sources S df corr A) as [mph [Nm Src]].
  exists mph. split; [exact Nm |].
  intros l I. rewrite report_lines in I.
  apply in_map_iff in I. destruct I as [item [<- I]]. simpl.
  split; [reflexivity |].
  apply filter_In in I. destruct I as [I _]. apply Src, I.
Qed.

Lemma pearson_flat (xs ys : list Q) :
  (exists x, Forall (fun y => (y == x)%Q) xs) \/
  (exists y, Forall (fun z => (z == y)%Q) ys) ->
  pearson xs ys = None.
Proof.
  intros C. unfold pearson.
  destruct (mean xs) as [mx |] eqn:Mx; [| reflexivity].
  destruct (mean ys) as [my |] eqn:My; [| reflexivity].
  assert (Flat : forall (l : list Q) (m c : Q),
             mean l = Some m -> Forall (fun y => (y == c)%Q) l ->
             (sq_dev m l == 0)%Q).
  { intros l m c M F. apply sq_dev_zero.
    assert (NE : l <> []) by (intros ->; discriminate M).
    assert (E : (m == c)%Q).
    { assert (M' : mean l = Some (Qsum l / Qlen l)%Q)
        by (destruct l; [contradiction | reflexivity]).
      rewrite M' in M. injection M as <-.
      pose proof (Qlen_pos l NE) as L.
      rewrite (Qsum_constant l c F). field. lra. }
    eapply Forall_impl; [| exact F].
    intros y Hy. cbv beta in Hy. rewrite Hy, E. reflexivity. }
  assert (Z : (sq_dev mx xs * sq_dev my ys == 0)%Q).
  { destruct C as [[x F] | [y F]].
    - rewrite (Flat xs mx x Mx F). ring.
    - rewrite (Flat ys my y My F). ring. }
  apply Qeq_bool_iff in Z. rewrite Z. reflexivity.
Qed.

(** A feature whose column has no spread, and every feature when
    margin_per_hour has none, gets the coefficient NaN; its line of the
    report reads 'very weak' and 'decreases'. *)
Theorem flat_feature_wording (S : Sorter) (df : DataFrame)
        (lines : list ReportLine) :
  print_characteristics S df = Ok lines ->
  forall l xs mph,
    In l lines ->
    numeric df (feature l) = Ok xs ->
    numeric df "margin_per_hour" = Ok mph ->
    (exists x, Forall (fun y => (y == x)%Q) xs) \/
    (exists y, Forall (fun z => (z == y)%Q) mph) ->
    value l = None /\
    strength_txt l = "very weak" /\ direction l = "decreases".
Proof.
  intros P l xs mph I Nx Nm C.
  destruct (print_characteristics_sources S df lines P) as [mph' [Nm' Src]].
  destruct (Src l I) as [E [xs' [Nx' V]]].
  rewrite Nm in Nm'. injection Nm' as <-.
  rewrite Nx in Nx'. injection Nx' as <-.
  rewrite (pearson_flat xs mph C) in V.
  split; [exact V |]. rewrite E, V. split; reflexivity.
Qed.

Lemma flat_feature_wording_witness :
  exists lines l,
    print_characteristics stable_sorter orders_enriched = Ok lines /\
    In l lines /\ feature l = "costs" /\
    value l = None /\
    strength_txt l = "very weak" /\ direction l = "decreases".
Proof.
  destruct (print_characteristics stable_sorter orders_enriched)
    as [lines | |] eqn:E;
    try (vm_compute in E; discriminate).
  assert (I : exists l, In l lines /\ feature l = "costs").
  { pose proof E as E'. vm_compute in E'. injection E' as <-.
    eexists. split; [do 3 right; left; reflexivity | reflexivity]. }
  destruct I as [l [I Fl]]. exists lines, l.
  split; [reflexivity |]. split; [exact I |]. split; [exact Fl |].
  apply (flat_feature_wording stable_sorter orders_enriched lines E l
           (column orders_enriched "costs")
           (column orders_enriched "margin_per_hour") I).
  - rewrite Fl. reflexivity.
  - reflexivity.
  - left. exists 10%Q. repeat (constructor; [reflexivity |]). constructor.
Defined.

(** ** The range of the coefficients *)









(** ** Orders that are never flagged *)

Lemma interpolation_bounds (virt : Q) :
  (0 <= virt - inject_Z (Qfloor virt) <= 1)%Q.
Proof.
  pose proof (Qfloor_le virt) as F1. pose proof (Qlt_floor virt) as F2.
  rewrite inject_Z_plus in F2.
  assert (E : (inject_Z 1 == 1)%Q) by reflexivity. rewrite E in F2.
  generalize dependent (inject_Z (Qfloor virt)). intros f F1 F2. lra.
Qed.

Lemma quantile_lower (xs : list Q) (q L v : Q) :
  Forall (fun y => (L <= y)%Q) xs -> quantile xs q = Some v -> (L <= v)%Q.
Proof.
  intros F H.
  enough (G : match quantile xs q with Some w => (L <= w)%Q | None => True end)
    by (rewrite H in G; exact G).
  clear H. apply sorted_values_Forall in F. unfold quantile.
  destruct (sorted_values xs) as [| a0 s]; [exact I |].
  cbv zeta.
  pose proof (Forall_inv F) as P0. cbv beta in P0.
  match goal with
  | |- (_ <= nth ?lo _ _ + (nth ?hi _ _ - _) * (?v - inject_Z (Qfloor ?v)))%Q =>
      pose proof (Forall_nth_default _ _ a0 lo F P0) as A;
      pose proof (Forall_nth_default _ _ a0 hi F P0) as B;
      pose proof (interpolation_bounds v) as G;
      cbv beta in A, B;
      generalize dependent (nth lo (a0 :: s) a0);
      generalize dependent (nth hi (a0 :: s) a0);
      generalize dependent (v - inject_Z (Qfloor v))%Q
  end.
  intros g [G0 G1] b B a A.
  assert (E : (a + (b - a) * g == L + ((a - L) * (1 - g) + (b - L) * g))%Q)
    by ring.
  rewrite E.
  assert (P1 : (0 <= (a - L) * (1 - g))%Q) by (apply Qmult_le_0_compat; lra).
  assert (P2 : (0 <= (b - L) * g)%Q) by (apply Qmult_le_0_compat; lra).
  generalize dependent ((a - L) * (1 - g))%Q.
  generalize dependent ((b - L) * g)%Q. intros. lra.
Qed.

Lemma quantile_upper (xs : list Q) (q U v : Q) :
  Forall (fun y => (y <= U)%Q) xs -> quantile xs q = Some v -> (v <= U)%Q.
Proof.
  intros F H.
  enough (G : match quantile xs q with Some w => (w <= U)%Q | None => True end)
    by (rewrite H in G; exact G).
  clear H. apply sorted_values_Forall in F. unfold quantile.
  destruct (sorted_values xs) as [| a0 s]; [exact I |].
  cbv zeta.
  pose proof (Forall_inv F) as P0. cbv beta in P0.
  match goal with
  | |- (nth ?lo _ _ + (nth ?hi _ _ - _) * (?v - inject_Z (Qfloor ?v)) <= _)%Q =>
      pose proof (Forall_nth_default _ _ a0 lo F P0) as A;
      pose proof (Forall_nth_default _ _ a0 hi F P0) as B;
      pose proof (interpolation_bounds v) as G;
      cbv beta in A, B;
      generalize dependent (nth lo (a0 :: s) a0);
      generalize dependent (nth hi (a0 :: s) a0);
      generalize dependent (v - inject_Z (Qfloor v))%Q
  end.
  intros g [G0 G1] b B a A.
  assert (E : (a + (b - a) * g == U - ((U - a) * (1 - g) + (U - b) * g))%Q)
    by ring.
  rewrite E.
  assert (P1 : (0 <= (U - a) * (1 - g))%Q) by (apply Qmult_le_0_compat; lra).
  assert (P2 : (0 <= (U - b) * g)%Q) by (apply Qmult_le_0_compat; lra).
  generalize dependent ((U - a) * (1 - g))%Q.
  generalize dependent ((U - b) * g)%Q. intros. lra.
Qed.

Lemma analyze_orders_rows (S : Sorter) (df : DataFrame) (pt mph rk : list Q) :
  wf df ->
  numeric df "processing_time_hr" = Ok pt ->
  numeric df "margin_per_hour" = Ok mph ->
  numeric df "risk (in percent)" = Ok rk ->
  exists idxs,
    analyze_orders S df = Ok (take idxs df) /\
    Permutation idxs
      (nonzero (mask3 pt mph rk (quantile pt (75 # 100))
                  (quantile mph (25 # 100)))).
Proof.
  intros W Npt Nmph Nrk. unfold analyze_orders.
  rewrite Npt, Nmph, Nrk. simpl bind.
  set (nz := nonzero (mask3 pt mph rk (quantile pt (75 # 100))
                        (quantile mph (25 # 100)))).
  assert (Rm : Forall (fun j => (j < length mph)%nat) nz).
  { apply Forall_forall. intros j I. apply nonzero_In in I.
    rewrite mask3_nth in I. apply nth_error_Some.
    destruct (nth_error pt j); [| discriminate].
    destruct (nth_error mph j); [discriminate | discriminate]. }
  assert (Rg : Forall (fun j => (j < nrows df)%nat) nz).
  { rewrite <- (numeric_length df _ mph W Nmph). exact Rm. }
  unfold sort_values. rewrite (numeric_take nz df _ mph Nmph). simpl bind.
  destruct (nargsort_values S (select nz mph)) as [P _].
  set (p := nargsort S Qle_bool (map Some (select nz mph)) true) in *.
  exists (select p nz). split.
  - rewrite (take_take p nz df W Rg). reflexivity.
  - rewrite <- (select_seq nz) at 2. apply select_perm.
    rewrite (select_length nz mph Rm) in P. exact P.
Qed.

(** An order whose processing time is the shortest of the table, or whose
    margin per hour is the largest, is never among the bad orders; a table
    whose processing times, or whose margins per hour, are all equal has no
    bad order: the result is the empty selection, and nothing is raised. *)
Theorem extreme_orders_unflagged (S : Sorter) (df : DataFrame)
        (pt mph rk : list Q) :
  wf df ->
  numeric df "processing_time_hr" = Ok pt ->
  numeric df "margin_per_hour" = Ok mph ->
  numeric df "risk (in percent)" = Ok rk ->
  exists idxs,
    analyze_orders S df = Ok (take idxs df) /\
    (forall i p, nth_error pt i = Some p ->
                 Forall (fun y => (p <= y)%Q) pt -> ~ In i idxs) /\
    (forall i m, nth_error mph i = Some m ->
                 Forall (fun y => (y <= m)%Q) mph -> ~ In i idxs) /\
    ((exists x, Forall (fun y => (y == x)%Q) pt) \/
     (exists x, Forall (fun y => (y == x)%Q) mph) -> idxs = []).
Proof.
  intros W Npt Nmph Nrk.
  destruct (analyze_orders_rows S df pt mph rk W Npt Nmph Nrk)
    as [idxs [E P]].
  exists idxs. split; [exact E |].
  assert (Low : forall i p, nth_error pt i = Some p ->
                            Forall (fun y => (p <= y)%Q) pt -> ~ In i idxs).
  { intros i p Ep F I. apply (Permutation_in _ P), nonzero_In in I.
    rewrite mask3_nth, Ep in I.
    destruct (nth_error mph i) as [m |]; [| discriminate].
    destruct (nth_error rk i) as [r |]; [| discriminate].
    injection I as I. rewrite !andb_true_iff in I. destruct I as [[I _] _].
    apply gt_nan_iff in I. destruct I as [y [Q L]].
    apply (quantile_lower _ _ _ _ F) in Q. lra. }
  assert (High : forall i m, nth_error mph i = Some m ->
                             Forall (fun y => (y <= m)%Q) mph -> ~ In i idxs).
  { intros i m Em F I. apply (Permutation_in _ P), nonzero_In in I.
    rewrite mask3_nth, Em in I.
    destruct (nth_error pt i) as [p |]; [| discriminate].
    destruct (nth_error rk i) as [r |]; [| discriminate].
    injection I as I. rewrite !andb_true_iff in I. destruct I as [[_ I] _].
    apply lt_nan_iff in I. destruct I as [y [Q L]].
    apply (quantile_upper _ _ _ _ F) in Q. lra. }
  split; [exact Low | split; [exact High |]].
  intros C. destruct idxs as [| i idxs]; [reflexivity | exfalso].
  assert (I : In i (i :: idxs)) by (left; reflexivity).
  pose proof I as I'. apply (Permutation_in _ P), nonzero_In in I'.
  rewrite mask3_nth in I'.
  destruct (nth_error pt i) as [p |] eqn:Ep; [| discriminate].
  destruct (nth_error mph i) as [m |] eqn:Em; [| discriminate].
  destruct C as [[x F] | [x F]].
  - apply (Low i p Ep); [| exact I].
    pose proof F as Fp. rewrite Forall_forall in Fp.
    pose proof (Fp p (nth_error_In _ _ Ep)) as Px.
    eapply Forall_impl; [| exact F]. intros y Y. cbv beta in Y. lra.
  - apply (High i m Em); [| exact I].
    pose proof F as Fm. rewrite Forall_forall in Fm.
    pose proof (Fm m (nth_error_In _ _ Em)) as Mx.
    eapply Forall_impl; [| exact F]. intros y Y. cbv beta in Y. lra.
Qed.

Lemma extreme_orders_unflagged_witness :
  exists idxs,
    analyze_orders stable_sorter orders_enriched = Ok (take idxs orders_enriched) /\
    (forall i p,
        nth_error (column orders_enriched "processing_time_hr") i = Some p ->
        Forall (fun y => (p <= y)%Q)
          (column orders_enriched "processing_time_hr") ->
        ~ In i idxs) /\
    (forall i m,
        nth_error (column orders_enriched "margin_per_hour") i = Some m ->
        Forall (fun y => (y <= m)%Q)
          (column orders_enriched "margin_per_hour") ->
        ~ In i idxs) /\
    ((exists x, Forall (fun y => (y == x)%Q)
                  (column orders_enriched "processing_time_hr")) \/
     (exists x, Forall (fun y => (y == x)%Q)
                  (column orders_enriched "margin_per_hour")) -> idxs = []).
Proof.
  apply (extreme_orders_unflagged stable_sorter orders_enriched
           (column orders_enriched "processing_time_hr")
           (column orders_enriched "margin_per_hour")
           (column orders_enriched "risk (in percent)")
           orders_enriched_wf);
    reflexivity.
Defined.

(** ** The report of the bad orders *)

Lemma columns_take (idxs : list nat) (df : DataFrame) :
  columns (take idxs df) = columns df.
Proof. unfold columns, take. rewrite map_map. reflexivity. Qed.

Lemma has_column_take (n : string) (idxs : list nat) (df : DataFrame) :
  has_column n (take idxs df) = has_column n df.
Proof. unfold has_column. rewrite columns_take. reflexivity. Qed.

Lemma nrows_take (idxs : list nat) (df : DataFrame) :
  wf df -> df <> [] -> Forall (fun j => (j < nrows df)%nat) idxs ->
  nrows (take idxs df) = length idxs.
Proof.
  intros _ NE F. destruct df as [| [c s] rest]; [contradiction |].
  simpl in *. apply select_length, F.
Qed.

Lemma take_app (idxs : list nat) (t u : DataFrame) :
  take idxs (t ++ u) = take idxs t ++ take idxs u.
Proof. apply map_app. Qed.

Lemma getitems_take (idxs : list nat) (df : DataFrame) (names : list string) :
  getitems (take idxs df) names =
  match getitems df names with
  | inl missing => inl missing
  | inr sub => inr (take idxs sub)
  end.
Proof.
  unfold getitems.
  rewrite (filter_ext (fun n => negb (has_column n (take idxs df)))
             (fun n => negb (has_column n df)))
    by (intros n; rewrite has_column_take; reflexivity).
  destruct (filter (fun n => negb (has_column n df)) names); [| reflexivity].
  f_equal. induction names as [| n names IH]; [reflexivity |].
  cbn [flat_map]. rewrite take_app, IH, getitem_take.
  destruct (getitem df n); reflexivity.
Qed.

Lemma numeric_present (df : DataFrame) (name : string) (xs : list Q) :
  numeric df name = Ok xs -> has_column name df = true.
Proof.
  intros N. eapply getitem_present, numeric_getitem, N.
Qed.

Lemma flagged_risk (pt mph rk : list Q) (q75 q25 : option Q) (i : nat) (r : Q) :
  In i (nonzero (mask3 pt mph rk q75 q25)) -> nth_error rk i = Some r ->
  (15 < r)%Q.
Proof.
  intros I E. apply nonzero_In in I. rewrite mask3_nth, E in I.
  destruct (nth_error pt i); [| discriminate].
  destruct (nth_error mph i); [| discriminate].
  injection I as I. rewrite !andb_true_iff in I. destruct I as [_ I].
  apply Qle_bool_false, negb_true_iff, I.
Qed.

Lemma flagged_in_range (pt mph rk : list Q) (q75 q25 : option Q) (i : nat) :
  In i (nonzero (mask3 pt mph rk q75 q25)) -> (i < length mph)%nat.
Proof.
  intros I. apply nonzero_In in I. rewrite mask3_nth in I.
  apply nth_error_Some.
  destruct (nth_error pt i); [| discriminate].
  destruct (nth_error mph i); discriminate.
Qed.

(** Once [analyze_orders] has run, [print_bad_orders] writes the single
    line of the empty case when no order was selected, also on a table
    without customer_id or order_id; otherwise it writes the heading with
    the number of selected orders and then either raises the KeyError of
    [bad_orders[cols]], naming the missing ones of customer_id and order_id,
    or lists the five columns of the selected orders, followed by the
    notes.  Every listed order has a risk above 15, which is the bound of
    the filter; the heading announces 50. *)
Theorem bad_orders_report (S : Sorter) (df : DataFrame) (pt mph rk : list Q) :
  wf df ->
  numeric df "processing_time_hr" = Ok pt ->
  numeric df "margin_per_hour" = Ok mph ->
  numeric df "risk (in percent)" = Ok rk ->
  exists idxs,
    analyze_orders S df = Ok (take idxs df) /\
    Forall (fun r => (15 < r)%Q) (select idxs rk) /\
    (idxs = [] ->
     print_bad_orders (Some (take idxs df)) = ([Text no_candidates], Returned)) /\
    (idxs <> [] ->
     forall missing,
       missing = filter (fun n => negb (has_column n df))
                   ["customer_id"; "order_id"] ->
       (missing <> [] ->
        print_bad_orders (Some (take idxs df))
        = (heading (length idxs), KeyErrorNotInIndex missing)) /\
       (missing = [] ->
        exists sub,
          print_bad_orders (Some (take idxs df))
          = (heading (length idxs) ++ [Rows sub; Text notes], Returned) /\
          columns sub = cols /\
          forall n, In n cols -> getitem sub n = getitem (take idxs df) n)).
Proof.
  intros W Npt Nmph Nrk.
  destruct (analyze_orders_rows S df pt mph rk W Npt Nmph Nrk)
    as [idxs [E P]].
  exists idxs. split; [exact E |].
  assert (NE : df <> []).
  { intros ->. discriminate Nmph. }
  assert (Rg : Forall (fun j => (j < nrows df)%nat) idxs).
  { apply Forall_forall. intros j I. apply (Permutation_in _ P) in I.
    rewrite <- (numeric_length df _ mph W Nmph).
    eapply flagged_in_range, I. }
  assert (Em : empty (take idxs df) = (length idxs =? 0)%nat).
  { unfold empty. rewrite columns_take, (nrows_take idxs df W NE Rg).
    destruct df as [| c rest]; [contradiction | reflexivity]. }
  split; [| split].
  - apply Forall_forall. intros r I. apply In_select in I.
    destruct I as [i [I N]]. apply (Permutation_in _ P) in I.
    eapply flagged_risk; eassumption.
  - intros ->. unfold print_bad_orders. rewrite Em. reflexivity.
  - intros NI missing Mi.
    assert (L : (length idxs =? 0)%nat = false).
    { apply Nat.eqb_neq. destruct idxs; [contradiction | discriminate]. }
    unfold print_bad_orders.
    rewrite Em, L, getitems_take, (nrows_take idxs df W NE Rg).
    unfold getitems, cols. cbn [filter].
    rewrite (numeric_present _ _ _ Npt), (numeric_present _ _ _ Nmph),
      (numeric_present _ _ _ Nrk).
    cbn [negb]. cbn [filter] in Mi. rewrite <- Mi.
    split.
    + intros M. destruct missing; [contradiction | reflexivity].
    + intros ->.
      destruct (has_column "customer_id" df) eqn:Hc;
        [| destruct (has_column "order_id" df); discriminate Mi].
      destruct (has_column "order_id" df) eqn:Ho; [| discriminate Mi].
      destruct (getitem_of_present _ _ Hc) as [sc Gc].
      destruct (getitem_of_present _ _ Ho) as [so Go].
      pose proof (numeric_getitem _ _ _ Npt) as Gp.
      pose proof (numeric_getitem _ _ _ Nmph) as Gm.
      pose proof (numeric_getitem _ _ _ Nrk) as Gr.
      cbn [flat_map]. rewrite Gc, Go, Gp, Gm, Gr.
      eexists. split; [reflexivity |]. split; [reflexivity |].
      intros n I. rewrite !getitem_take.
      cbn [In] in I.
      destruct I as [<- | [<- | [<- | [<- | [<- | []]]]]];
        [rewrite Gc | rewrite Go | rewrite Gp | rewrite Gm | rewrite Gr];
        reflexivity.
Qed.

Lemma bad_orders_report_witness :
  exists idxs,
    analyze_orders stable_sorter orders_enriched
    = Ok (take idxs orders_enriched) /\
    Forall (fun r => (15 < r)%Q)
      (select idxs (column orders_enriched "risk (in percent)")) /\
    (idxs = [] ->
     print_bad_orders (Some (take idxs orders_enriched))
     = ([Text no_candidates], Returned)) /\
    (idxs <> [] ->
     forall missing,
       missing = filter (fun n => negb (has_column n orders_enriched))
                   ["customer_id"; "order_id"] ->
       (missing <> [] ->
        print_bad_orders (Some (take idxs orders_enriched))
        = (heading (length idxs), KeyErrorNotInIndex missing)) /\
       (missing = [] ->
        exists sub,
          print_bad_orders (Some (take idxs orders_enriched))
          = (heading (length idxs) ++ [Rows sub; Text notes], Returned) /\
          columns sub = cols /\
          forall n, In n cols ->
                    getitem sub n = getitem (take idxs orders_enriched) n)).
Proof.
  apply (bad_orders_report stable_sorter orders_enriched
           (column orders_enriched "processing_time_hr")
           (column orders_enriched "margin_per_hour")
           (column orders_enriched "risk (in percent)")
           orders_enriched_wf);
    reflexivity.
Defined.

(** The report cannot be printed before the analysis: on the object
    [Analyzer(df)] returns, [print_bad_orders] raises the AttributeError of
    [None.empty] and writes nothing, not even the line of the empty case.
    After a call of [analyze_orders] that returned, which leaves every
    table as it is, it never does. *)
Theorem report_needs_analysis (S : Sorter) (df : ref) (h h' : heap)
        (self : Instance) :
  construct df h = (Ok self, h') ->
  print_bad_orders (bad_orders self) = ([], AttributeError) /\
  forall self' h'',
    run_analyze_orders S self h' = (Ok self', h'') ->
    h'' = h' /\ analyzer self' = analyzer self /\
    snd (print_bad_orders (bad_orders self')) <> AttributeError.
Proof.
  unfold construct, mbind, ret. intros C.
  destruct (Analyzer.__init__ df h) as [[a | e |] h0]; try discriminate.
  injection C as <- <-. split; [reflexivity |].
  intros self' h''. cbn [analyzer bad_orders].
  unfold run_analyze_orders, Analyzer.analyze_orders, mbind, ret, deref, lift.
  cbn [analyzer].
  destruct (analyze_orders S (nth (Analyzer.order_df a) h0 []))
    as [b | e |]; try discriminate.
  intros R. injection R as <- <-. cbn [analyzer bad_orders].
  split; [reflexivity | split; [reflexivity |]].
  unfold print_bad_orders.
  destruct (empty b); [discriminate |].
  destruct (getitems b cols); discriminate.
Qed.

Lemma report_needs_analysis_witness :
  print_bad_orders (bad_orders {| analyzer := Analyzer.mk 1%nat;
                                  bad_orders := None |})
  = ([], AttributeError) /\
  forall self' h'',
    run_analyze_orders stable_sorter
      {| analyzer := Analyzer.mk 1%nat; bad_orders := None |}
      [orders; orders_enriched] = (Ok self', h'') ->
    h'' = [orders; orders_enriched] /\
    analyzer self' = Analyzer.mk 1%nat /\
    snd (print_bad_orders (bad_orders self')) <> AttributeError.
Proof.
  apply (report_needs_analysis stable_sorter 0%nat [orders]
           [orders; orders_enriched]
           {| analyzer := Analyzer.mk 1%nat; bad_orders := None |}).
  unfold construct, mbind. rewrite orders_init. reflexivity.
Defined.

(** ** The run of main *)

Lemma numeric_app_l (t u : DataFrame) (name : string) (xs : list Q) :
  numeric t name = Ok xs -> numeric (t ++ u) name = Ok xs.
Proof.
  intros N. apply getitem_numeric, getitem_app_l, numeric_getitem, N.
Qed.

Lemma print_characteristics_Ok (S : Sorter) (df : DataFrame) sub :
  numeric_columns df (features ++ ["margin_per_hour"]) = Ok sub ->
  exists corr lines,
    analyze_margin S df = Ok corr /\
    print_characteristics S df = Ok lines /\
    Permutation (map feature lines) features.
Proof.
  intros H. destruct (numeric_columns_spec _ _ _ H) as [Names _].
  destruct (analyze_margin_spec S df sub H)
    as [mph [ranked [undefined [_ [A [P _]]]]]].
  exists (ranked ++ undefined). eexists.
  split; [exact A |]. split.
  - unfold print_characteristics. rewrite A. simpl bind.
    rewrite report_lines. reflexivity.
  - rewrite map_map. simpl. rewrite filter_map_fst.
    assert (Pn : Permutation (map fst (ranked ++ undefined))
                   (features ++ ["margin_per_hour"])).
    { rewrite P, map_map, <- Names. apply Permutation_refl. }
    rewrite (filter_perm _ _ _ Pn). reflexivity.
Qed.

Lemma analyze_client_Ok (df : DataFrame) (keys : Series) (risks margins : list Q) :
  wf df ->
  getitem df "customer_id" = Ok keys ->
  numeric df "risk (in percent)" = Ok risks ->
  numeric df "margin_per_hour" = Ok margins ->
  exists entries,
    analyze_client df = Ok entries /\
    forall k d, In (k, d) entries ->
                1 <= RISK.value (risk d) <= 10 /\
                1 <= GAIN.value (gain d) <= 10.
Proof.
  intros W K Nr Nm.
  assert (G : groupby df "customer_id"
              = Ok (map (fun k => (k, take (rows_of k keys) df))
                      (unique (filter notna keys)))).
  { unfold groupby. rewrite K. reflexivity. }
  unfold analyze_client. rewrite G. simpl bind.
  destruct (for_each_client_Ok
              (fun _ d => 1 <= RISK.value (risk d) <= 10 /\
                          1 <= GAIN.value (gain d) <= 10)
              (map (fun k => (k, take (rows_of k keys) df))
                 (unique (filter notna keys)))) as [entries [F [_ A]]].
  - intros [k cdf] I. simpl.
    destruct (groupby_group _ _ _ _ _ _ _ W G I Nr)
      as [_ [rs [_ [_ [_ [Nrs NEr]]]]]].
    destruct (groupby_group _ _ _ _ _ _ _ W G I Nm)
      as [_ [ms [_ [_ [_ [Nms NEm]]]]]].
    destruct (client_record_Ok _ _ _ Nrs NEr Nms NEm) as [d [E [_ [_ [_ B]]]]].
    exists d. auto.
  - exists entries. split; [exact F | exact A].
Qed.

Lemma dict_set_In (k k' : string) (v v' : ClientDiag)
      (d : list (string * ClientDiag)) :
  In (k', v') (dict_set k v d) -> v' = v \/ In (k', v') d.
Proof.
  induction d as [| [k0 v0] d IH]; simpl.
  - intros [E | []]. injection E as _ <-. left; reflexivity.
  - destruct (String.eqb k0 k); simpl.
    + intros [E | I]; [injection E as _ <-; left; reflexivity | right; right; exact I].
    + intros [E | I]; [right; left; exact E |].
      destruct (IH I) as [-> | J]; [left; reflexivity | right; right; exact J].
Qed.

Lemma client_dict_values (str : cell -> string)
      (entries : list (cell * ClientDiag)) (d0 : list (string * ClientDiag))
      (k : string) (v : ClientDiag) :
  In (k, v) (fold_left (fun d e => dict_set (str (fst e)) (snd e) d) entries d0) ->
  In (k, v) d0 \/ exists c, In (c, v) entries.
Proof.
  revert d0. induction entries as [| [c w] entries IH]; intros d0; simpl.
  - intros I. left; exact I.
  - intros I. destruct (IH _ I) as [J | [c' J]].
    + destruct (dict_set_In _ _ _ _ _ J) as [-> | J'];
        [right; exists c; left; reflexivity | left; exact J'].
    + right. exists c'. right; exact J.
Qed.

Lemma print_bad_orders_returns (b : DataFrame) :
  (forall n, In n cols -> has_column n b = true) ->
  snd (print_bad_orders (Some b)) = Returned.
Proof.
  intros H. unfold print_bad_orders.
  destruct (empty b); [reflexivity |].
  unfold getitems, cols. cbn [filter].
  rewrite !H by (unfold cols; simpl; tauto).
  reflexivity.
Qed.

(** On a well-formed table with numeric profit, costs, risk and non-zero
    processing times, with the columns customer_id and order_id and without
    the two derived columns, [main] runs through without an exception: it
    works on a table of its own and leaves every table it was given as it
    is, writes one line for each of the four features, one block per client
    with scores between 1 and 10 and the label of these scores, and the
    report of the bad orders returns. *)
Theorem main_completes (str : cell -> string) (S : Sorter) (df : ref) (h : heap)
        (ps cs ts rs : list Q) :
  wf (nth df h []) ->
  has_column "contribution_margin" (nth df h []) = false ->
  has_column "margin_per_hour" (nth df h []) = false ->
  numeric (nth df h []) "profit" = Ok ps ->
  numeric (nth df h []) "costs" = Ok cs ->
  numeric (nth df h []) "processing_time_hr" = Ok ts ->
  numeric (nth df h []) "risk (in percent)" = Ok rs ->
  Forall (fun t => ~ (t == 0)%Q) ts ->
  has_column "customer_id" (nth df h []) = true ->
  has_column "order_id" (nth df h []) = true ->
  exists out t',
    main str S df h = (Ok out, h ++ [t']) /\
    Permutation (map feature (characteristics out)) features /\
    (forall k d l,
        In (k, d, l) (client_lines out) ->
        l = client_label d /\
        1 <= RISK.value (risk d) <= 10 /\ 1 <= GAIN.value (gain d) <= 10) /\
    snd (orders_report out) = Returned.
Proof.
  intros W C M P K T R NZ Hc Ho.
  set (t := nth df h []) in *.
  set (t' := t ++ [("contribution_margin", map Num (differences ps cs));
                   ("margin_per_hour", quotient_cells (differences ps cs) ts)]).
  assert (Init : Analyzer.__init__ df h
                 = (Ok (Analyzer.mk (length h)), h ++ [t'])).
  { rewrite init_enrich. fold t.
    rewrite (enrich_numeric t ps cs ts C M P K T). reflexivity. }
  assert (Nth : nth (length h) (h ++ [t']) [] = t') by apply nth_middle.
  assert (W' : wf t') by (apply enriched_wf; assumption).
  assert (Nm : numeric t' "margin_per_hour"
               = Ok (quotients (differences ps cs) ts)).
  { unfold t'. rewrite (quotient_cells_nonzero _ _ NZ).
    apply getitem_numeric. rewrite (getitem_app_r _ _ _ M). reflexivity. }
  pose proof (numeric_app_l t _ _ _ P : numeric t' "profit" = Ok ps) as P'.
  pose proof (numeric_app_l t _ _ _ K : numeric t' "costs" = Ok cs) as K'.
  pose proof (numeric_app_l t _ _ _ T : numeric t' "processing_time_hr" = Ok ts)
    as T'.
  pose proof (numeric_app_l t _ _ _ R : numeric t' "risk (in percent)" = Ok rs)
    as R'.
  assert (Sub : exists sub,
             numeric_columns t' (features ++ ["margin_per_hour"]) = Ok sub).
  { unfold features. cbn [app numeric_columns].
    rewrite T', K', P', R', Nm. eexists. reflexivity. }
  destruct Sub as [sub Sub].
  destruct (print_characteristics_Ok S t' sub Sub) as [corr [lines [A [PC Pf]]]].
  destruct (getitem_of_present _ _ Hc) as [keys Gk].
  pose proof (getitem_app_l t _ _ _ Gk : getitem t' "customer_id" = Ok keys)
    as Gk'.
  destruct (analyze_client_Ok t' keys _ _ W' Gk' R' Nm) as [entries [AC B]].
  destruct (analyze_orders_rows S t' _ _ _ W' T' Nm R') as [idxs [AO _]].
  eexists. exists t'. split.
  - unfold main, construct, run_analyze_orders, Analyzer.analyze_margin,
      Analyzer.print_characteristics, Analyzer.analyze_client,
      Analyzer.analyze_orders, mbind, ret, lift, deref.
    rewrite Init. cbn [analyzer Analyzer.order_df].
    rewrite Nth, A, PC, AC, AO. reflexivity.
  - cbn [characteristics client_lines orders_report bad_orders].
    split; [exact Pf |]. split.
    + intros k d l I. unfold print_client_risk_and_gain in I.
      apply in_map_iff in I. destruct I as [[k0 d0] [E I]].
      simpl in E. injection E as <- <- <-.
      split; [reflexivity |].
      destruct (client_dict_values str entries [] _ _ I) as [[] | [c J]].
      apply (B c d0 J).
    + apply print_bad_orders_returns. intros n I.
      rewrite has_column_take. unfold t'. rewrite has_column_app.
      unfold cols in I. cbn [In] in I.
      destruct I as [<- | [<- | [<- | [<- | [<- | []]]]]].
      * rewrite Hc. reflexivity.
      * rewrite Ho. reflexivity.
      * rewrite (numeric_present _ _ _ T). reflexivity.
      * simpl. apply orb_true_r.
      * rewrite (numeric_present _ _ _ R). reflexivity.
Qed.

Lemma main_completes_witness :
  exists out t',
    main (fun c => match c with Str s => s | _ => "?" end)
      stable_sorter 0%nat [orders] = (Ok out, [orders] ++ [t']) /\
    Permutation (map feature (characteristics out)) features /\
    (forall k d l,
        In (k, d, l) (client_lines out) ->
        l = client_label d /\
        1 <= RISK.value (risk d) <= 10 /\ 1 <= GAIN.value (gain d) <= 10) /\
    snd (orders_report out) = Returned.
Proof.
  apply (main_completes _ stable_sorter 0%nat [orders]
           (column orders "profit") (column orders "costs")
           (column orders "processing_time_hr")
           (column orders "risk (in percent)")).
  - split; [repeat constructor; simpl; intuition discriminate
           | repeat constructor].
  - reflexivity.
  - reflexivity.
  - reflexivity.
  - reflexivity.
  - reflexivity.
  - reflexivity.
  - apply nonzero_all. reflexivity.
  - reflexivity.
  - reflexivity.
Defined.

(** ** Tables that bring a derived column along *)

(** A derived column the table brings along is kept as it is.  With a
    contribution_margin column the margin per hour is computed from that
    column and neither profit nor costs is read; with a margin_per_hour
    column only the contribution margin is added and processing_time_hr is
    not read. *)
Theorem supplied_columns_kept (df : ref) (h : heap) :
  (forall ms ts,
      has_column "contribution_margin" (nth df h []) = true ->
      has_column "margin_per_hour" (nth df h []) = false ->
      numeric (nth df h []) "contribution_margin" = Ok ms ->
      numeric (nth df h []) "processing_time_hr" = Ok ts ->
      Analyzer.__init__ df h
      = (Ok (Analyzer.mk (length h)),
         h ++ [nth df h [] ++ [("margin_per_hour", quotient_cells ms ts)]])) /\
  (forall ps cs,
      has_column "contribution_margin" (nth df h []) = false ->
      has_column "margin_per_hour" (nth df h []) = true ->
      numeric (nth df h []) "profit" = Ok ps ->
      numeric (nth df h []) "costs" = Ok cs ->
      Analyzer.__init__ df h
      = (Ok (Analyzer.mk (length h)),
         h ++ [nth df h [] ++
               [("contribution_margin", map Num (differences ps cs))]])).
Proof.
  split.
  - intros ms ts C M Nc Nt. rewrite init_enrich.
    apply numeric_getitem in Nc, Nt.
    unfold enrich. rewrite (add_column_present _ _ _ C).
    unfold add_column. rewrite M. unfold margin_per_hour.
    rewrite Nc, Nt. simpl bind.
    rewrite series_div_numeric, (setitem_absent _ _ _ M). reflexivity.
  - intros ps cs C M P K.
    apply numeric_getitem in P, K.
    assert (E : enrich (nth df h [])
                = (Ok tt, nth df h [] ++
                          [("contribution_margin",
                            map Num (differences ps cs))])).
    { unfold enrich.
      assert (A : add_column "contribution_margin" contribution_margin
                    (nth df h [])
                  = (Ok tt, nth df h [] ++
                            [("contribution_margin",
                              map Num (differences ps cs))])).
      { unfold add_column. rewrite C. unfold contribution_margin.
        rewrite P, K. simpl bind.
        rewrite series_sub_numeric, (setitem_absent _ _ _ C). reflexivity. }
      rewrite A. apply add_column_present.
      rewrite has_column_app, M. reflexivity. }
    rewrite init_enrich, E. reflexivity.
Qed.

Lemma supplied_columns_kept_witness :
  Analyzer.__init__ 0%nat [margin_only_orders]
  = (Ok (Analyzer.mk 1%nat),
     [margin_only_orders;
      margin_only_orders
      ++ [("margin_per_hour", [Num 80; Num (30 # 2)])]]) /\
  Analyzer.__init__ 0%nat [hourly_orders]
  = (Ok (Analyzer.mk 1%nat),
     [hourly_orders;
      hourly_orders ++ [("contribution_margin", nums [80; 0])]]).
Proof.
  split.
  - rewrite (proj1 (supplied_columns_kept 0%nat [margin_only_orders])
               (column margin_only_orders "contribution_margin")
               (column margin_only_orders "processing_time_hr")
               eq_refl eq_refl eq_refl eq_refl).
    vm_compute. reflexivity.
  - rewrite (proj2 (supplied_columns_kept 0%nat [hourly_orders])
               (column hourly_orders "profit")
               (column hourly_orders "costs")
               eq_refl eq_refl eq_refl eq_refl).
    vm_compute. reflexivity.
Defined.

(** ** The dictionary of the clients *)

Lemma dict_set_keys (k k' : string) (v : ClientDiag)
      (d : list (string * ClientDiag)) :
  In k' (map fst (dict_set k v d)) <-> k' = k \/ In k' (map fst d).
Proof.
  induction d as [| [k0 v0] d IH]; simpl.
  - intuition congruence.
  - destruct (String.eqb k0 k) eqn:E; simpl.
    + apply String.eqb_eq in E. subst k0. intuition congruence.
    + rewrite IH. intuition congruence.
Qed.

Lemma dict_set_NoDup (k : string) (v : ClientDiag)
      (d : list (string * ClientDiag)) :
  NoDup (map fst d) -> NoDup (map fst (dict_set k v d)).
Proof.
  induction d as [| [k0 v0] d IH]; simpl; intros N.
  - constructor; [intros [] | constructor].
  - destruct (String.eqb k0 k) eqn:E; simpl; [exact N |].
    apply String.eqb_neq in E. inversion N as [| ? ? NI N']; subst.
    constructor; [| apply IH, N'].
    rewrite dict_set_keys. intros [-> | I]; [apply E; reflexivity | apply NI, I].
Qed.

Lemma dict_set_new (k : string) (v : ClientDiag)
      (d : list (string * ClientDiag)) :
  ~ In k (map fst d) -> dict_set k v d = d ++ [(k, v)].
Proof.
  induction d as [| [k0 v0] d IH]; simpl; intros NI; [reflexivity |].
  destruct (String.eqb k0 k) eqn:E.
  - apply String.eqb_eq in E. exfalso. apply NI. left; exact E.
  - rewrite IH; [reflexivity |]. intros I. apply NI. right; exact I.
Qed.

Lemma dict_set_holds (k : string) (v : ClientDiag)
      (d : list (string * ClientDiag)) :
  In (k, v) (dict_set k v d).
Proof.
  induction d as [| [k0 v0] d IH]; simpl; [left; reflexivity |].
  destruct (String.eqb k0 k) eqn:E.
  - apply String.eqb_eq in E. subst k0. left; reflexivity.
  - right; exact IH.
Qed.

Lemma dict_set_other (k k' : string) (v v' : ClientDiag)
      (d : list (string * ClientDiag)) :
  k' <> k -> In (k', v') d -> In (k', v') (dict_set k v d).
Proof.
  intros NE. induction d as [| [k0 v0] d IH]; simpl; [intros [] |].
  intros [E | I].
  - injection E as -> ->.
    destruct (String.eqb k' k) eqn:Q;
      [apply String.eqb_eq in Q; contradiction | left; reflexivity].
  - destruct (String.eqb k0 k); right; [exact I | apply IH, I].
Qed.

Section Dictionary.
Variable str : cell -> string.

Lemma assign_all_NoDup entries d0 :
  NoDup (map fst d0) -> NoDup (map fst (assign_all str entries d0)).
Proof.
  revert d0. induction entries as [| e entries IH]; intros d0 N; [exact N |].
  apply IH, dict_set_NoDup, N.
Qed.

Lemma assign_all_keys entries d0 (k : string) :
  In k (map fst (assign_all str entries d0))
  <-> In k (map fst d0) \/ In k (map (fun e => str (fst e)) entries).
Proof.
  revert d0. induction entries as [| e entries IH]; intros d0; simpl.
  - tauto.
  - unfold assign_all in *. simpl. rewrite IH, dict_set_keys.
    intuition congruence.
Qed.

Lemma assign_all_distinct entries d0 :
  NoDup (map fst d0 ++ map (fun e => str (fst e)) entries) ->
  assign_all str entries d0 = d0 ++ map (fun e => (str (fst e), snd e)) entries.
Proof.
  revert d0. induction entries as [| e entries IH]; intros d0 N; simpl.
  - symmetry; apply app_nil_r.
  - unfold assign_all in *. simpl.
    assert (NI : ~ In (str (fst e)) (map fst d0)).
    { intros I. apply NoDup_remove_2 in N. apply N, in_or_app. left; exact I. }
    rewrite (dict_set_new _ _ _ NI), IH.
    + rewrite <- app_assoc. reflexivity.
    + rewrite map_app, <- app_assoc. exact N.
Qed.

Lemma assign_all_keeps entries d0 (k : string) (v : ClientDiag) :
  In (k, v) d0 ->
  (forall e, In e entries -> str (fst e) <> k) ->
  In (k, v) (assign_all str entries d0).
Proof.
  revert d0. induction entries as [| e entries IH]; intros d0 I H; [exact I |].
  unfold assign_all in *. simpl. apply IH.
  - apply dict_set_other; [| exact I].
    intros E. apply (H e); [left; reflexivity | symmetry; exact E].
  - intros e' I'. apply H. right; exact I'.
Qed.

(** [analyze_client] keys the records by the printed form of the customer
    id.  The keys of the dictionary are the printed forms of the ids, each
    once; ids that print differently get one entry each, in the order of the
    loop; of ids that print alike only the record assigned last is kept. *)
Theorem clients_keyed_by_printed_id (entries : list (cell * ClientDiag)) :
  NoDup (map fst (client_dict_of str entries)) /\
  (forall k, In k (map fst (client_dict_of str entries))
             <-> In k (map (fun e => str (fst e)) entries)) /\
  (NoDup (map (fun e => str (fst e)) entries) ->
   client_dict_of str entries = map (fun e => (str (fst e), snd e)) entries) /\
  (forall a c d b,
      entries = a ++ (c, d) :: b ->
      (forall e, In e b -> str (fst e) <> str c) ->
      In (str c, d) (client_dict_of str entries) /\
      forall d', In (str c, d') (client_dict_of str entries) -> d' = d).
Proof.
  split; [apply (assign_all_NoDup entries []); constructor |].
  split; [intros k; rewrite (assign_all_keys entries [] k); simpl; tauto |].
  split; [intros N; apply (assign_all_distinct entries []); exact N |].
  intros a c d b -> H.
  assert (I : In (str c, d) (client_dict_of str (a ++ (c, d) :: b))).
  { unfold client_dict_of, assign_all. rewrite fold_left_app. simpl.
    apply assign_all_keeps; [apply dict_set_holds | exact H]. }
  split; [exact I |].
  intros d' I'.
  pose proof (assign_all_NoDup (a ++ (c, d) :: b) [] (NoDup_nil _)) as N.
  fold (client_dict_of str (a ++ (c, d) :: b)) in N.
  revert N I I'. generalize (client_dict_of str (a ++ (c, d) :: b)).
  intros l. induction l as [| [k0 v0] l IH]; simpl; [intros _ [] |].
  intros N I I'. inversion N as [| ? ? NI N']; subst.
  destruct I as [E | I]; destruct I' as [E' | I'].
  - congruence.
  - injection E as -> ->. exfalso. apply NI.
    apply (in_map fst) in I'. exact I'.
  - injection E' as -> ->. exfalso. apply NI.
    apply (in_map fst) in I. exact I.
  - apply IH; assumption.
Qed.
End Dictionary.
